(** * snake-mp: the authoritative room simulation of [server.js]

    A shallow embedding of the room engine of [server.js] (room state
    machine, spawn placement, food placement, input reconciliation, the
    movement step and the tick), followed by the properties of the
    specification that concern it.

    Conventions of the embedding.
    - Grid coordinates, scores, sequence numbers and timestamps are JS
      numbers that the code only ever combines by integer additions and
      comparisons; they are integers ([Z]).  Client supplied numbers
      (direction components, sequence numbers) are taken integer valued.
    - The movement accumulator and the speed are fractional; their
      arithmetic is carried out exactly, in [Q].
    - [room.players] and [room.inputs] are JS [Map]s: association lists in
      insertion order, [Map.set] replacing in place.  A player object is
      reached through its id, which is also its key in [room.players].
      The fields [ws], [name] and [color] of a player are never read by the
      simulation and are left out.
    - [Date.now()], [Math.random()], [setInterval]/[clearInterval] and the
      socket sends are effects on a [World] that every operation threads.
      The frames [hello] and [pong], which involve no room, and the room
      registry are left out: a message handler is modelled from the point
      where it has its room.
    - Occupancy sets hold the keys [x + ',' + y]; two integer cells have the
      same key exactly when they are equal, so a set of keys is a list of
      cells tested with [cell_eqb]. *)

From Stdlib Require Import ZArith QArith Qminmax List Bool Lia Lqa.
From Stdlib Require String.
Import ListNotations.
Open Scope Z_scope.

Set Implicit Arguments.

(** ** Data model *)

Record Cell := cell { x : Z; y : Z }.

Definition cell_eqb (a b : Cell) : bool := (x a =? x b) && (y a =? y b).

Inductive RoomState := lobby | running | ended.

Definition state_eqb (a b : RoomState) : bool :=
  match a, b with
  | lobby, lobby | running, running | ended, ended => true
  | _, _ => false
  end.

Record Player := mkPlayer {
  score : Z;
  alive : bool;
  respawnAt : option Z;
  snake : list Cell;          (* tail first, head last *)
  dir : Cell;
  lastSeq : Z
}.

Record InputSample := mkInput { inp_dir : Cell; inp_seq : Z }.

Record Room := mkRoom {
  code : String.string;
  createdAt : Z;
  state : RoomState;
  startedAt : option Z;
  endsAt : option Z;
  tickHandle : option nat;
  food : option Cell;
  tickNo : Z;                 (* the field [tick] *)
  cps : Q;
  moveAcc : Q;
  players : list (nat * Player);
  inputs : list (nat * InputSample)
}.

(** ** Game constants *)

Definition GRID : Z := 20.
Definition TICK_HZ : Q := 20.
Definition TICK_MS : Q := 1000 / TICK_HZ.
Definition ROUND_MS : Z := 120000.
Definition BASE_CPS : Q := 15 # 2.

(** ** Messages and the world *)

Inductive Reason := wall | body | dead.

Record Snapshot := mkSnapshot {
  s_code : String.string;
  s_state : RoomState;
  s_startedAt : option Z;
  s_endsAt : option Z;
  s_grid : Z;
  s_cps : Q;
  s_food : option Cell;
  s_players : list (nat * Player)
}.

Record StateSnapshot := mkStateSnapshot {
  t_now : Z;
  t_endsAt : option Z;
  t_tick : Z;
  t_cps : Q;
  t_food : option Cell;
  t_players : list (nat * Player)
}.

Inductive Msg :=
| MsgJoined (s : Snapshot) (you : nat)
| MsgPlayers (s : Snapshot)
| MsgRoom (s : Snapshot)
| MsgEnded (s : Snapshot)
| MsgState (s : StateSnapshot)
| MsgDeath (id : nat) (reason : Reason) (at_ : Z)
| MsgRespawn (id : nat) (body_ : list Cell) (d : Cell)
| MsgError.

(** A sent frame: the recipients' ids and the message. *)
Definition Frame : Type := list nat * Msg.

Record World := mkWorld {
  clock : nat -> Z;           (* the successive readings of [Date.now()] *)
  clockReads : nat;
  random : nat -> nat;        (* the successive draws of [Math.random()] *)
  randomReads : nat;
  nextHandle : nat;
  intervals : list nat;       (* the timers that are armed *)
  outbox : list Frame
}.

Definition now (w : World) : Z * World :=
  (clock w (clockReads w),
   mkWorld (clock w) (S (clockReads w)) (random w) (randomReads w)
           (nextHandle w) (intervals w) (outbox w)).

(** [(Math.random() * n) | 0] is an index below [n], any of them: the next
    draw of the oracle, reduced below [n]. *)
Definition draw (n : nat) (w : World) : nat * World :=
  ((random w (randomReads w) mod n)%nat,
   mkWorld (clock w) (clockReads w) (random w) (S (randomReads w))
           (nextHandle w) (intervals w) (outbox w)).

Definition setInterval (w : World) : nat * World :=
  (nextHandle w,
   mkWorld (clock w) (clockReads w) (random w) (randomReads w)
           (S (nextHandle w)) (nextHandle w :: intervals w) (outbox w)).

Definition clearInterval (h : nat) (w : World) : World :=
  mkWorld (clock w) (clockReads w) (random w) (randomReads w)
          (nextHandle w) (filter (fun k => negb (Nat.eqb k h)) (intervals w))
          (outbox w).

Definition emit (f : Frame) (w : World) : World :=
  mkWorld (clock w) (clockReads w) (random w) (randomReads w)
          (nextHandle w) (intervals w) (outbox w ++ [f]).

(** ** Field updates *)

Definition withState (s : RoomState) (r : Room) : Room :=
  mkRoom (code r) (createdAt r) s (startedAt r) (endsAt r) (tickHandle r)
         (food r) (tickNo r) (cps r) (moveAcc r) (players r) (inputs r).
Definition withTimes (a b : option Z) (r : Room) : Room :=
  mkRoom (code r) (createdAt r) (state r) a b (tickHandle r)
         (food r) (tickNo r) (cps r) (moveAcc r) (players r) (inputs r).
Definition withHandle (h : option nat) (r : Room) : Room :=
  mkRoom (code r) (createdAt r) (state r) (startedAt r) (endsAt r) h
         (food r) (tickNo r) (cps r) (moveAcc r) (players r) (inputs r).
Definition withFood (f : option Cell) (r : Room) : Room :=
  mkRoom (code r) (createdAt r) (state r) (startedAt r) (endsAt r)
         (tickHandle r) f (tickNo r) (cps r) (moveAcc r) (players r)
         (inputs r).
Definition withTickNo (n : Z) (r : Room) : Room :=
  mkRoom (code r) (createdAt r) (state r) (startedAt r) (endsAt r)
         (tickHandle r) (food r) n (cps r) (moveAcc r) (players r)
         (inputs r).
Definition withMoveAcc (a : Q) (r : Room) : Room :=
  mkRoom (code r) (createdAt r) (state r) (startedAt r) (endsAt r)
         (tickHandle r) (food r) (tickNo r) (cps r) a (players r)
         (inputs r).
Definition withPlayers (ps : list (nat * Player)) (r : Room) : Room :=
  mkRoom (code r) (createdAt r) (state r) (startedAt r) (endsAt r)
         (tickHandle r) (food r) (tickNo r) (cps r) (moveAcc r) ps
         (inputs r).
Definition withInputs (i : list (nat * InputSample)) (r : Room) : Room :=
  mkRoom (code r) (createdAt r) (state r) (startedAt r) (endsAt r)
         (tickHandle r) (food r) (tickNo r) (cps r) (moveAcc r) (players r)
         i.

(** ** Maps in insertion order *)

Section AssocMap.
Variable V : Type.

Fixpoint mget (k : nat) (m : list (nat * V)) : option V :=
  match m with
  | [] => None
  | (k', v) :: m' => if Nat.eqb k k' then Some v else mget k m'
  end.

(** [Map.set]: replaces the value of a present key where it stands,
    appends an absent key. *)
Fixpoint mset (k : nat) (v : V) (m : list (nat * V)) : list (nat * V) :=
  match m with
  | [] => [(k, v)]
  | (k', v') :: m' =>
      if Nat.eqb k k' then (k, v) :: m' else (k', v') :: mset k v m'
  end.

Definition mdelete (k : nat) (m : list (nat * V)) : list (nat * V) :=
  filter (fun kv => negb (Nat.eqb (fst kv) k)) m.

(** A write through a reference to the value stored under [k]. *)
Fixpoint mupdate (k : nat) (f : V -> V) (m : list (nat * V))
  : list (nat * V) :=
  match m with
  | [] => []
  | (k', v) :: m' =>
      if Nat.eqb k k' then (k', f v) :: m' else (k', v) :: mupdate k f m'
  end.
End AssocMap.

Definition getPlayer (id : nat) (r : Room) : option Player :=
  mget id (players r).

Definition modPlayer (id : nat) (f : Player -> Player) (r : Room) : Room :=
  withPlayers (mupdate id f (players r)) r.

Definition ids (r : Room) : list nat := map fst (players r).

(** [for (const p of room.players.values()) body(p)]: the keys are those the
    map has when the loop starts; each round sees the room as the previous
    rounds left it. *)
Fixpoint forEach (f : nat -> Room -> World -> Room * World)
         (l : list nat) (r : Room) (w : World) : Room * World :=
  match l with
  | [] => (r, w)
  | i :: l' => let (r1, w1) := f i r w in forEach f l' r1 w1
  end.

(** ** Snapshots and sends *)

Definition orZero (n : Z) : Z := if n =? 0 then 0 else n.   (* [n || 0] *)

Definition view (p : Player) : Player :=
  mkPlayer (score p) (alive p) (respawnAt p) (snake p) (dir p)
           (orZero (lastSeq p)).

Definition views (r : Room) : list (nat * Player) :=
  map (fun ip => (fst ip, view (snd ip))) (players r).

Definition roomSnapshot (r : Room) : Snapshot :=
  mkSnapshot (code r) (state r) (startedAt r) (endsAt r) GRID (cps r)
             (food r) (views r).

Definition send (id : nat) (m : Msg) (w : World) : World := emit ([id], m) w.

Definition broadcast (r : Room) (m : Msg) (w : World) : World :=
  emit (ids r, m) w.

(** ** Rooms *)

Definition createRoom (c : String.string) (w : World) : Room * World :=
  let (t, w1) := now w in
  (mkRoom c t lobby None None None None 0 BASE_CPS 0 [] [], w1).

(** ** Free cells and food *)

Definition has (s : list Cell) (c : Cell) : bool := existsb (cell_eqb c) s.

Definition bodies (r : Room) : list Cell :=
  flat_map (fun ip => snake (snd ip)) (players r).

Definition occupied (r : Room) : list Cell :=
  bodies r ++ match food r with Some f => [f] | None => [] end.

Definition upto (n : Z) : list Z := map Z.of_nat (seq 0 (Z.to_nat n)).

Definition gridCells : list Cell :=
  flat_map (fun cy => map (fun cx => cell cx cy) (upto GRID)) (upto GRID).

Definition freeCells (r : Room) : list Cell :=
  filter (fun c => negb (has (occupied r) c)) gridCells.

Definition randomFreeCell (r : Room) (w : World) : option Cell * World :=
  let free := freeCells r in
  match free with
  | [] => (None, w)
  | _ :: _ => let (i, w1) := draw (length free) w in (nth_error free i, w1)
  end.

Definition placeFood (r : Room) (w : World) : Room * World :=
  let (c, w1) := randomFreeCell r w in (withFood c r, w1).

(** ** Spawn placement *)

Record Spawn := mkSpawn { sp_snake : list Cell; sp_dir : Cell }.

Definition inGrid (c : Cell) : bool :=
  (0 <=? x c) && (0 <=? y c) && (x c <? GRID) && (y c <? GRID).

Definition presets : list (Cell * Cell) :=
  [ (cell 3 3, cell 1 0);
    (cell (GRID - 4) 3, cell (-1) 0);
    (cell 3 (GRID - 4), cell 1 0);
    (cell (GRID - 4) (GRID - 4), cell (-1) 0) ].

Definition trail (h d : Cell) : list Cell :=
  [ cell (x h - x d * 2) (y h - y d * 2);
    cell (x h - x d) (y h - y d);
    cell (x h) (y h) ].

Definition clearOfSnakes (r : Room) (c : Cell) : bool :=
  forallb (fun ip => negb (has (snake (snd ip)) c)) (players r).

Fixpoint spawnPreset (l : list (Cell * Cell)) (r : Room) : option Spawn :=
  match l with
  | [] => None
  | (h, d) :: l' =>
      let cells := trail h d in
      if forallb inGrid cells && forallb (clearOfSnakes r) cells
      then Some (mkSpawn cells d)
      else spawnPreset l' r
  end.

Definition headings : list Cell :=
  [cell 1 0; cell (-1) 0; cell 0 1; cell 0 (-1)].

Fixpoint spawnRandom (tries : nat) (r : Room) (w : World)
  : option Spawn * World :=
  match tries with
  | O => (None, w)
  | S n =>
      match randomFreeCell r w with
      | (None, w1) => (None, w1)
      | (Some h, w1) =>
          let (k, w2) := draw 4 w1 in
          let d := nth k headings (cell 1 0) in
          let cells := trail h d in
          if forallb inGrid cells then (Some (mkSpawn cells d), w2)
          else spawnRandom n r w2
      end
  end.

Definition worstCase : Spawn :=
  mkSpawn [cell 1 1; cell 2 1; cell 3 1] (cell 1 0).

Definition safeSpawn (r : Room) (w : World) : Spawn * World :=
  match spawnPreset presets r with
  | Some sp => (sp, w)
  | None =>
      match spawnRandom 300 r w with
      | (Some sp, w1) => (sp, w1)
      | (None, w1) => (worstCase, w1)
      end
  end.

(** ** Round start and end *)

Definition respawned (sp : Spawn) (p : Player) : Player :=
  mkPlayer (score p) true None (sp_snake sp) (sp_dir sp) (lastSeq p).

Definition resetPlayer (id : nat) (r : Room) (w : World) : Room * World :=
  let (sp, w1) := safeSpawn r w in
  (modPlayer id (fun p => mkPlayer 0 true None (sp_snake sp) (sp_dir sp)
                                   (lastSeq p)) r, w1).

Definition startRound (r : Room) (w : World) : Room * World :=
  if state_eqb (state r) running then (r, w)
  else
    let r1 := withState running r in
    let (t, w1) := now w in
    let r2 := withTimes (Some t) (Some (t + ROUND_MS)) r1 in
    let (r3, w3) := forEach resetPlayer (ids r2) r2 w1 in
    let (r4, w4) := placeFood r3 w3 in
    let w5 := broadcast r4 (MsgRoom (roomSnapshot r4)) w4 in
    let (h, w6) := setInterval w5 in
    (withHandle (Some h) r4, w6).

Definition endRound (r : Room) (w : World) : Room * World :=
  if negb (state_eqb (state r) running) then (r, w)
  else
    let r1 := withState ended r in
    let w1 := match tickHandle r1 with
              | Some h => clearInterval h w
              | None => w
              end in
    let r2 := withHandle None r1 in
    (r2, broadcast r2 (MsgEnded (roomSnapshot r2)) w1).

(** ** Death and respawn *)

Definition killPlayer (id : nat) (reason : Reason) (r : Room) (w : World)
  : Room * World :=
  match getPlayer id r with
  | None => (r, w)
  | Some p =>
      if negb (alive p) then (r, w)
      else
        let (t, w1) := now w in
        let r1 := modPlayer id (fun p => mkPlayer (score p) false
                                  (Some (t + 2000)) [] (dir p) (lastSeq p)) r in
        (r1, broadcast r1 (MsgDeath id reason (t + 2000)) w1)
  end.

Definition maybeRespawn (id : nat) (r : Room) (w : World) : Room * World :=
  match getPlayer id r with
  | None => (r, w)
  | Some p =>
      if alive p then (r, w)
      else
        match respawnAt p with
        | None => (r, w)
        | Some d =>
            if d =? 0 then (r, w)
            else
              let (t, w1) := now w in
              if t <? d then (r, w1)
              else
                let (sp, w2) := safeSpawn r w1 in
                let r1 := modPlayer id (respawned sp) r in
                (r1, broadcast r1 (MsgRespawn id (sp_snake sp) (sp_dir sp)) w2)
        end
  end.

(** ** Input application *)

Definition withDir (d : Cell) (p : Player) : Player :=
  mkPlayer (score p) (alive p) (respawnAt p) (snake p) d (lastSeq p).

Definition withLastSeq (n : Z) (p : Player) : Player :=
  mkPlayer (score p) (alive p) (respawnAt p) (snake p) (dir p) n.

Definition applyInput (p : Player) (inputDir : option Cell) : Player :=
  match inputDir with
  | None => p
  | Some d =>
      if (x d =? - x (dir p)) && (y d =? - y (dir p)) then p
      else withDir d p
  end.

Definition raiseSeq (s : Z) (p : Player) : Player :=
  if orZero (lastSeq p) <? s then withLastSeq s p else p.

(** The body of both input loops of [tick], for the player stored under
    [id]. *)
Definition applyLatest (i : list (nat * InputSample)) (id : nat)
           (p : Player) : Player :=
  if negb (alive p) then p
  else
    match mget id i with
    | None => p
    | Some inp => raiseSeq (inp_seq inp) (applyInput p (Some (inp_dir inp)))
    end.

Definition applyInputs (r : Room) : Room :=
  withPlayers
    (map (fun ip => (fst ip, applyLatest (inputs r) (fst ip) (snd ip)))
         (players r)) r.

(** ** The movement step *)

Record Move := mkMove { m_id : nat; m_x : Z; m_y : Z }.

(** The round of the first loop of [moveStep] for one entry of the map. *)
Definition headMove (ip : nat * Player) : list Move :=
  let p := snd ip in
  if negb (alive p) then []
  else
    match rev (snake p) with
    | [] => []
    | h :: _ => [mkMove (fst ip) (x h + x (dir p)) (y h + y (dir p))]
    end.

Definition nextHeads (r : Room) : list Move := flat_map headMove (players r).

Definition target (m : Move) : Cell := cell (m_x m) (m_y m).

Definition pushHead (c : Cell) (p : Player) : Player :=
  mkPlayer (score p) (alive p) (respawnAt p) (snake p ++ [c]) (dir p)
           (lastSeq p).

Definition addScore (n : Z) (p : Player) : Player :=
  mkPlayer (score p + n) (alive p) (respawnAt p) (snake p) (dir p)
           (lastSeq p).

Definition shiftTail (p : Player) : Player :=
  mkPlayer (score p) (alive p) (respawnAt p) (tl (snake p)) (dir p)
           (lastSeq p).

Definition isFood (r : Room) (m : Move) : bool :=
  match food r with
  | Some f => (m_x m =? x f) && (m_y m =? y f)
  | None => false
  end.

(** One round of the loop [for (const m of next)], against the occupancy
    set [occ] taken before the loop. *)
Definition resolveMove (occ : list Cell) (m : Move) (r : Room) (w : World)
  : Room * World :=
  if (m_x m <? 0) || (m_y m <? 0) || (GRID <=? m_x m) || (GRID <=? m_y m)
  then killPlayer (m_id m) wall r w
  else if has occ (cell (m_x m) (m_y m))
  then killPlayer (m_id m) body r w
  else
    let r1 := modPlayer (m_id m) (pushHead (cell (m_x m) (m_y m))) r in
    if isFood r1 m
    then placeFood (modPlayer (m_id m) (addScore 10) r1) w
    else (modPlayer (m_id m) shiftTail r1, w).

Fixpoint resolveAll (occ : list Cell) (l : list Move) (r : Room) (w : World)
  : Room * World :=
  match l with
  | [] => (r, w)
  | m :: l' => let (r1, w1) := resolveMove occ m r w in resolveAll occ l' r1 w1
  end.

Definition moveStep (r : Room) (w : World) : Room * World :=
  resolveAll (bodies r) (nextHeads r) r w.

(** ** The tick *)

(** The accumulator after [room.moveAcc += TICK_MS / 1000] and the clamp
    [Math.min(room.moveAcc, step * 2)]. *)
Definition accumulate (acc step : Q) : Q :=
  Qmin (acc + TICK_MS / 1000) (step * 2).

(** One round of the loop [while (room.moveAcc >= step)]. *)
Definition moveRound (step : Q) (s : Room * World) : Room * World :=
  let (r1, w1) := moveStep (applyInputs (fst s)) (snd s) in
  (withMoveAcc (moveAcc r1 - step) r1, w1).

(** The [while] loop, with an allowance of rounds: [None] when the
    allowance is used up with the condition still true. *)
Fixpoint moveLoop (fuel : nat) (step : Q) (s : Room * World)
  : option (Room * World) :=
  if Qle_bool step (moveAcc (fst s)) then
    match fuel with
    | O => None
    | S fuel' => moveLoop fuel' step (moveRound step s)
    end
  else Some s.

Definition stateSnapshot (t : Z) (r : Room) : StateSnapshot :=
  mkStateSnapshot t (endsAt r) (tickNo r) (cps r) (food r) (views r).

Definition roundOver (r : Room) (t : Z) : bool :=
  match endsAt r with
  | Some e => negb (e =? 0) && (e <=? t)
  | None => false
  end.

(** What a tick does before the movement loop, once the round is known not
    to be over. *)
Definition tickPrepare (r : Room) (w : World) : Room * World :=
  let (r2, w2) := forEach maybeRespawn (ids r) r w in
  let r3 := applyInputs r2 in
  (withMoveAcc (accumulate (moveAcc r3) (1 / cps r3)) r3, w2).

Definition tickFinish (t : Z) (s : Room * World) : Room * World :=
  (fst s, broadcast (fst s) (MsgState (stateSnapshot t (fst s))) (snd s)).

Definition tick (fuel : nat) (r : Room) (w : World) : option (Room * World) :=
  if negb (state_eqb (state r) running) then Some (r, w)
  else
    let r1 := withTickNo (tickNo r + 1) r in
    let (t, w1) := now w in
    if roundOver r1 t then Some (endRound r1 w1)
    else
      match moveLoop fuel (1 / cps r1) (tickPrepare r1 w1) with
      | Some s => Some (tickFinish t s)
      | None => None
      end.

(** ** Client messages *)

(** The [input] frame after [JSON.parse]: [m_dir] is [None] when [msg.dir]
    is missing or falsy, a component is [None] when it is not a number;
    [m_seq] is [None] when [msg.seq] is not a number. *)
Record InputMsg := mkInputMsg {
  m_dir : option (option Z * option Z);
  m_seq : option Z
}.

Definition clamp (v a b : Z) : Z := Z.max a (Z.min b v).

Definition newPlayer : Player := mkPlayer 0 true None [] (cell 1 0) 0.

Definition spawnInto (id : nat) (r : Room) (w : World) : Room * World :=
  let (sp, w1) := safeSpawn r w in
  (modPlayer id (fun p => mkPlayer (score p) (alive p) (respawnAt p)
                                   (sp_snake sp) (sp_dir sp) (lastSeq p)) r,
   w1).

Definition announce (id : nat) (s : Room * World) : Room * World :=
  let w1 := send id (MsgJoined (roomSnapshot (fst s)) id) (snd s) in
  (fst s, broadcast (fst s) (MsgPlayers (roomSnapshot (fst s))) w1).

(** The handler of [create], for the connection [id] and the fresh code
    [c]. *)
Definition onCreate (id : nat) (c : String.string) (w : World)
  : Room * World :=
  let (r, w1) := createRoom c w in
  let r1 := withPlayers (mset id newPlayer (players r)) r in
  let (r2, w2) := spawnInto id r1 w1 in
  announce id (placeFood r2 w2).

(** The handler of [join], once the room has been found. *)
Definition onJoin (id : nat) (r : Room) (w : World) : Room * World :=
  if (4 <=? length (players r))%nat then (r, send id MsgError w)
  else
    let r1 := withPlayers (mset id newPlayer (players r)) r in
    let (r2, w2) := spawnInto id r1 w in
    announce id (match food r2 with
                 | None => placeFood r2 w2
                 | Some _ => (r2, w2)
                 end).

(** [typeof msg.seq === 'number' ? msg.seq : 0] *)
Definition seqOf (msg : InputMsg) : Z :=
  match m_seq msg with Some s => s | None => 0 end.

(** The handler of [input], for a connection that has joined the room. *)
Definition onInput (id : nat) (msg : InputMsg) (r : Room) : Room :=
  match m_dir msg with
  | Some (Some dx, Some dy) =>
      let seq := seqOf msg in
      let r1 := withInputs
                  (mset id (mkInput (cell (clamp dx (-1) 1) (clamp dy (-1) 1))
                                    seq) (inputs r)) r in
      match getPlayer id r1 with
      | Some p => if orZero (lastSeq p) <? seq
                  then modPlayer id (withLastSeq seq) r1 else r1
      | None => r1
      end
  | _ => r
  end.

(** The handler of [close], for a connection that has joined the room. *)
Definition onClose (id : nat) (r : Room) (w : World) : Room * World :=
  let r1 := withPlayers (mdelete id (players r))
                        (withInputs (mdelete id (inputs r)) r) in
  if (length (players r1) =? 0)%nat
  then (r1, match tickHandle r1 with
            | Some h => clearInterval h w
            | None => w
            end)
  else (r1, broadcast r1 (MsgPlayers (roomSnapshot r1)) w).

(** ** Runs of one room *)

Inductive Event :=
| EJoin (id : nat)
| EStart
| EInput (id : nat) (msg : InputMsg)
| EClose (id : nat)
| ETick (fuel : nat).

Definition handle (e : Event) (s : Room * World) : option (Room * World) :=
  match e with
  | EJoin id => Some (onJoin id (fst s) (snd s))
  | EStart => Some (startRound (fst s) (snd s))
  | EInput id msg => Some (onInput id msg (fst s), snd s)
  | EClose id => Some (onClose id (fst s) (snd s))
  | ETick fuel => tick fuel (fst s) (snd s)
  end.

Fixpoint run (l : list Event) (s : Room * World) : option (Room * World) :=
  match l with
  | [] => Some s
  | e :: l' =>
      match handle e s with
      | Some s1 => run l' s1
      | None => None
      end
  end.

(** ** Auxiliary notions of the statements *)

(** Everything of a room but its players and its food. *)
Definition shell (r : Room) : Room := withPlayers [] (withFood None r).

(** The specification's reading of the accumulator update: the elapsed
    wall-clock seconds since the previous tick are added, then the clamp. *)
Definition spec_accumulate (acc elapsed step : Q) : Q :=
  Qmin (acc + elapsed) (step * 2).

(** ** Sample worlds and rooms *)

(** A world whose clock gives the readings [times] in turn (the last one
    ever after) and whose [n]-th random draw is [n]. *)
Definition sampleWorld (times : list Z) : World :=
  mkWorld (fun n => nth n times (last times 0)) 0 (fun n => n) 0 0 [] [].

(** One connection creates a room and starts the round. *)
Definition started (times : list Z) : Room * World :=
  let s := onCreate 1 String.EmptyString (sampleWorld times) in
  startRound (fst s) (snd s).

(** The only player of a started room, killed once. *)
Definition killedOnce : Room * World :=
  killPlayer 1 wall (fst (started [0; 1000])) (snd (started [0; 1000])).

(** A started room whose only player, heading left, has sent "right". *)
Definition reversing : Room :=
  onInput 1 (mkInputMsg (Some (Some 1, Some 0)) (Some 1))
          (fst (started [0; 1000])).

(** What the room state machine shows of a run. *)
Definition lifecycle (s : option (Room * World))
  : option (RoomState * option Z * option Z * option nat) :=
  match s with
  | Some (r, _) => Some (state r, startedAt r, endsAt r, tickHandle r)
  | None => None
  end.

(** A started room whose next ticks read the clock at 2000 and 3000. *)
Definition ticking : Room * World := started [0; 1000; 2000; 3000].

(** What a run shows of the movement: the timestamp of the last state
    frame, the accumulator in lowest terms, and the bodies. *)
Definition motion (s : option (Room * World))
  : option (option Z * Q * list (list Cell)) :=
  match s with
  | Some (r, w) =>
      Some (match last (outbox w) ([], MsgError) with
            | (_, MsgState f) => Some (t_now f)
            | _ => None
            end,
            Qred (moveAcc r),
            map (fun ip => snake (snd ip)) (players r))
  | None => None
  end.

(** The food, when there is one, is a grid cell that no body covers. *)
Definition foodClear (r : Room) : Prop :=
  match food r with
  | Some c => inGrid c = true /\
              forall ip, In ip (players r) -> ~ In c (snake (snd ip))
  | None => True
  end.

(** A started room whose only player, heading left from (16,3), finds the
    food on the next cell. *)
Definition feeding : Room :=
  withFood (Some (cell 15 3)) (fst (started [0; 1000])).

(** A room in the lobby, without players or food. *)
Definition emptyLobby : Room * World :=
  createRoom String.EmptyString (sampleWorld [0]).

(** A running room in which two players face each other across the vacant
    cell (6,5): both heads move into it in the next step. *)
Definition meeting : Room :=
  mkRoom String.EmptyString 0 running (Some 1000) (Some 121000) (Some 0%nat)
         (Some (cell 0 0)) 0 BASE_CPS 0
         [ (1%nat, mkPlayer 0 true None [cell 3 5; cell 4 5; cell 5 5]
                            (cell 1 0) 0);
           (2%nat, mkPlayer 0 true None [cell 9 5; cell 8 5; cell 7 5]
                            (cell (-1) 0) 0) ]
         [].

(** ** Relations and invariants of the statements *)

(** What [safeSpawn] promises of its result. *)
Definition spawnOK (sp : Spawn) : Prop :=
  Forall (fun c => inGrid c = true) (sp_snake sp) /\ In (sp_dir sp) headings.

(** [r'] has the players of [r], in the same order, each related to what it
    was by [R]. *)
Definition related (R : nat -> Player -> Player -> Prop) (r r' : Room)
  : Prop :=
  Forall2 (fun ip ip' => fst ip = fst ip' /\ R (fst ip) (snd ip) (snd ip'))
          (players r) (players r').

(** Every player satisfies [P] and every buffered direction [D]. *)
Definition holds (P : Player -> Prop) (D : Cell -> Prop) (r : Room) : Prop :=
  Forall (fun ip => P (snd ip)) (players r) /\
  Forall (fun ii => D (inp_dir (snd ii))) (inputs r).

(** The allowance of a tick covers the two rounds its loop can make. *)
Definition enoughFuel (e : Event) : Prop :=
  match e with
  | ETick fuel => (2 <= fuel)%nat
  | _ => True
  end.

(** A change of a player that keeps [P], as long as the buffered directions
    [i] satisfy [D]. *)
Definition keeps (P : Player -> Prop) (D : Cell -> Prop)
           (i : list (nat * InputSample)) (_ : nat) (p p' : Player) : Prop :=
  Forall (fun ii => D (inp_dir (snd ii))) i -> P p -> P p'.

(** A change of the player [id] that leaves its acknowledged sequence number
    as it is, or raises it to the sequence number buffered for it in [i]. *)
Definition raisedFrom (i : list (nat * InputSample)) (id : nat)
           (p p' : Player) : Prop :=
  lastSeq p' = lastSeq p \/
  (lastSeq p < lastSeq p' /\
   exists inp, mget id i = Some inp /\ inp_seq inp = lastSeq p').

(** Every cell of the player's body is on the grid. *)
Definition inBounds (p : Player) : Prop :=
  Forall (fun c => inGrid c = true) (snake p).


(** One of the four axis-aligned unit vectors. *)
Definition axisUnit (d : Cell) : Prop :=
  d = cell 1 0 \/ d = cell (-1) 0 \/ d = cell 0 1 \/ d = cell 0 (-1).

Definition inputOrTick (e : Event) : Prop :=
  match e with
  | EInput _ _ | ETick _ => True
  | _ => False
  end.

(** The players of [r] are still in [r'], none with a lower acknowledged
    sequence number. *)
Definition acknowledged (r r' : Room) : Prop :=
  forall id p, getPlayer id r = Some p ->
  exists p', getPlayer id r' = Some p' /\ lastSeq p <= lastSeq p'.


(** ** Further notions of the statements *)

(** The exact reverse of a direction. *)
Definition opposite (d : Cell) : Cell := cell (- x d) (- y d).

(** The [input] frame has a direction whose two components are numbers. *)
Definition hasDirection (msg : InputMsg) : bool :=
  match m_dir msg with
  | Some (Some _, Some _) => true
  | _ => false
  end.

(** All of a player but its acknowledged sequence number. *)
Definition sameBut_lastSeq (p p' : Player) : Prop :=
  score p' = score p /\ alive p' = alive p /\ respawnAt p' = respawnAt p /\
  snake p' = snake p /\ dir p' = dir p.

(** ** Room codes and the registry *)

Module Codes.
Import String.

Definition alphabet : String.string :=
  "ABCDEFGHJKLMNPQRSTUVWXYZ23456789"%string.

(** The characters that are easily mistaken for one another. *)
Definition ambiguous : String.string := "01OI"%string.

(** [s += alphabet[(Math.random() * alphabet.length) | 0]]; an index past
    the end would append the text of [undefined]. *)
Definition addLetter (s : String.string) (w : World)
  : String.string * World :=
  let (k, w1) := draw (String.length alphabet) w in
  (String.append s
     match String.get k alphabet with
     | Some a => String.String a String.EmptyString
     | None => "undefined"%string
     end, w1).

Fixpoint addLetters (n : nat) (s : String.string) (w : World)
  : String.string * World :=
  match n with
  | O => (s, w)
  | S n' => let (s1, w1) := addLetter s w in addLetters n' s1 w1
  end.

Definition makeCode (w : World) : String.string * World :=
  addLetters 5 String.EmptyString w.

(** The registry [rooms], a [Map] from code to room. *)
Definition Registry : Type := list (String.string * Room).

Definition roomsHas (c : String.string) (rooms : Registry) : bool :=
  List.existsb (fun kr => String.eqb c (fst kr)) rooms.

Fixpoint roomsGet (c : String.string) (rooms : Registry) : option Room :=
  match rooms with
  | [] => None
  | (k, r) :: rest => if String.eqb c k then Some r else roomsGet c rest
  end.

Fixpoint roomsSet (c : String.string) (r : Room) (rooms : Registry)
  : Registry :=
  match rooms with
  | [] => [(c, r)]
  | (k, r') :: rest =>
      if String.eqb c k then (c, r) :: rest else (k, r') :: roomsSet c r rest
  end.

Definition roomsDelete (c : String.string) (rooms : Registry) : Registry :=
  filter (fun kr => negb (String.eqb (fst kr) c)) rooms.

(** [do code = makeCode(); while (rooms.has(code))], with an allowance of
    attempts: [None] when every attempt of the allowance gave a code in
    use. *)
Fixpoint pickCode (fuel : nat) (rooms : Registry) (w : World)
  : option (String.string * World) :=
  match fuel with
  | O => None
  | S fuel' =>
      let (c, w1) := makeCode w in
      if roomsHas c rooms then pickCode fuel' rooms w1 else Some (c, w1)
  end.

(** The whole of [createRoom]: the code, the room, its registration. *)
Definition registerRoom (fuel : nat) (rooms : Registry) (w : World)
  : option (Room * Registry * World) :=
  match pickCode fuel rooms w with
  | None => None
  | Some (c, w1) =>
      let (r, w2) := createRoom c w1 in Some (r, roomsSet c r rooms, w2)
  end.
End Codes.

(** ** Further sample rooms *)

(** A lobby with four players, one on each corner preset. *)
Definition fullLobby : Room * World :=
  let s1 := onCreate 1 String.EmptyString (sampleWorld [0]) in
  let s2 := onJoin 2 (fst s1) (snd s1) in
  let s3 := onJoin 3 (fst s2) (snd s2) in
  onJoin 4 (fst s3) (snd s3).

(** The only player of a started room, killed at 1000, with the clock then
    reading 9000. *)
Definition killedLong : Room * World :=
  killPlayer 1 wall (fst (started [0; 1000; 1000; 9000]))
             (snd (started [0; 1000; 1000; 9000])).

(** ** Frames of the world and of the room *)

(** The timers of the world. *)
Definition timers (w : World) : nat * list nat := (nextHandle w, intervals w).

(** Everything of a room but its players, its food and its accumulator. *)
Definition frame (r : Room) : Room := withMoveAcc 0 (shell r).

(** At most one timer is armed, the one of the room's [tickHandle], and
    none unless the room is running. *)
Definition timerInv (s : Room * World) : Prop :=
  match state (fst s) with
  | running => exists h, tickHandle (fst s) = Some h /\
                         (intervals (snd s) = [h] \/ intervals (snd s) = [])
  | _ => tickHandle (fst s) = None /\ intervals (snd s) = []
  end.

(** A round started at 1000 whose next tick reads the clock at 200000. *)
Definition lateTick : Room * World := started [0; 1000; 200000; 200050].

(** What a movement step can make of a player: nothing; or kill it; or, if
    it is alive with a body, append a grid cell as new head and either add
    10 to the score or drop the tail. *)
Definition stepped (p p' : Player) : Prop :=
  p' = p \/
  (alive p = true /\
   exists t, p' = mkPlayer (score p) false (Some t) [] (dir p) (lastSeq p)) \/
  (alive p = true /\ snake p <> [] /\
   exists c, inGrid c = true /\
             (p' = addScore 10 (pushHead c p) \/
              p' = shiftTail (pushHead c p))).

(** The ids of the players are distinct and every player satisfies [P]. *)
Definition sound (P : Player -> Prop) (r : Room) : Prop :=
  NoDup (ids r) /\ Forall (fun ip => P (snd ip)) (players r).

(** A player has a body exactly when it is alive, and then of at least
    three cells. *)
Definition bodyMatchesLife (p : Player) : Prop :=
  (alive p = false -> snake p = []) /\
  (alive p = true -> (3 <= length (snake p))%nat).

(** The score is a non-negative multiple of 10. *)
Definition scoreInTens (p : Player) : Prop :=
  0 <= score p /\ exists n, score p = 10 * n.

(** The world [w] with every random draw equal to [k]. *)
Definition drawing (k : nat) (w : World) : World :=
  mkWorld (clock w) (clockReads w) (fun _ => k) (randomReads w)
          (nextHandle w) (intervals w) (outbox w).

(** The room of [killedLong] with the food on the middle cell of the first
    corner preset. *)
Definition foodOnPreset : Room :=
  withFood (Some (cell 2 3)) (fst killedLong).

(** * Properties *)

(** ** Maps *)

Section AssocMapFacts.
Variable V : Type.
Implicit Types (m : list (nat * V)) (k : nat).

Lemma mget_mupdate_same k f m :
  mget k (mupdate k f m) = option_map f (mget k m).
Proof.
  induction m as [|[k' v] m IH]; simpl; [reflexivity|].
  destruct (Nat.eqb k k') eqn:E; simpl; rewrite E; [reflexivity|exact IH].
Qed.

Lemma mget_mupdate_other k k' f m :
  k <> k' -> mget k (mupdate k' f m) = mget k m.
Proof.
  intros Hne. induction m as [|[j v] m IH]; simpl; [reflexivity|].
  destruct (Nat.eqb k' j) eqn:E; simpl.
  - apply Nat.eqb_eq in E. subst j.
    destruct (Nat.eqb k k') eqn:E'; [|reflexivity].
    apply Nat.eqb_eq in E'. contradiction.
  - destruct (Nat.eqb k j); [reflexivity|exact IH].
Qed.

Lemma keys_mupdate k f m : map fst (mupdate k f m) = map fst m.
Proof.
  induction m as [|[j v] m IH]; simpl; [reflexivity|].
  destruct (Nat.eqb k j); simpl; [reflexivity|now rewrite IH].
Qed.

Lemma mget_In k v m : mget k m = Some v -> In (k, v) m.
Proof.
  induction m as [|[j u] m IH]; simpl; [discriminate|].
  destruct (Nat.eqb k j) eqn:E.
  - apply Nat.eqb_eq in E. subst j. intros [= ->]. now left.
  - intros H. right. now apply IH.
Qed.

Lemma In_mget k v m :
  NoDup (map fst m) -> In (k, v) m -> mget k m = Some v.
Proof.
  induction m as [|[j u] m IH]; simpl; [contradiction|].
  intros Hnd [H|H].
  - injection H as -> ->. now rewrite Nat.eqb_refl.
  - inversion Hnd as [|? ? Hnotin Hnd']; subst.
    destruct (Nat.eqb k j) eqn:E.
    + apply Nat.eqb_eq in E. subst j. exfalso. apply Hnotin.
      now apply (in_map fst) in H.
    + now apply IH.
Qed.

(** What a reference write changes in the values, whatever the key. *)
Lemma Forall_mupdate (P : V -> Prop) k f m :
  (forall v, P v -> P (f v)) ->
  Forall (fun kv => P (snd kv)) m ->
  Forall (fun kv => P (snd kv)) (mupdate k f m).
Proof.
  intros Hf. induction 1 as [|[j v] m Hv Hm IH]; simpl; [constructor|].
  destruct (Nat.eqb k j); constructor; simpl in *; auto.
Qed.

Lemma Forall_mset (P : V -> Prop) k v m :
  P v ->
  Forall (fun kv => P (snd kv)) m ->
  Forall (fun kv => P (snd kv)) (mset k v m).
Proof.
  intros Hv. induction 1 as [|[j u] m Hu Hm IH]; simpl.
  - repeat constructor. exact Hv.
  - destruct (Nat.eqb k j); constructor; simpl in *; auto.
Qed.

Lemma Forall_mdelete (P : nat * V -> Prop) k m :
  Forall P m -> Forall P (mdelete k m).
Proof.
  intros H. unfold mdelete. rewrite Forall_forall in *.
  intros kv Hin. apply filter_In in Hin. now apply H.
Qed.
End AssocMapFacts.

(** ** What an operation leaves alone *)

Lemma getPlayer_modPlayer_same id f r :
  getPlayer id (modPlayer id f r) = option_map f (getPlayer id r).
Proof. apply mget_mupdate_same. Qed.

Lemma getPlayer_modPlayer_other id id' f r :
  id <> id' -> getPlayer id (modPlayer id' f r) = getPlayer id r.
Proof. apply mget_mupdate_other. Qed.

Lemma ids_modPlayer id f r : ids (modPlayer id f r) = ids r.
Proof. apply keys_mupdate. Qed.

Lemma placeFood_players r w : players (fst (placeFood r w)) = players r.
Proof. unfold placeFood. now destruct (randomFreeCell r w). Qed.

Lemma placeFood_shell r w : shell (fst (placeFood r w)) = shell r.
Proof. unfold placeFood. now destruct (randomFreeCell r w). Qed.

Lemma killPlayer_shell id reason r w :
  shell (fst (killPlayer id reason r w)) = shell r.
Proof.
  unfold killPlayer. destruct (getPlayer id r) as [p|]; [|reflexivity].
  now destruct (alive p).
Qed.

Lemma killPlayer_ids id reason r w :
  ids (fst (killPlayer id reason r w)) = ids r.
Proof.
  unfold killPlayer. destruct (getPlayer id r) as [p|]; [|reflexivity].
  destruct (alive p); simpl; [apply ids_modPlayer|reflexivity].
Qed.

Lemma maybeRespawn_shell id r w :
  shell (fst (maybeRespawn id r w)) = shell r.
Proof.
  unfold maybeRespawn. destruct (getPlayer id r) as [p|]; [|reflexivity].
  destruct (alive p); [reflexivity|].
  destruct (respawnAt p) as [d|]; [|reflexivity].
  destruct (d =? 0); [reflexivity|]. simpl.
  destruct (_ <? d); [reflexivity|].
  now destruct (safeSpawn r _).
Qed.

Lemma resetPlayer_shell id r w :
  shell (fst (resetPlayer id r w)) = shell r.
Proof. unfold resetPlayer. now destruct (safeSpawn r w). Qed.

Lemma forEach_shell f l :
  (forall id r w, shell (fst (f id r w)) = shell r) ->
  forall r w, shell (fst (forEach f l r w)) = shell r.
Proof.
  intros Hf. induction l as [|i l IH]; intros r w; simpl; [reflexivity|].
  specialize (Hf i r w). destruct (f i r w) as [r1 w1].
  rewrite IH. exact Hf.
Qed.

Lemma applyInputs_shell r : shell (applyInputs r) = shell r.
Proof. reflexivity. Qed.

Lemma resolveMove_shell occ m r w :
  shell (fst (resolveMove occ m r w)) = shell r.
Proof.
  unfold resolveMove.
  destruct (_ || _); [apply killPlayer_shell|].
  destruct (has occ _); [apply killPlayer_shell|].
  destruct (isFood _ m); [|reflexivity].
  now rewrite placeFood_shell.
Qed.

Lemma resolveAll_shell occ l :
  forall r w, shell (fst (resolveAll occ l r w)) = shell r.
Proof.
  induction l as [|m l IH]; intros r w; simpl; [reflexivity|].
  pose proof (resolveMove_shell occ m r w) as H.
  destruct (resolveMove occ m r w) as [r1 w1].
  rewrite IH. exact H.
Qed.

Lemma moveStep_shell r w : shell (fst (moveStep r w)) = shell r.
Proof. apply resolveAll_shell. Qed.

Lemma shell_state r r' : shell r' = shell r -> state r' = state r.
Proof. intros H. exact (f_equal state H). Qed.

Lemma shell_times r r' :
  shell r' = shell r -> startedAt r' = startedAt r /\ endsAt r' = endsAt r.
Proof.
  intros H. split; [exact (f_equal startedAt H)|exact (f_equal endsAt H)].
Qed.

Lemma shell_cps r r' : shell r' = shell r -> cps r' = cps r.
Proof. intros H. exact (f_equal cps H). Qed.

Lemma shell_moveAcc r r' : shell r' = shell r -> moveAcc r' = moveAcc r.
Proof. intros H. exact (f_equal moveAcc H). Qed.

Lemma shell_inputs r r' : shell r' = shell r -> inputs r' = inputs r.
Proof. intros H. exact (f_equal inputs H). Qed.

Lemma mget_map_values (V : Type) (g : nat -> V -> V) k (m : list (nat * V)) :
  mget k (map (fun kv => (fst kv, g (fst kv) (snd kv))) m)
  = option_map (g k) (mget k m).
Proof.
  induction m as [|[j v] m IH]; simpl; [reflexivity|].
  destruct (Nat.eqb k j) eqn:E; [|exact IH].
  apply Nat.eqb_eq in E. now subst j.
Qed.

Lemma getPlayer_applyInputs id r :
  getPlayer id (applyInputs r)
  = option_map (applyLatest (inputs r) id) (getPlayer id r).
Proof. apply mget_map_values. Qed.

(** ** Killing a player *)

(** C10. Killing is idempotent: on a player who is not alive [killPlayer]
    returns the room and the world as they were (no new respawn deadline,
    no death frame, not even a clock reading), so that a second kill after
    a first one changes nothing and sends nothing. *)
Theorem killPlayer_idempotent id reason reason' r w p :
  getPlayer id r = Some p ->
  (alive p = false -> killPlayer id reason r w = (r, w)) /\
  killPlayer id reason' (fst (killPlayer id reason r w))
                        (snd (killPlayer id reason r w))
  = killPlayer id reason r w.
Proof.
  intros Hp. split.
  - intros Hdead. unfold killPlayer. now rewrite Hp, Hdead.
  - unfold killPlayer at 2 3 4. rewrite Hp.
    destruct (alive p) eqn:Ha; simpl.
    + unfold killPlayer. rewrite getPlayer_modPlayer_same, Hp. reflexivity.
    + unfold killPlayer. now rewrite Hp, Ha.
Qed.

Lemma killPlayer_idempotent_witness :
  killPlayer 1 body (fst killedOnce) (snd killedOnce)
  = (fst killedOnce, snd killedOnce).
Proof.
  assert (Hp : getPlayer 1 (fst killedOnce)
               = Some (mkPlayer 0 false (Some 3000) [] (cell (-1) 0) 0))
    by (vm_compute; reflexivity).
  exact (proj1 (killPlayer_idempotent 1 body body (fst killedOnce)
                  (snd killedOnce) Hp) eq_refl).
Defined.

(** ** Reversal rejection *)

Lemma applyInput_reverse p d :
  x d = - x (dir p) -> y d = - y (dir p) -> applyInput p (Some d) = p.
Proof.
  intros Hx Hy. unfold applyInput.
  now rewrite Hx, Hy, !Z.eqb_refl.
Qed.

Lemma raiseSeq_dir s p : dir (raiseSeq s p) = dir p.
Proof. unfold raiseSeq. now destruct (_ <? s). Qed.

(** C8. A buffered direction that is the component-wise negation of the
    player's current direction is not applied: [applyInput] returns the
    player unchanged, and after the input loop of the tick the player still
    has the direction it had. *)
Theorem reverse_direction_never_applied r id p inp :
  getPlayer id r = Some p ->
  mget id (inputs r) = Some inp ->
  x (inp_dir inp) = - x (dir p) ->
  y (inp_dir inp) = - y (dir p) ->
  applyInput p (Some (inp_dir inp)) = p /\
  exists p', getPlayer id (applyInputs r) = Some p' /\ dir p' = dir p.
Proof.
  intros Hp Hi Hx Hy. split; [now apply applyInput_reverse|].
  rewrite getPlayer_applyInputs, Hp. simpl. eexists. split; [reflexivity|].
  unfold applyLatest. destruct (negb (alive p)); [reflexivity|].
  rewrite Hi, raiseSeq_dir. now rewrite applyInput_reverse.
Qed.

Lemma reverse_direction_never_applied_witness :
  exists p', getPlayer 1 (applyInputs reversing) = Some p' /\
             dir p' = dir (mkPlayer 0 true None
                                    [cell 18 3; cell 17 3; cell 16 3]
                                    (cell (-1) 0) 1).
Proof.
  assert (Hp : getPlayer 1 reversing
               = Some (mkPlayer 0 true None
                                [cell 18 3; cell 17 3; cell 16 3]
                                (cell (-1) 0) 1))
    by (vm_compute; reflexivity).
  assert (Hi : mget 1 (inputs reversing) = Some (mkInput (cell 1 0) 1))
    by (vm_compute; reflexivity).
  exact (proj2 (reverse_direction_never_applied reversing 1 Hp Hi
                  eq_refl eq_refl)).
Defined.

(** ** The room state machine *)

Lemma startRound_lifecycle r w :
  state r <> running ->
  state (fst (startRound r w)) = running /\
  startedAt (fst (startRound r w)) = Some (clock w (clockReads w)) /\
  endsAt (fst (startRound r w)) = Some (clock w (clockReads w) + ROUND_MS) /\
  exists h, tickHandle (fst (startRound r w)) = Some h /\
            In h (intervals (snd (startRound r w))).
Proof.
  intros Hs. unfold startRound.
  replace (state_eqb (state r) running) with false
    by (destruct (state r); try reflexivity; contradiction).
  unfold now.
  set (r2 := withTimes _ _ _). set (w1 := mkWorld _ _ _ _ _ _ _).
  pose proof (forEach_shell resetPlayer (ids r2) resetPlayer_shell r2 w1) as H3.
  destruct (forEach resetPlayer (ids r2) r2 w1) as [r3 w3].
  pose proof (placeFood_shell r3 w3) as H4.
  destruct (placeFood r3 w3) as [r4 w4]. simpl in *.
  assert (H : shell r4 = shell r2) by congruence.
  repeat split.
  - exact (shell_state H).
  - exact (proj1 (shell_times H)).
  - exact (proj2 (shell_times H)).
  - eexists. split; [reflexivity|]. now left.
Qed.

(** C1, as the code has it.  On a room that has ended, a tick and
    [endRound] change nothing and send nothing; a start request, however,
    puts the room back in state running, records a new startedAt and
    endsAt = startedAt + 120000, and arms a new tick timer: [startRound]
    only refuses a room that is running. *)
Theorem ended_room_restarts_on_start r w :
  state r = ended ->
  (forall fuel, tick fuel r w = Some (r, w)) /\
  endRound r w = (r, w) /\
  state (fst (startRound r w)) = running /\
  startedAt (fst (startRound r w)) = Some (clock w (clockReads w)) /\
  endsAt (fst (startRound r w)) = Some (clock w (clockReads w) + ROUND_MS) /\
  exists h, tickHandle (fst (startRound r w)) = Some h /\
            In h (intervals (snd (startRound r w))).
Proof.
  intros Hs. split; [|split].
  - intros fuel. unfold tick. now rewrite Hs.
  - unfold endRound. now rewrite Hs.
  - apply startRound_lifecycle. rewrite Hs. discriminate.
Qed.

Lemma ended_room_restarts_on_start_witness :
  state (fst (startRound (withState ended (fst (started [0; 1000])))
                         (snd (started [0; 1000])))) = running.
Proof.
  exact (proj1 (proj2 (proj2
    (ended_room_restarts_on_start (withState ended (fst (started [0; 1000])))
                                  (snd (started [0; 1000])) eq_refl)))).
Defined.

(** C1 fails as stated: a round is started at 1000 and ends at the tick of
    200000; the room is then ended, with no timer.  The start request that
    follows puts it back in state running, with startedAt = 200050,
    endsAt = 320050 and a new timer. *)
Lemma ended_room_started_again :
  lifecycle (run [ETick 2] (started [0; 1000; 200000; 200050]))
  = Some (ended, Some 1000, Some 121000, None) /\
  lifecycle (run [ETick 2; EStart] (started [0; 1000; 200000; 200050]))
  = Some (running, Some 200050, Some 320050, Some 1%nat).
Proof. split; vm_compute; reflexivity. Qed.

(** ** The movement accumulator *)

Lemma moveRound_moveAcc step s :
  moveAcc (fst (moveRound step s)) = (moveAcc (fst s) - step)%Q.
Proof.
  unfold moveRound.
  pose proof (moveStep_shell (applyInputs (fst s)) (snd s)) as H.
  destruct (moveStep (applyInputs (fst s)) (snd s)) as [r1 w1]. simpl in *.
  now rewrite (shell_moveAcc H).
Qed.

Lemma moveLoop_done fuel step s :
  Qle_bool step (moveAcc (fst s)) = false -> moveLoop fuel step s = Some s.
Proof. intros H. destruct fuel; simpl; now rewrite H. Qed.

Lemma Qle_bool_false a b : Qle_bool a b = false <-> (b < a)%Q.
Proof.
  split; intros H.
  - apply Qnot_le_lt. intros Hle. apply Qle_bool_iff in Hle. congruence.
  - destruct (Qle_bool a b) eqn:E; [|reflexivity].
    apply Qle_bool_iff in E. exfalso. exact (Qlt_not_le _ _ H E).
Qed.

(** After the clamp the loop makes at most two rounds, and it ends. *)
Lemma moveLoop_at_most_two fuel step s :
  (0 < step)%Q -> (moveAcc (fst s) <= step * 2)%Q -> (2 <= fuel)%nat ->
  exists k, (k <= 2)%nat /\
    moveLoop fuel step s = Some (Nat.iter k (moveRound step) s) /\
    (moveAcc (fst (Nat.iter k (moveRound step) s)) < step)%Q.
Proof.
  intros Hstep Hacc Hfuel.
  destruct fuel as [|[|fuel]]; [lia|lia|].
  destruct (Qle_bool step (moveAcc (fst s))) eqn:E0.
  - pose proof (moveRound_moveAcc step s) as H1.
    apply Qle_bool_iff in E0.
    destruct (Qle_bool step (moveAcc (fst (moveRound step s)))) eqn:E1.
    + pose proof (moveRound_moveAcc step (moveRound step s)) as H2.
      apply Qle_bool_iff in E1.
      assert (Hlt : (moveAcc (fst (moveRound step (moveRound step s)))
                     < step)%Q).
      { rewrite H2, H1. lra. }
      exists 2%nat. split; [lia|]. split; [|exact Hlt].
      simpl. apply Qle_bool_iff in E0.
      rewrite E0. apply Qle_bool_iff in E1. rewrite E1.
      apply moveLoop_done. now apply Qle_bool_false.
    + exists 1%nat. split; [lia|]. split.
      * simpl. apply Qle_bool_iff in E0. now rewrite E0, E1.
      * now apply Qle_bool_false.
  - exists 0%nat. split; [lia|]. split.
    + simpl. now rewrite E0.
    + now apply Qle_bool_false.
Qed.

Lemma tickPrepare_moveAcc r w :
  moveAcc (fst (tickPrepare r w)) = accumulate (moveAcc r) (1 / cps r).
Proof.
  unfold tickPrepare.
  pose proof (forEach_shell maybeRespawn (ids r) maybeRespawn_shell r w) as H.
  destruct (forEach maybeRespawn (ids r) r w) as [r2 w2]. simpl in *.
  now rewrite (shell_moveAcc H), (shell_cps H).
Qed.

Lemma tick_running fuel r w :
  state r = running ->
  roundOver r (clock w (clockReads w)) = false ->
  tick fuel r w
  = match moveLoop fuel (1 / cps r)
            (tickPrepare (withTickNo (tickNo r + 1) r) (snd (now w))) with
    | Some s => Some (tickFinish (fst (now w)) s)
    | None => None
    end.
Proof.
  intros Hs Hover. unfold tick. rewrite Hs. simpl negb. cbv iota.
  unfold now. cbv beta iota. simpl fst. simpl snd.
  change (roundOver (withTickNo (tickNo r + 1) r) (clock w (clockReads w)))
    with (roundOver r (clock w (clockReads w))).
  rewrite Hover. reflexivity.
Qed.

(** C2, as the code has it.  On a tick of a running room whose round is not
    over, the accumulator is increased by the fixed quantum
    TICK_MS / 1000 = 1/20 s, whatever the clock says, and clamped to two
    step durations; the movement loop then ends after at most two rounds,
    each one movement step that takes one step duration off the
    accumulator, and leaves less than one step duration. *)
Theorem tick_accumulates_fixed_quantum fuel r w :
  state r = running ->
  roundOver r (clock w (clockReads w)) = false ->
  (0 < cps r)%Q ->
  (2 <= fuel)%nat ->
  let t := fst (now w) in
  let s0 := tickPrepare (withTickNo (tickNo r + 1) r) (snd (now w)) in
  (moveAcc (fst s0) == Qmin (moveAcc r + (1 # 20)) (2 / cps r))%Q /\
  exists k, (k <= 2)%nat /\
    tick fuel r w
    = Some (tickFinish t (Nat.iter k (moveRound (1 / cps r)) s0)) /\
    (moveAcc (fst (Nat.iter k (moveRound (1 / cps r)) s0)) < 1 / cps r)%Q.
Proof.
  intros Hs Hover Hcps Hfuel t s0.
  assert (Hstep : (0 < 1 / cps r)%Q).
  { unfold Qdiv. rewrite Qmult_1_l. now apply Qinv_lt_0_compat. }
  assert (Hacc : moveAcc (fst s0) = accumulate (moveAcc r) (1 / cps r)).
  { unfold s0. now rewrite tickPrepare_moveAcc. }
  split.
  - rewrite Hacc. unfold accumulate.
    assert (E1 : (TICK_MS / 1000 == 1 # 20)%Q) by reflexivity.
    assert (E2 : (1 / cps r * 2 == 2 / cps r)%Q) by (field; lra).
    now rewrite E1, E2.
  - assert (Hclamp : (moveAcc (fst s0) <= 1 / cps r * 2)%Q).
    { rewrite Hacc. unfold accumulate. apply Q.le_min_r. }
    destruct (moveLoop_at_most_two s0 Hstep Hclamp Hfuel)
      as (k & Hk & Hloop & Hlt).
    exists k. split; [exact Hk|]. split; [|exact Hlt].
    rewrite (tick_running fuel r w Hs Hover). fold s0. now rewrite Hloop.
Qed.

Lemma tick_accumulates_fixed_quantum_witness :
  (moveAcc (fst (tickPrepare (withTickNo (tickNo (fst ticking) + 1)
                                         (fst ticking))
                             (snd (now (snd ticking)))))
   == Qmin (moveAcc (fst ticking) + (1 # 20)) (2 / cps (fst ticking)))%Q.
Proof.
  assert (Hs : state (fst ticking) = running) by (vm_compute; reflexivity).
  assert (Ho : roundOver (fst ticking)
                 (clock (snd ticking) (clockReads (snd ticking))) = false)
    by (vm_compute; reflexivity).
  assert (Hc : (0 < cps (fst ticking))%Q) by (vm_compute; reflexivity).
  exact (proj1 (tick_accumulates_fixed_quantum (fuel := 2) (fst ticking)
                  (snd ticking) Hs Ho Hc (le_n 2))).
Defined.

(** C2 fails as stated: two ticks of a running room read the clock at 2000
    and at 3000, one second apart.  The second tick raises the accumulator
    from 1/20 to 1/10 and moves no body, where adding the elapsed second
    and clamping would give 4/15, two step durations of 2/15, and so two
    movement steps. *)
Lemma accumulator_ignores_elapsed_time :
  motion (run [ETick 2] ticking)
  = Some (Some 2000, 1 # 20, [[cell 18 3; cell 17 3; cell 16 3]]) /\
  motion (run [ETick 2; ETick 2] ticking)
  = Some (Some 3000, 1 # 10, [[cell 18 3; cell 17 3; cell 16 3]]) /\
  Qred (accumulate (1 # 20) (1 / BASE_CPS)) = 1 # 10 /\
  Qred (spec_accumulate (1 # 20) ((3000 - 2000) / 1000) (1 / BASE_CPS))
  = 4 # 15 /\
  Qle_bool (1 / BASE_CPS) (4 # 15) = true.
Proof. repeat split; vm_compute; reflexivity. Qed.

(** ** Food placement *)

Lemma cell_eqb_eq a b : cell_eqb a b = true <-> a = b.
Proof.
  unfold cell_eqb. rewrite andb_true_iff, !Z.eqb_eq.
  destruct a, b; simpl. split; [intros [-> ->]; reflexivity|].
  intros [= -> ->]. now split.
Qed.

Lemma has_In s c : has s c = true <-> In c s.
Proof.
  unfold has. rewrite existsb_exists. split.
  - intros (d & Hd & E). apply cell_eqb_eq in E. now subst.
  - intros H. exists c. split; [exact H|now apply cell_eqb_eq].
Qed.

Lemma has_false s c : has s c = false <-> ~ In c s.
Proof.
  rewrite <- has_In. destruct (has s c); split; congruence.
Qed.

Lemma In_upto n z : In z (upto n) <-> 0 <= z < n.
Proof.
  unfold upto. rewrite in_map_iff. split.
  - intros (k & <- & Hk). apply List.in_seq in Hk. lia.
  - intros H. exists (Z.to_nat z). split; [lia|]. apply List.in_seq. lia.
Qed.

Lemma In_gridCells c : In c gridCells <-> inGrid c = true.
Proof.
  unfold gridCells, inGrid. rewrite in_flat_map.
  rewrite !andb_true_iff, !Z.leb_le, !Z.ltb_lt. split.
  - intros (cy & Hy & Hc). apply in_map_iff in Hc as (cx & <- & Hx).
    apply In_upto in Hx, Hy. simpl. lia.
  - intros H. exists (y c). split; [apply In_upto; lia|].
    apply in_map_iff. exists (x c). split; [now destruct c|].
    apply In_upto. lia.
Qed.

Lemma In_bodies c r :
  In c (bodies r) <-> exists ip, In ip (players r) /\ In c (snake (snd ip)).
Proof. unfold bodies. apply in_flat_map. Qed.

Lemma randomFreeCell_spec r w :
  match fst (randomFreeCell r w) with
  | Some c => In c (freeCells r)
  | None => freeCells r = []
  end.
Proof.
  unfold randomFreeCell. destruct (freeCells r) as [|c0 l] eqn:E;
    [reflexivity|].
  unfold draw. cbv beta iota. unfold fst at 1.
  set (i := (_ mod _)%nat).
  assert (Hi : (i < length (c0 :: l))%nat)
    by (apply Nat.mod_upper_bound; discriminate).
  destruct (nth_error (c0 :: l) i) as [c|] eqn:En.
  - now apply nth_error_In in En.
  - apply nth_error_None in En. lia.
Qed.

Lemma In_freeCells c r :
  In c (freeCells r) <->
  inGrid c = true /\ ~ In c (bodies r) /\ food r <> Some c.
Proof.
  unfold freeCells. rewrite filter_In, In_gridCells, negb_true_iff, has_false.
  unfold occupied. rewrite in_app_iff.
  destruct (food r) as [f|]; simpl; split.
  - intros [Hg Hn]. repeat split; auto. intros [= ->]. tauto.
  - intros (Hg & Hb & Hf). split; [exact Hg|].
    intros [H|[->|[]]]; [tauto|congruence].
  - intros [Hg Hn]. repeat split; auto. discriminate.
  - intros (Hg & Hb & _). split; [exact Hg|tauto].
Qed.

Lemma placeFood_spec r w :
  players (fst (placeFood r w)) = players r /\
  match food (fst (placeFood r w)) with
  | Some c => In c (freeCells r)
  | None => freeCells r = []
  end.
Proof.
  split; [apply placeFood_players|].
  pose proof (randomFreeCell_spec r w) as H. unfold placeFood.
  now destruct (randomFreeCell r w) as [c w1].
Qed.

Lemma placeFood_foodClear r w : foodClear (fst (placeFood r w)).
Proof.
  destruct (placeFood_spec r w) as [Hp Hf]. unfold foodClear.
  destruct (food (fst (placeFood r w))) as [c|]; [|exact I].
  apply In_freeCells in Hf as (Hg & Hb & _). split; [exact Hg|].
  intros ip Hin Hc. apply Hb. apply In_bodies. exists ip.
  rewrite Hp in Hin. now split.
Qed.

Lemma spawnInto_food id r w : food (fst (spawnInto id r w)) = food r.
Proof. unfold spawnInto. now destruct (safeSpawn r w). Qed.

Lemma announce_fst id s : fst (announce id s) = fst s.
Proof. reflexivity. Qed.

(** C5. Whenever food is placed, the chosen cell is a grid cell that no
    body covers at that moment (nor is it the cell of the food that was
    there), and the food is absent exactly when every grid cell is covered
    by a body or by the previous food.  This holds of [placeFood] itself and
    so of each place that calls it: the round start, the creation of the
    room, a join that finds no food, and a step that eats the food. *)
Theorem food_placed_on_free_cell r w :
  (players (fst (placeFood r w)) = players r /\
   foodClear (fst (placeFood r w)) /\
   (food (fst (placeFood r w)) = None <->
    forall c, inGrid c = true -> In c (occupied r))) /\
  (state r <> running -> foodClear (fst (startRound r w))) /\
  (forall id c, foodClear (fst (onCreate id c w))) /\
  (forall id, food r = None -> foodClear (fst (onJoin id r w))) /\
  (forall occ m,
      (m_x m <? 0) || (m_y m <? 0) || (GRID <=? m_x m) || (GRID <=? m_y m)
      = false ->
      has occ (cell (m_x m) (m_y m)) = false ->
      isFood r m = true ->
      foodClear (fst (resolveMove occ m r w))).
Proof.
  split; [|split; [|split; [|split]]].
  - split; [apply placeFood_players|]. split; [apply placeFood_foodClear|].
    destruct (placeFood_spec r w) as [_ Hf].
    destruct (food (fst (placeFood r w))) as [c|].
    + split; [discriminate|]. intros Hall. exfalso.
      apply In_freeCells in Hf as (Hg & Hb & Hfd).
      specialize (Hall c Hg). unfold occupied in Hall.
      apply in_app_iff in Hall as [H|H]; [tauto|].
      destruct (food r); simpl in H; [|contradiction].
      destruct H as [->|[]]. congruence.
    + split; [|reflexivity]. intros _ c Hg.
      destruct (in_dec (fun a b : Cell =>
                          ltac:(decide equality; apply Z.eq_dec))
                       c (occupied r)) as [H|H]; [exact H|].
      exfalso. assert (Hin : In c (freeCells r)).
      { unfold freeCells. apply filter_In. split; [now apply In_gridCells|].
        apply negb_true_iff. now apply has_false. }
      rewrite Hf in Hin. contradiction.
  - intros Hs. unfold startRound.
    replace (state_eqb (state r) running) with false
      by (destruct (state r); try reflexivity; contradiction).
    unfold now. cbv beta iota.
    destruct (forEach resetPlayer _ _ _) as [r3 w3].
    pose proof (placeFood_foodClear r3 w3) as H.
    destruct (placeFood r3 w3) as [r4 w4]. exact H.
  - intros id c. unfold onCreate.
    destruct (createRoom c w) as [r0 w0].
    destruct (spawnInto id _ w0) as [r2 w2].
    rewrite announce_fst. apply placeFood_foodClear.
  - intros id Hnone. unfold onJoin.
    destruct (4 <=? length (players r))%nat.
    + unfold foodClear. simpl. now rewrite Hnone.
    + pose proof (spawnInto_food id
                    (withPlayers (mset id newPlayer (players r)) r) w) as E.
      destruct (spawnInto id _ w) as [r2 w2].
      rewrite announce_fst. simpl in E. rewrite Hnone in E. rewrite E.
      apply placeFood_foodClear.
  - intros occ m Hin Hocc Hfood. unfold resolveMove.
    rewrite Hin, Hocc.
    change (isFood (modPlayer (m_id m) (pushHead (cell (m_x m) (m_y m))) r) m)
      with (isFood r m).
    rewrite Hfood. apply placeFood_foodClear.
Qed.

Lemma food_placed_on_free_cell_witness :
  foodClear (fst (startRound (fst emptyLobby) (snd emptyLobby))) /\
  foodClear (fst (onJoin 2 (fst emptyLobby) (snd emptyLobby))) /\
  foodClear (fst (resolveMove (bodies feeding) (mkMove 1 15 3) feeding
                              (snd emptyLobby))).
Proof.
  assert (Hs : state (fst emptyLobby) <> running)
    by (vm_compute; discriminate).
  assert (Hn : food (fst emptyLobby) = None) by (vm_compute; reflexivity).
  assert (Hw : (m_x (mkMove 1 15 3) <? 0) || (m_y (mkMove 1 15 3) <? 0)
               || (GRID <=? m_x (mkMove 1 15 3))
               || (GRID <=? m_y (mkMove 1 15 3)) = false)
    by (vm_compute; reflexivity).
  assert (Ho : has (bodies feeding)
                   (cell (m_x (mkMove 1 15 3)) (m_y (mkMove 1 15 3))) = false)
    by (vm_compute; reflexivity).
  assert (Hf : isFood feeding (mkMove 1 15 3) = true)
    by (vm_compute; reflexivity).
  destruct (food_placed_on_free_cell (fst emptyLobby) (snd emptyLobby))
    as (_ & Hstart & _ & Hjoin & _).
  destruct (food_placed_on_free_cell feeding (snd emptyLobby))
    as (_ & _ & _ & _ & Heat).
  split; [exact (Hstart Hs)|split].
  - exact (Hjoin 2%nat Hn).
  - exact (Heat (bodies feeding) (mkMove 1 15 3) Hw Ho Hf).
Defined.

(** ** The movement step *)

Lemma killPlayer_other id id' reason r w :
  id <> id' ->
  getPlayer id (fst (killPlayer id' reason r w)) = getPlayer id r.
Proof.
  intros Hne. unfold killPlayer.
  destruct (getPlayer id' r) as [p|]; [|reflexivity].
  destruct (alive p); simpl; [|reflexivity].
  now apply getPlayer_modPlayer_other.
Qed.

Lemma getPlayer_placeFood id r w :
  getPlayer id (fst (placeFood r w)) = getPlayer id r.
Proof. unfold getPlayer. now rewrite placeFood_players. Qed.

Lemma resolveMove_other occ m id r w :
  id <> m_id m ->
  getPlayer id (fst (resolveMove occ m r w)) = getPlayer id r.
Proof.
  intros Hne. unfold resolveMove.
  destruct (_ || _); [now apply killPlayer_other|].
  destruct (has occ _); [now apply killPlayer_other|].
  destruct (isFood _ m); simpl.
  - rewrite getPlayer_placeFood.
    now rewrite !getPlayer_modPlayer_other.
  - now rewrite !getPlayer_modPlayer_other.
Qed.

Lemma resolveAll_other occ l id :
  (forall m, In m l -> m_id m <> id) ->
  forall r w, getPlayer id (fst (resolveAll occ l r w)) = getPlayer id r.
Proof.
  induction l as [|m l IH]; intros Hl r w; simpl; [reflexivity|].
  pose proof (@resolveMove_other occ m id r w) as H.
  destruct (resolveMove occ m r w) as [r1 w1]. simpl in H.
  rewrite IH by (intros m' Hm'; apply Hl; now right).
  apply H. intros E. apply (Hl m); [now left|congruence].
Qed.

Lemma resolveAll_app occ l1 l2 r w :
  resolveAll occ (l1 ++ l2) r w
  = resolveAll occ l2 (fst (resolveAll occ l1 r w))
                      (snd (resolveAll occ l1 r w)).
Proof.
  revert r w. induction l1 as [|m l1 IH]; intros r w; simpl; [reflexivity|].
  destruct (resolveMove occ m r w) as [r1 w1]. apply IH.
Qed.

Lemma In_headMove m ip :
  In m (headMove ip) ->
  m_id m = fst ip /\ alive (snd ip) = true /\
  exists s h, snake (snd ip) = s ++ [h] /\
              m_x m = x h + x (dir (snd ip)) /\
              m_y m = y h + y (dir (snd ip)).
Proof.
  unfold headMove. destruct (alive (snd ip)); simpl; [|contradiction].
  destruct (rev (snake (snd ip))) as [|h l] eqn:E; simpl; [contradiction|].
  intros [<-|[]]. simpl. repeat split.
  exists (rev l), h. split; [|now split].
  rewrite <- (rev_involutive (snake (snd ip))), E. reflexivity.
Qed.

Lemma In_nextHeads m r :
  In m (nextHeads r) ->
  exists p, In (m_id m, p) (players r) /\ alive p = true /\
    exists s h, snake p = s ++ [h] /\
                m_x m = x h + x (dir p) /\ m_y m = y h + y (dir p).
Proof.
  unfold nextHeads. rewrite in_flat_map. intros ([id p] & Hin & Hm).
  apply In_headMove in Hm as (Hid & Ha & Hs). simpl in *.
  exists p. rewrite Hid. now repeat split.
Qed.

Lemma NoDup_moves (ps : list (nat * Player)) :
  NoDup (map fst ps) -> NoDup (map m_id (flat_map headMove ps)).
Proof.
  induction ps as [|ip ps IH]; simpl; intros Hnd; [constructor|].
  inversion Hnd as [|? ? Hnotin Hnd']; subst.
  rewrite map_app.
  assert (Hsub : forall k, In k (map m_id (flat_map headMove ps)) ->
                           In k (map fst ps)).
  { intros k Hk. apply in_map_iff in Hk as (m & <- & Hm).
    apply in_flat_map in Hm as (jp & Hjp & Hm).
    apply In_headMove in Hm as (-> & _). now apply in_map. }
  destruct (headMove ip) as [|m l] eqn:E; simpl; [now apply IH|].
  assert (Hm : In m (headMove ip)) by (rewrite E; now left).
  assert (l = []) as ->.
  { unfold headMove in E. destruct (negb _); [discriminate|].
    destruct (rev _); [discriminate|]. now injection E. }
  apply In_headMove in Hm as (Hid & _). simpl. constructor; [|now apply IH].
  rewrite Hid. intros Hk. apply Hnotin. now apply Hsub.
Qed.

Lemma inGrid_not_wall c :
  inGrid c = true ->
  (x c <? 0) || (y c <? 0) || (GRID <=? x c) || (GRID <=? y c) = false.
Proof.
  unfold inGrid. rewrite !andb_true_iff, !Z.leb_le, !Z.ltb_lt.
  intros H. rewrite !orb_false_iff, !Z.ltb_ge, !Z.leb_gt. lia.
Qed.

Lemma wall_not_inGrid c :
  (x c <? 0) || (y c <? 0) || (GRID <=? x c) || (GRID <=? y c) = true ->
  inGrid c = false.
Proof.
  intros H. destruct (inGrid c) eqn:E; [|reflexivity].
  apply inGrid_not_wall in E. congruence.
Qed.

(** The round of the resolution loop for a move that succeeds. *)
Lemma resolveMove_success occ m r w p :
  getPlayer (m_id m) r = Some p ->
  inGrid (target m) = true ->
  has occ (target m) = false ->
  resolveMove occ m r w
  = (if isFood r m
     then placeFood (modPlayer (m_id m) (addScore 10)
                       (modPlayer (m_id m) (pushHead (target m)) r)) w
     else (modPlayer (m_id m) shiftTail
             (modPlayer (m_id m) (pushHead (target m)) r), w)) /\
  getPlayer (m_id m) (fst (resolveMove occ m r w))
  = Some (if isFood r m then addScore 10 (pushHead (target m) p)
          else shiftTail (pushHead (target m) p)).
Proof.
  intros Hp Hg Ho.
  assert (E : resolveMove occ m r w
    = (if isFood r m
       then placeFood (modPlayer (m_id m) (addScore 10)
                         (modPlayer (m_id m) (pushHead (target m)) r)) w
       else (modPlayer (m_id m) shiftTail
               (modPlayer (m_id m) (pushHead (target m)) r), w))).
  { pose proof (inGrid_not_wall (target m) Hg) as Hw. simpl in Hw.
    unfold resolveMove. fold (target m). rewrite Hw, Ho. reflexivity. }
  split; [exact E|]. rewrite E.
  destruct (isFood r m).
  - rewrite getPlayer_placeFood, !getPlayer_modPlayer_same, Hp. reflexivity.
  - simpl. rewrite !getPlayer_modPlayer_same, Hp. reflexivity.
Qed.

(** The round of the resolution loop for a move that fails. *)
Lemma resolveMove_failure occ m r w p :
  getPlayer (m_id m) r = Some p ->
  alive p = true ->
  inGrid (target m) = false \/ has occ (target m) = true ->
  exists p', getPlayer (m_id m) (fst (resolveMove occ m r w)) = Some p' /\
             alive p' = false /\ snake p' = [].
Proof.
  intros Hp Ha Hbad.
  assert (Hk : forall reason, exists p',
             getPlayer (m_id m) (fst (killPlayer (m_id m) reason r w))
             = Some p' /\ alive p' = false /\ snake p' = []).
  { intros reason. unfold killPlayer. rewrite Hp, Ha. simpl.
    rewrite getPlayer_modPlayer_same, Hp. simpl. eexists.
    split; [reflexivity|]. now split. }
  unfold resolveMove. fold (target m).
  destruct (_ || _) eqn:Ew; [apply Hk|].
  destruct (has occ (target m)) eqn:Eo; [apply Hk|].
  exfalso. destruct Hbad as [Hg|Ho]; [|discriminate].
  destruct (inGrid (target m)) eqn:Eg; [discriminate|].
  unfold inGrid in Eg. simpl in Eg, Ew.
  rewrite !orb_false_iff, !Z.ltb_ge, !Z.leb_gt in Ew.
  rewrite !andb_false_iff, !Z.leb_gt, !Z.ltb_ge in Eg. lia.
Qed.

(** Where a player's move is resolved in a step: the moves before and
    after it are other players', and leave the player as it is. *)
Lemma moveStep_at r w m :
  NoDup (ids r) ->
  In m (nextHeads r) ->
  exists pre post p,
    nextHeads r = pre ++ m :: post /\
    getPlayer (m_id m) r = Some p /\
    getPlayer (m_id m) (fst (resolveAll (bodies r) pre r w)) = Some p /\
    getPlayer (m_id m) (fst (moveStep r w))
    = getPlayer (m_id m)
        (fst (resolveMove (bodies r) m
                (fst (resolveAll (bodies r) pre r w))
                (snd (resolveAll (bodies r) pre r w)))).
Proof.
  intros Hnd Hin.
  destruct (in_split _ _ Hin) as (pre & post & E).
  destruct (In_nextHeads _ _ Hin) as (p & Hp & _).
  apply (In_mget _ _ _ Hnd) in Hp.
  pose proof (NoDup_moves (players r) Hnd) as Hm.
  fold (nextHeads r) in Hm. rewrite E, map_app in Hm. simpl in Hm.
  pose proof (NoDup_remove_2 _ _ _ Hm) as Hnot.
  assert (Hpre : forall m', In m' pre -> m_id m' <> m_id m).
  { intros m' Hm' Eq. apply Hnot. apply in_or_app. left.
    rewrite <- Eq. now apply in_map. }
  assert (Hpost : forall m', In m' post -> m_id m' <> m_id m).
  { intros m' Hm' Eq. apply Hnot. apply in_or_app. right.
    rewrite <- Eq. now apply in_map. }
  exists pre, post, p. split; [exact E|]. split; [exact Hp|].
  split.
  - rewrite resolveAll_other by exact Hpre. exact Hp.
  - unfold moveStep. rewrite E, resolveAll_app. simpl.
    destruct (resolveAll (bodies r) pre r w) as [rm wm]. simpl.
    destruct (resolveMove (bodies r) m rm wm) as [r1 w1]. simpl.
    now apply resolveAll_other.
Qed.

Lemma moveStep_mover r w m :
  NoDup (ids r) ->
  In m (nextHeads r) ->
  exists pre post p,
    nextHeads r = pre ++ m :: post /\
    getPlayer (m_id m) r = Some p /\
    alive p = true /\
    (exists s h, snake p = s ++ [h] /\
                 target m = cell (x h + x (dir p)) (y h + y (dir p))) /\
    getPlayer (m_id m) (fst (resolveAll (bodies r) pre r w)) = Some p /\
    getPlayer (m_id m) (fst (moveStep r w))
    = getPlayer (m_id m)
        (fst (resolveMove (bodies r) m
                (fst (resolveAll (bodies r) pre r w))
                (snd (resolveAll (bodies r) pre r w)))).
Proof.
  intros Hnd Hin.
  destruct (@moveStep_at r w m Hnd Hin)
    as (pre & post & p & E & Hp & Hmid & Hend).
  destruct (In_nextHeads _ _ Hin) as (q & Hq & Ha & s & h & Hs & Hx & Hy).
  apply (In_mget _ _ _ Hnd) in Hq. unfold getPlayer in Hp.
  assert (q = p) as -> by congruence.
  exists pre, post, p. repeat split; auto.
  exists s, h. split; [exact Hs|]. unfold target. now rewrite Hx, Hy.
Qed.

Lemma tl_snoc (A : Type) (l : list A) (a b : A) :
  tl ((l ++ [a]) ++ [b]) = tl (l ++ [a]) ++ [b].
Proof. now destruct l. Qed.


(** What a step makes of a player that moves. *)
Lemma moveStep_outcome r w m :
  NoDup (ids r) ->
  In m (nextHeads r) ->
  exists p', getPlayer (m_id m) (fst (moveStep r w)) = Some p' /\
    ((inGrid (target m) = true /\ has (bodies r) (target m) = false /\
      alive p' = true /\ exists s, snake p' = s ++ [target m]) \/
     ((inGrid (target m) = false \/ has (bodies r) (target m) = true) /\
      alive p' = false /\ snake p' = [])).
Proof.
  intros Hnd Hin.
  destruct (@moveStep_mover r w m Hnd Hin)
    as (pre & post & p & E & Hp & Ha & (s & h & Hs & _) & Hmid & Hend).
  destruct (inGrid (target m)) eqn:Hg.
  - destruct (has (bodies r) (target m)) eqn:Ho.
    + destruct (@resolveMove_failure (bodies r) m
                  (fst (resolveAll (bodies r) pre r w))
                  (snd (resolveAll (bodies r) pre r w)) p Hmid Ha)
        as (p' & Hp' & Hd & He); [now right|].
      exists p'. split; [congruence|]. right. split; [now right|now split].
    + destruct (@resolveMove_success (bodies r) m
                  (fst (resolveAll (bodies r) pre r w))
                  (snd (resolveAll (bodies r) pre r w)) p Hmid Hg Ho)
        as [_ Hget].
      rewrite Hget in Hend. eexists. split; [exact Hend|]. left.
      split; [reflexivity|]. split; [reflexivity|].
      destruct (isFood _ m); simpl; (split; [exact Ha|]).
      * now exists (snake p).
      * exists (tl (snake p)). rewrite Hs. apply tl_snoc.
  - destruct (@resolveMove_failure (bodies r) m
                (fst (resolveAll (bodies r) pre r w))
                (snd (resolveAll (bodies r) pre r w)) p Hmid Ha)
      as (p' & Hp' & Hd & He); [now left|].
    exists p'. split; [congruence|]. right. split; [now left|now split].
Qed.

(** C4. A movement step resolves every move against the occupancy set
    taken before the step, and against nothing else: a player that moves
    survives the step exactly when its new head is in bounds and not in that
    set.  In particular, when the heads of two players move into the same
    cell, in bounds and vacant before the step, both moves succeed: both
    players are alive after the step, with that cell as head. *)
Theorem moves_meet_only_premove_occupancy r w :
  NoDup (ids r) ->
  (forall m, In m (nextHeads r) ->
     exists p', getPlayer (m_id m) (fst (moveStep r w)) = Some p' /\
       (alive p' = true <->
        inGrid (target m) = true /\ has (bodies r) (target m) = false)) /\
  (forall ma mb,
     In ma (nextHeads r) -> In mb (nextHeads r) ->
     m_id ma <> m_id mb ->
     target ma = target mb ->
     inGrid (target ma) = true ->
     has (bodies r) (target ma) = false ->
     exists pa pb,
       getPlayer (m_id ma) (fst (moveStep r w)) = Some pa /\
       getPlayer (m_id mb) (fst (moveStep r w)) = Some pb /\
       alive pa = true /\ alive pb = true /\
       (exists s, snake pa = s ++ [target ma]) /\
       (exists s, snake pb = s ++ [target ma])).
Proof.
  intros Hnd. split.
  - intros m Hin.
    destruct (@moveStep_outcome r w m Hnd Hin)
      as (p' & Hp' & [(Hg & Ho & Ha & _)|(Hbad & Hd & _)]).
    + exists p'. split; [exact Hp'|]. split; auto.
    + exists p'. split; [exact Hp'|]. split.
      * congruence.
      * intros [Hg Ho]. destruct Hbad; congruence.
  - intros ma mb Ha Hb Hne Et Hg Ho.
    destruct (@moveStep_outcome r w ma Hnd Ha)
      as (pa & Hpa & [(_ & _ & Haa & Hsa)|([Hbad|Hbad] & _)]);
      [|congruence|congruence].
    rewrite Et in Hg, Ho.
    destruct (@moveStep_outcome r w mb Hnd Hb)
      as (pb & Hpb & [(_ & _ & Hab & Hsb)|([Hbad|Hbad] & _)]);
      [|congruence|congruence].
    exists pa, pb. rewrite Et. repeat split; auto.
    now rewrite <- Et.
Qed.


Lemma moves_meet_only_premove_occupancy_witness :
  exists pa pb,
    getPlayer 1 (fst (moveStep meeting (snd emptyLobby))) = Some pa /\
    getPlayer 2 (fst (moveStep meeting (snd emptyLobby))) = Some pb /\
    alive pa = true /\ alive pb = true /\
    (exists s, snake pa = s ++ [cell 6 5]) /\
    (exists s, snake pb = s ++ [cell 6 5]).
Proof.
  assert (Hnd : NoDup (ids meeting)).
  { vm_compute. constructor; [intros [H|[]]; discriminate|].
    constructor; [intros []|constructor]. }
  assert (Ha : In (mkMove 1 6 5) (nextHeads meeting))
    by (vm_compute; now left).
  assert (Hb : In (mkMove 2 6 5) (nextHeads meeting))
    by (vm_compute; right; now left).
  assert (Hne : m_id (mkMove 1 6 5) <> m_id (mkMove 2 6 5))
    by (vm_compute; discriminate).
  assert (Hg : inGrid (target (mkMove 1 6 5)) = true)
    by (vm_compute; reflexivity).
  assert (Ho : has (bodies meeting) (target (mkMove 1 6 5)) = false)
    by (vm_compute; reflexivity).
  destruct (@moves_meet_only_premove_occupancy meeting (snd emptyLobby) Hnd)
    as [Hall Hboth].
  destruct (Hall (mkMove 1 6 5) Ha) as (_ & _ & _).
  exact (Hboth (mkMove 1 6 5) (mkMove 2 6 5) Ha Hb Hne eq_refl Hg Ho).
Defined.

(** ** How the operations change the players *)

Lemma safeSpawn_preset l r sp :
  spawnPreset l r = Some sp ->
  Forall (fun c => inGrid c = true) (sp_snake sp) /\
  exists h, In (h, sp_dir sp) l.
Proof.
  induction l as [|[h d] l IH]; [discriminate|].
  unfold spawnPreset; fold spawnPreset.
  destruct (forallb inGrid (trail h d)
            && forallb (clearOfSnakes r) (trail h d)) eqn:E.
  - intros [= Hsp]. subst sp. apply andb_true_iff in E as [E _].
    split; [apply Forall_forall; now apply forallb_forall|].
    exists h. now left.
  - intros H. destruct (IH H) as [Hg [h' Hh]]. split; [exact Hg|].
    exists h'. now right.
Qed.

Lemma safeSpawn_random n r w :
  match fst (spawnRandom n r w) with
  | Some sp => spawnOK sp
  | None => True
  end.
Proof.
  revert w. induction n as [|n IH]; intros w; [exact I|].
  unfold spawnRandom; fold spawnRandom.
  destruct (randomFreeCell r w) as [[h|] w1]; [|exact I].
  unfold draw. cbv beta iota.
  set (k := (_ mod 4)%nat). set (w2 := mkWorld _ _ _ _ _ _ _).
  destruct (forallb inGrid (trail h (nth k headings (cell 1 0)))) eqn:E;
    [|apply IH].
  split; cbn [fst sp_snake sp_dir].
  - apply Forall_forall. now apply forallb_forall.
  - assert (Hk : (k < 4)%nat) by (apply Nat.mod_upper_bound; discriminate).
    apply nth_In. exact Hk.
Qed.

Lemma safeSpawn_ok r w : spawnOK (fst (safeSpawn r w)).
Proof.
  unfold safeSpawn. destruct (spawnPreset presets r) as [sp|] eqn:E.
  - apply safeSpawn_preset in E as [Hg [h Hh]]. split; [exact Hg|].
    simpl in Hh. unfold headings.
    cbn [fst].
    destruct Hh as [H|[H|[H|[H|[]]]]]; injection H; intros Hd _;
      rewrite <- Hd; simpl; auto.
  - pose proof (safeSpawn_random 300 r w) as H.
    destruct (spawnRandom 300 r w) as [[sp|] w1]; cbn [fst] in *.
    + exact H.
    + split; cbn; [|now left]. repeat constructor.
Qed.

Section PlayerRelation.
Variable i : list (nat * InputSample).
Variable R : nat -> Player -> Player -> Prop.
Hypothesis R_refl : forall id p, R id p p.
Hypothesis R_trans : forall id p q s, R id p q -> R id q s -> R id p s.
Hypothesis R_spawn : forall id p sp sc al ra,
    spawnOK sp ->
    R id p (mkPlayer sc al ra (sp_snake sp) (sp_dir sp) (lastSeq p)).
Hypothesis R_kill : forall id p t,
    R id p (mkPlayer (score p) false (Some t) [] (dir p) (lastSeq p)).
Hypothesis R_push : forall id p c, inGrid c = true -> R id p (pushHead c p).
Hypothesis R_score : forall id p n, R id p (addScore n p).
Hypothesis R_shift : forall id p, R id p (shiftTail p).
Hypothesis R_input : forall id p, R id p (applyLatest i id p).

Lemma related_refl r : related R r r.
Proof.
  unfold related. induction (players r); constructor; auto.
Qed.

Lemma related_same r r' : players r' = players r -> related R r r'.
Proof. unfold related. intros ->. apply related_refl. Qed.

Lemma related_trans r1 r2 r3 :
  related R r1 r2 -> related R r2 r3 -> related R r1 r3.
Proof.
  unfold related. generalize (players r1) (players r2) (players r3).
  intros l1 l2 l3 H12. revert l3.
  induction H12 as [|a b l1 l2 [Hk Hr] _ IH]; intros l3 H23;
    inversion H23 as [|? c ? l3' [Hk' Hr'] H23']; subst; constructor.
  - split; [congruence|]. eapply R_trans; [exact Hr|]. now rewrite Hk.
  - now apply IH.
Qed.

Lemma related_modPlayer id f r :
  (forall p, R id p (f p)) -> related R r (modPlayer id f r).
Proof.
  intros Hf. unfold related, modPlayer. simpl.
  induction (players r) as [|[k v] l IH]; simpl; [constructor|].
  destruct (Nat.eqb id k) eqn:E.
  - apply Nat.eqb_eq in E. subst k. constructor; [now split|].
    apply (related_refl (withPlayers l r)).
  - constructor; [now split|exact IH].
Qed.

Lemma related_killPlayer id reason r w :
  related R r (fst (killPlayer id reason r w)).
Proof.
  unfold killPlayer. destruct (getPlayer id r) as [p|];
    [|apply related_refl].
  destruct (alive p); simpl; [|apply related_refl].
  apply related_modPlayer. intros q. apply R_kill.
Qed.

Lemma related_maybeRespawn id r w :
  related R r (fst (maybeRespawn id r w)).
Proof.
  unfold maybeRespawn. destruct (getPlayer id r) as [p|];
    [|apply related_refl].
  destruct (alive p); [apply related_refl|].
  destruct (respawnAt p) as [d|]; [|apply related_refl].
  destruct (d =? 0); [apply related_refl|]. simpl.
  destruct (_ <? d); [apply related_refl|].
  pose proof (safeSpawn_ok r (snd (now w))) as Hsp. unfold now in Hsp.
  simpl in Hsp. destruct (safeSpawn r _) as [sp w2]. simpl in *.
  apply related_modPlayer. intros q. now apply R_spawn.
Qed.

Lemma related_resetPlayer id r w :
  related R r (fst (resetPlayer id r w)).
Proof.
  unfold resetPlayer. pose proof (safeSpawn_ok r w) as Hsp.
  destruct (safeSpawn r w) as [sp w1]. simpl in *.
  apply related_modPlayer. intros q. now apply R_spawn.
Qed.

Lemma related_spawnInto id r w :
  related R r (fst (spawnInto id r w)).
Proof.
  unfold spawnInto. pose proof (safeSpawn_ok r w) as Hsp.
  destruct (safeSpawn r w) as [sp w1]. simpl in *.
  apply related_modPlayer. intros q. now apply R_spawn.
Qed.

Lemma related_forEach f l :
  (forall id r w, related R r (fst (f id r w))) ->
  forall r w, related R r (fst (forEach f l r w)).
Proof.
  intros Hf. induction l as [|k l IH]; intros r w; simpl;
    [apply related_refl|].
  specialize (Hf k r w). destruct (f k r w) as [r1 w1].
  eapply related_trans; [exact Hf|apply IH].
Qed.

Lemma related_placeFood r w : related R r (fst (placeFood r w)).
Proof. apply related_same, placeFood_players. Qed.

Lemma related_applyInputs r :
  inputs r = i -> related R r (applyInputs r).
Proof.
  intros Hi. unfold related, applyInputs. simpl. rewrite Hi.
  induction (players r) as [|[k v] l IH]; simpl; constructor; auto.
Qed.

Lemma related_resolveMove occ m r w :
  related R r (fst (resolveMove occ m r w)).
Proof.
  unfold resolveMove.
  destruct (_ || _) eqn:Ew; [apply related_killPlayer|].
  destruct (has occ _); [apply related_killPlayer|].
  assert (Hg : inGrid (cell (m_x m) (m_y m)) = true).
  { destruct (inGrid (cell (m_x m) (m_y m))) eqn:Eg; [reflexivity|].
    unfold inGrid in Eg. simpl in Eg.
    rewrite !orb_false_iff, !Z.ltb_ge, !Z.leb_gt in Ew.
    rewrite !andb_false_iff, !Z.leb_gt, !Z.ltb_ge in Eg. lia. }
  assert (H1 : related R r
                 (modPlayer (m_id m) (pushHead (cell (m_x m) (m_y m))) r)).
  { apply related_modPlayer. intros q. now apply R_push. }
  destruct (isFood _ m).
  - eapply related_trans; [exact H1|].
    eapply related_trans; [|apply related_placeFood].
    apply related_modPlayer. intros q. apply R_score.
  - eapply related_trans; [exact H1|]. simpl.
    apply related_modPlayer. intros q. apply R_shift.
Qed.

Lemma related_resolveAll occ l :
  forall r w, related R r (fst (resolveAll occ l r w)).
Proof.
  induction l as [|m l IH]; intros r w; simpl; [apply related_refl|].
  pose proof (related_resolveMove occ m r w) as H.
  destruct (resolveMove occ m r w) as [r1 w1].
  eapply related_trans; [exact H|apply IH].
Qed.

Lemma related_moveStep r w : related R r (fst (moveStep r w)).
Proof. apply related_resolveAll. Qed.

Lemma moveRound_inputs step s :
  inputs (fst (moveRound step s)) = inputs (fst s).
Proof.
  unfold moveRound.
  pose proof (moveStep_shell (applyInputs (fst s)) (snd s)) as H.
  destruct (moveStep (applyInputs (fst s)) (snd s)) as [r1 w1]. simpl in *.
  now rewrite (shell_inputs H).
Qed.

Lemma related_moveRound step s :
  inputs (fst s) = i -> related R (fst s) (fst (moveRound step s)).
Proof.
  intros Hi. unfold moveRound.
  pose proof (related_moveStep (applyInputs (fst s)) (snd s)) as H.
  destruct (moveStep (applyInputs (fst s)) (snd s)) as [r1 w1]. simpl in *.
  eapply related_trans; [now apply related_applyInputs|].
  eapply related_trans; [exact H|]. now apply related_same.
Qed.

Lemma related_moveLoop fuel step :
  forall s s', moveLoop fuel step s = Some s' ->
               inputs (fst s) = i -> related R (fst s) (fst s').
Proof.
  induction fuel as [|fuel IH]; intros s s'; simpl;
    destruct (Qle_bool step (moveAcc (fst s)));
    try discriminate; try (intros [= <-] _; apply related_refl).
  intros Hl Hi. eapply related_trans; [now apply related_moveRound|].
  apply (IH _ _ Hl). now rewrite moveRound_inputs.
Qed.

Lemma tickPrepare_inputs r w : inputs (fst (tickPrepare r w)) = inputs r.
Proof.
  unfold tickPrepare.
  pose proof (forEach_shell maybeRespawn (ids r) maybeRespawn_shell r w) as H.
  destruct (forEach maybeRespawn (ids r) r w) as [r2 w2]. simpl in *.
  now rewrite (shell_inputs H).
Qed.

Lemma related_tickPrepare r w :
  inputs r = i -> related R r (fst (tickPrepare r w)).
Proof.
  intros Hi. unfold tickPrepare.
  pose proof (related_forEach maybeRespawn (ids r) related_maybeRespawn r w)
    as H.
  pose proof (forEach_shell maybeRespawn (ids r) maybeRespawn_shell r w)
    as Hs.
  destruct (forEach maybeRespawn (ids r) r w) as [r2 w2]. simpl in *.
  eapply related_trans; [exact H|].
  eapply related_trans; [|now apply related_same].
  apply related_applyInputs. now rewrite (shell_inputs Hs).
Qed.

Lemma related_endRound r w : related R r (fst (endRound r w)).
Proof.
  unfold endRound. destruct (negb _); now apply related_same.
Qed.

Lemma related_tick fuel r w s' :
  tick fuel r w = Some s' -> inputs r = i -> related R r (fst s').
Proof.
  unfold tick. destruct (negb _); [intros [= <-] _; apply related_refl|].
  unfold now. cbv beta iota.
  destruct (roundOver _ _).
  - intros [= <-] _.
    eapply related_trans; [|apply related_endRound]. now apply related_same.
  - set (r1 := withTickNo _ r). set (w1 := mkWorld _ _ _ _ _ _ _).
    destruct (moveLoop fuel _ (tickPrepare r1 w1)) as [s|] eqn:El;
      [|discriminate].
    intros [= <-] Hi. simpl.
    eapply related_trans; [apply (@related_same r r1); reflexivity|].
    eapply related_trans; [apply (related_tickPrepare r1 w1); exact Hi|].
    apply (@related_moveLoop fuel _ _ _ El). now rewrite tickPrepare_inputs.
Qed.

Lemma related_startRound r w : related R r (fst (startRound r w)).
Proof.
  unfold startRound. destruct (state_eqb _ _); [apply related_refl|].
  unfold now. cbv beta iota.
  set (r2 := withTimes _ _ _). set (w1 := mkWorld _ _ _ _ _ _ _).
  pose proof (related_forEach resetPlayer (ids r2) related_resetPlayer r2 w1)
    as H3.
  destruct (forEach resetPlayer (ids r2) r2 w1) as [r3 w3].
  pose proof (related_placeFood r3 w3) as H4.
  destruct (placeFood r3 w3) as [r4 w4]. simpl in *.
  eapply related_trans; [apply (@related_same r r2); reflexivity|].
  eapply related_trans; [exact H3|].
  eapply related_trans; [exact H4|]. now apply related_same.
Qed.

(** The two ways to read [related]: by key, and over all the players. *)
Lemma related_get r r' id p :
  related R r r' -> getPlayer id r = Some p ->
  exists p', getPlayer id r' = Some p' /\ R id p p'.
Proof.
  unfold related, getPlayer. generalize (players r) (players r').
  intros l l' H. induction H as [|[k v] [k' v'] l l' [Hk Hr] _ IH]; simpl;
    [discriminate|].
  simpl in Hk, Hr. subst k'. destruct (Nat.eqb id k) eqn:E; [|exact IH].
  apply Nat.eqb_eq in E. subst k. intros [= ->]. now exists v'.
Qed.

Lemma related_Forall (P : Player -> Prop) r r' :
  (forall id p p', R id p p' -> P p -> P p') ->
  related R r r' ->
  Forall (fun ip => P (snd ip)) (players r) ->
  Forall (fun ip => P (snd ip)) (players r').
Proof.
  intros HR. unfold related. generalize (players r) (players r').
  intros l l' H. induction H as [|a b l l' [Hk Hr] _ IH]; intros Hl;
    inversion Hl; subst; constructor; eauto.
Qed.
End PlayerRelation.

(** ** What no operation changes: the speed; and the buffer, in a tick *)

Lemma moveRound_cps step s : cps (fst (moveRound step s)) = cps (fst s).
Proof.
  unfold moveRound.
  pose proof (moveStep_shell (applyInputs (fst s)) (snd s)) as H.
  destruct (moveStep (applyInputs (fst s)) (snd s)) as [r1 w1]. simpl in *.
  now rewrite (shell_cps H).
Qed.

Lemma moveLoop_frame fuel step :
  forall s s', moveLoop fuel step s = Some s' ->
               cps (fst s') = cps (fst s) /\ inputs (fst s') = inputs (fst s).
Proof.
  induction fuel as [|fuel IH]; intros s s'; simpl;
    destruct (Qle_bool step (moveAcc (fst s)));
    try discriminate; try (intros [= <-]; now split).
  intros Hl. destruct (IH _ _ Hl) as [Hc Hi].
  now rewrite Hc, Hi, moveRound_cps, moveRound_inputs.
Qed.

Lemma tickPrepare_cps r w : cps (fst (tickPrepare r w)) = cps r.
Proof.
  unfold tickPrepare.
  pose proof (forEach_shell maybeRespawn (ids r) maybeRespawn_shell r w) as H.
  destruct (forEach maybeRespawn (ids r) r w) as [r2 w2]. simpl in *.
  now rewrite (shell_cps H).
Qed.

Lemma tick_frame fuel r w s' :
  tick fuel r w = Some s' ->
  cps (fst s') = cps r /\ inputs (fst s') = inputs r.
Proof.
  unfold tick. destruct (negb _); [intros [= <-]; now split|].
  unfold now. cbv beta iota. destruct (roundOver _ _).
  - intros [= <-]. unfold endRound. now destruct (negb _).
  - set (r1 := withTickNo _ r). set (w1 := mkWorld _ _ _ _ _ _ _).
    destruct (moveLoop fuel _ (tickPrepare r1 w1)) as [s|] eqn:El;
      [|discriminate].
    intros [= <-]. simpl. destruct (moveLoop_frame _ _ _ El) as [Hc Hi].
    now rewrite Hc, Hi, tickPrepare_cps, tickPrepare_inputs.
Qed.

Lemma startRound_frame r w :
  cps (fst (startRound r w)) = cps r /\
  inputs (fst (startRound r w)) = inputs r.
Proof.
  unfold startRound. destruct (state_eqb _ _); [now split|].
  unfold now. cbv beta iota.
  set (r2 := withTimes _ _ _). set (w1 := mkWorld _ _ _ _ _ _ _).
  pose proof (forEach_shell resetPlayer (ids r2) resetPlayer_shell r2 w1) as H3.
  destruct (forEach resetPlayer (ids r2) r2 w1) as [r3 w3].
  pose proof (placeFood_shell r3 w3) as H4.
  destruct (placeFood r3 w3) as [r4 w4]. simpl in *.
  assert (H : shell r4 = shell r2) by congruence.
  now rewrite (shell_cps H), (shell_inputs H).
Qed.

Lemma spawnInto_shell id r w : shell (fst (spawnInto id r w)) = shell r.
Proof. unfold spawnInto. now destruct (safeSpawn r w). Qed.

Lemma onJoin_frame id r w :
  cps (fst (onJoin id r w)) = cps r /\
  inputs (fst (onJoin id r w)) = inputs r.
Proof.
  unfold onJoin. destruct (_ <=? _)%nat; [now split|].
  set (r1 := withPlayers _ r).
  pose proof (spawnInto_shell id r1 w) as H2.
  destruct (spawnInto id r1 w) as [r2 w2]. rewrite announce_fst.
  simpl in H2.
  assert (H : shell (fst (match food r2 with
                          | Some _ => (r2, w2)
                          | None => placeFood r2 w2
                          end)) = shell r1).
  { destruct (food r2); [exact H2|]. now rewrite placeFood_shell. }
  now rewrite (shell_cps H), (shell_inputs H).
Qed.

Lemma onInput_cps id msg r : cps (onInput id msg r) = cps r.
Proof.
  unfold onInput. destruct (m_dir msg) as [[[dx|] [dy|]]|]; try reflexivity.
  destruct (getPlayer id _) as [p|]; [|reflexivity].
  now destruct (_ <? _).
Qed.

Lemma onClose_cps id r w : cps (fst (onClose id r w)) = cps r.
Proof. unfold onClose. now destruct (_ =? _)%nat. Qed.

Lemma handle_cps e s s' :
  handle e s = Some s' -> cps (fst s') = cps (fst s).
Proof.
  destruct e as [id| |id msg|id|fuel]; simpl.
  - intros [= <-]. apply onJoin_frame.
  - intros [= <-]. apply startRound_frame.
  - intros [= <-]. apply onInput_cps.
  - intros [= <-]. apply onClose_cps.
  - intros H. now apply tick_frame in H.
Qed.

(** A tick whose allowance covers two rounds returns. *)
Lemma tick_total fuel r w :
  (0 < cps r)%Q -> (2 <= fuel)%nat -> exists s', tick fuel r w = Some s'.
Proof.
  intros Hc Hf. unfold tick. destruct (negb _); [now eexists|].
  unfold now. cbv beta iota. destruct (roundOver _ _); [now eexists|].
  set (r1 := withTickNo _ r). set (w1 := mkWorld _ _ _ _ _ _ _).
  assert (Hstep : (0 < 1 / cps r1)%Q).
  { unfold Qdiv. rewrite Qmult_1_l. now apply Qinv_lt_0_compat. }
  assert (Hclamp : (moveAcc (fst (tickPrepare r1 w1)) <= 1 / cps r1 * 2)%Q).
  { rewrite tickPrepare_moveAcc. unfold accumulate. apply Q.le_min_r. }
  destruct (moveLoop_at_most_two (tickPrepare r1 w1) Hstep Hclamp Hf)
    as (k & _ & Hl & _).
  rewrite Hl. now eexists.
Qed.

Lemma run_total evs :
  forall s, (0 < cps (fst s))%Q -> Forall enoughFuel evs ->
            exists s', run evs s = Some s'.
Proof.
  induction evs as [|e evs IH]; intros s Hc Hf; simpl; [now eexists|].
  inversion Hf as [|? ? He Hf']; subst.
  assert (H : exists s1, handle e s = Some s1).
  { destruct e; simpl; try now eexists. now apply tick_total. }
  destruct H as [s1 H1]. rewrite H1. apply IH; [|exact Hf'].
  now rewrite (handle_cps _ _ H1).
Qed.

(** ** Invariants of the runs of a room *)

Section RunInvariant.
Variable P : Player -> Prop.
Variable D : Cell -> Prop.
Hypothesis P_new : P newPlayer.
Hypothesis P_spawn : forall p sp sc al ra,
    spawnOK sp -> P p ->
    P (mkPlayer sc al ra (sp_snake sp) (sp_dir sp) (lastSeq p)).
Hypothesis P_kill : forall p t,
    P p -> P (mkPlayer (score p) false (Some t) [] (dir p) (lastSeq p)).
Hypothesis P_push : forall p c, inGrid c = true -> P p -> P (pushHead c p).
Hypothesis P_score : forall p n, P p -> P (addScore n p).
Hypothesis P_shift : forall p, P p -> P (shiftTail p).
Hypothesis P_seq : forall p n, P p -> P (withLastSeq n p).
Hypothesis P_dir : forall p d, D d -> P p -> P (withDir d p).
Hypothesis D_clamp : forall a b, D (cell (clamp a (-1) 1) (clamp b (-1) 1)).

Lemma keeps_input i id p : keeps P D i id p (applyLatest i id p).
Proof.
  intros Hi Hp. unfold applyLatest. destruct (negb (alive p)); [exact Hp|].
  destruct (mget id i) as [inp|] eqn:E; [|exact Hp].
  apply mget_In in E. rewrite Forall_forall in Hi. specialize (Hi _ E).
  simpl in Hi. unfold raiseSeq, applyInput.
  destruct (_ && _); destruct (_ <? _); auto.
Qed.

Lemma holds_related i r r' :
  related (keeps P D i) r r' ->
  inputs r = i -> inputs r' = i -> holds P D r -> holds P D r'.
Proof.
  intros Hr Hi Hi' [Hp Hd]. split; [|now rewrite Hi', <- Hi].
  revert Hp. apply (related_Forall (R := keeps P D i)); [|exact Hr].
  intros id p p' Hk. apply Hk. now rewrite <- Hi.
Qed.

Lemma holds_tick fuel r w s' :
  tick fuel r w = Some s' -> holds P D r -> holds P D (fst s').
Proof.
  intros Ht. apply (holds_related (i := inputs r));
    [|reflexivity|now apply tick_frame in Ht].
  eapply related_tick with (i := inputs r); try exact Ht; try reflexivity;
    unfold keeps; auto using keeps_input.
  apply keeps_input.
Qed.

Lemma holds_startRound r w :
  holds P D r -> holds P D (fst (startRound r w)).
Proof.
  apply (holds_related (i := inputs r));
    [|reflexivity|apply startRound_frame].
  apply related_startRound; unfold keeps; auto.
Qed.

Lemma spawnInto_players id r w :
  Forall (fun ip => P (snd ip)) (players r) ->
  Forall (fun ip => P (snd ip)) (players (fst (spawnInto id r w))).
Proof.
  intros H. unfold spawnInto. pose proof (safeSpawn_ok r w) as Hsp.
  destruct (safeSpawn r w) as [sp w1]. cbn [fst] in *.
  unfold modPlayer. cbn [players withPlayers].
  apply Forall_mupdate; [|exact H]. intros v. now apply P_spawn.
Qed.

Lemma holds_onJoin id r w : holds P D r -> holds P D (fst (onJoin id r w)).
Proof.
  intros [Hp Hd]. split; [|now rewrite (proj2 (onJoin_frame id r w))].
  unfold onJoin. destruct (_ <=? _)%nat; [exact Hp|].
  set (r1 := withPlayers _ r).
  assert (H1 : Forall (fun ip => P (snd ip)) (players r1))
    by (apply Forall_mset; assumption).
  pose proof (spawnInto_players id r1 w H1) as H2.
  destruct (spawnInto id r1 w) as [r2 w2]. rewrite announce_fst.
  simpl in H2. destruct (food r2); [exact H2|].
  now rewrite placeFood_players.
Qed.

Lemma holds_onInput id msg r : holds P D r -> holds P D (onInput id msg r).
Proof.
  intros [Hp Hd]. unfold onInput.
  destruct (m_dir msg) as [[[dx|] [dy|]]|]; try (now split).
  set (i' := mset id _ (inputs r)).
  assert (Hi' : Forall (fun ii => D (inp_dir (snd ii))) i').
  { apply (Forall_mset (fun v => D (inp_dir v))); [apply D_clamp|exact Hd]. }
  destruct (getPlayer id _) as [p|]; [|now split].
  destruct (_ <? _); [|now split].
  split; [|exact Hi']. simpl. apply Forall_mupdate; [|exact Hp].
  intros v. apply P_seq.
Qed.

Lemma holds_onClose id r w : holds P D r -> holds P D (fst (onClose id r w)).
Proof.
  intros [Hp Hd]. unfold onClose.
  destruct (_ =? _)%nat; split; simpl; now apply Forall_mdelete.
Qed.

Lemma holds_handle e s s' :
  handle e s = Some s' -> holds P D (fst s) -> holds P D (fst s').
Proof.
  destruct e as [id| |id msg|id|fuel]; simpl.
  - intros [= <-]. apply holds_onJoin.
  - intros [= <-]. apply holds_startRound.
  - intros [= <-]. apply holds_onInput.
  - intros [= <-]. apply holds_onClose.
  - apply holds_tick.
Qed.

Lemma holds_run evs :
  forall s s', run evs s = Some s' -> holds P D (fst s) -> holds P D (fst s').
Proof.
  induction evs as [|e evs IH]; intros s s'; simpl.
  - now intros [= <-].
  - destruct (handle e s) as [s1|] eqn:E; [|discriminate].
    intros Hr Hs. apply (IH _ _ Hr). exact (holds_handle _ _ E Hs).
Qed.

Lemma holds_onCreate id c w : holds P D (fst (onCreate id c w)).
Proof.
  unfold onCreate, createRoom, now. cbv beta iota.
  set (r0 := mkRoom _ _ _ _ _ _ _ _ _ _ _ _).
  set (w0 := mkWorld _ _ _ _ _ _ _).
  set (r1 := withPlayers _ r0).
  assert (H1 : holds P D r1).
  { split; simpl; [|constructor]. repeat constructor. exact P_new. }
  pose proof (spawnInto_shell id r1 w0) as Hs.
  pose proof (spawnInto_players id r1 w0 (proj1 H1)) as H2.
  destruct (spawnInto id r1 w0) as [r2 w2]. rewrite announce_fst.
  simpl in *. split.
  - now rewrite placeFood_players.
  - rewrite (shell_inputs (placeFood_shell r2 w2)), (shell_inputs Hs).
    constructor.
Qed.
End RunInvariant.

(** ** Bodies stay on the grid *)

Lemma inGrid_bounds c :
  inGrid c = true <-> 0 <= x c < GRID /\ 0 <= y c < GRID.
Proof.
  unfold inGrid. rewrite !andb_true_iff, !Z.leb_le, !Z.ltb_lt. lia.
Qed.

Lemma inBounds_run evs s :
  Forall (fun ip => inBounds (snd ip)) (players (fst s)) ->
  (0 < cps (fst s))%Q ->
  Forall enoughFuel evs ->
  exists s', run evs s = Some s' /\
             Forall (fun ip => inBounds (snd ip)) (players (fst s')).
Proof.
  intros Hb Hc Hf. destruct (run_total s Hc Hf) as [s' Hr].
  exists s'. split; [exact Hr|].
  refine (proj1 (@holds_run inBounds (fun _ => True)
                   _ _ _ _ _ _ _ _ _ evs s s' Hr _)); unfold inBounds; simpl;
    auto.
  - intros p sp sc al ra [Hsp _] _. exact Hsp.
  - intros p c Hc' Hp. apply Forall_app. split; [exact Hp|].
    repeat constructor. exact Hc'.
  - intros p Hp. destruct (snake p); [constructor|]. now inversion Hp.
  - split; [exact Hb|]. apply Forall_forall. intros; exact I.
Qed.

(** C9. Every cell of every player's body lies within [0, GRID) on both
    axes after every event of a room: this holds when the room has been
    created, and every join, start, input, close and tick keeps it (a tick
    with an allowance of two rounds always returns).  In particular
    [safeSpawn] only produces bodies on the grid, and a move whose new head
    is off the grid kills the player, whose body becomes empty, instead of
    appending the head. *)
Theorem bodies_stay_in_grid evs :
  Forall enoughFuel evs ->
  (forall id c w, exists s',
      run evs (onCreate id c w) = Some s' /\
      forall ip cl, In ip (players (fst s')) -> In cl (snake (snd ip)) ->
                    0 <= x cl < GRID /\ 0 <= y cl < GRID) /\
  (forall s,
      Forall (fun ip => inBounds (snd ip)) (players (fst s)) ->
      (0 < cps (fst s))%Q ->
      exists s',
        run evs s = Some s' /\
        forall ip cl, In ip (players (fst s')) -> In cl (snake (snd ip)) ->
                      0 <= x cl < GRID /\ 0 <= y cl < GRID) /\
  (forall r w cl, In cl (sp_snake (fst (safeSpawn r w))) ->
                  0 <= x cl < GRID /\ 0 <= y cl < GRID) /\
  (forall occ m r w p,
      getPlayer (m_id m) r = Some p -> alive p = true ->
      inGrid (target m) = false ->
      exists p', getPlayer (m_id m) (fst (resolveMove occ m r w)) = Some p' /\
                 alive p' = false /\ snake p' = []).
Proof.
  intros Hf.
  assert (Hgen : forall s,
      Forall (fun ip => inBounds (snd ip)) (players (fst s)) ->
      (0 < cps (fst s))%Q ->
      exists s',
        run evs s = Some s' /\
        forall ip cl, In ip (players (fst s')) -> In cl (snake (snd ip)) ->
                      0 <= x cl < GRID /\ 0 <= y cl < GRID).
  { intros s Hb Hc. destruct (inBounds_run s Hb Hc Hf) as (s' & Hr & Hb').
    exists s'. split; [exact Hr|]. intros ip cl Hip Hcl.
    rewrite Forall_forall in Hb'. specialize (Hb' ip Hip).
    unfold inBounds in Hb'. rewrite Forall_forall in Hb'.
    apply inGrid_bounds. now apply Hb'. }
  split; [|split; [exact Hgen|split]].
  - intros id c w. apply Hgen.
    + refine (proj1 (@holds_onCreate inBounds (fun _ => True)
                       _ _ id c w)); unfold inBounds; simpl.
      * constructor.
      * intros p sp sc al ra [Hsp _] _. exact Hsp.
    + assert (E : cps (fst (onCreate id c w)) = BASE_CPS).
      { unfold onCreate, createRoom, now. cbv beta iota.
        set (r1 := withPlayers _ _).
        pose proof (spawnInto_shell id r1) as Hs.
        match goal with |- context [spawnInto id r1 ?w0] =>
          specialize (Hs w0); destruct (spawnInto id r1 w0) as [r2 w2] end.
        rewrite announce_fst.
        rewrite (shell_cps (placeFood_shell r2 w2)).
        simpl in Hs. now rewrite (shell_cps Hs). }
      rewrite E. reflexivity.
  - intros r w cl Hin. destruct (safeSpawn_ok r w) as [Hg _].
    rewrite Forall_forall in Hg. apply inGrid_bounds. now apply Hg.
  - intros occ m r w p Hp Ha Hout.
    apply (@resolveMove_failure occ m r w p Hp Ha). now left.
Qed.

Lemma bodies_stay_in_grid_witness :
  (exists s', run [EStart; ETick 2] ticking = Some s' /\
     forall ip cl, In ip (players (fst s')) -> In cl (snake (snd ip)) ->
                   0 <= x cl < GRID /\ 0 <= y cl < GRID) /\
  (exists p', getPlayer 1 (fst (resolveMove [] (mkMove 1 (-1) 5) meeting
                                            (snd ticking))) = Some p' /\
              alive p' = false /\ snake p' = []).
Proof.
  assert (Hf : Forall enoughFuel [EStart; ETick 2]).
  { repeat constructor. }
  assert (Hb : Forall (fun ip => inBounds (snd ip)) (players (fst ticking))).
  { vm_compute. repeat constructor. }
  assert (Hc : (0 < cps (fst ticking))%Q) by (vm_compute; reflexivity).
  assert (Hp : getPlayer (m_id (mkMove 1 (-1) 5)) meeting
               = Some (mkPlayer 0 true None [cell 3 5; cell 4 5; cell 5 5]
                                (cell 1 0) 0))
    by (vm_compute; reflexivity).
  destruct (bodies_stay_in_grid Hf) as (_ & Hrun & _ & Hwall).
  split.
  - exact (Hrun ticking Hb Hc).
  - exact (Hwall [] (mkMove 1 (-1) 5) meeting (snd ticking) _ Hp
                 eq_refl eq_refl).
Defined.

(** ** Directions *)

Lemma mget_mset_same (V : Type) k (v : V) m : mget k (mset k v m) = Some v.
Proof.
  induction m as [|[j u] m IH]; simpl; [now rewrite Nat.eqb_refl|].
  destruct (Nat.eqb k j) eqn:E; simpl; [now rewrite Nat.eqb_refl|].
  now rewrite E.
Qed.



Lemma axisUnit_headings d : In d headings <-> axisUnit d.
Proof.
  unfold headings, axisUnit. simpl. intuition congruence.
Qed.






(** ** Acknowledged sequence numbers *)

Lemma raiseSeq_lastSeq s p :
  lastSeq (raiseSeq s p) = lastSeq p \/
  (lastSeq p < lastSeq (raiseSeq s p) /\ lastSeq (raiseSeq s p) = s).
Proof.
  unfold raiseSeq, orZero.
  destruct (lastSeq p =? 0) eqn:E0;
    destruct (_ <? s) eqn:E; simpl; auto; right;
    apply Z.ltb_lt in E; [apply Z.eqb_eq in E0|]; split; lia.
Qed.

Lemma applyInput_lastSeq p d : lastSeq (applyInput p d) = lastSeq p.
Proof.
  unfold applyInput. destruct d as [d|]; [|reflexivity].
  now destruct (_ && _).
Qed.

Lemma raisedFrom_input i id p : raisedFrom i id p (applyLatest i id p).
Proof.
  unfold applyLatest, raisedFrom. destruct (negb (alive p)); [now left|].
  destruct (mget id i) as [inp|] eqn:E; [|now left].
  destruct (raiseSeq_lastSeq (inp_seq inp)
              (applyInput p (Some (inp_dir inp)))) as [H|[H1 H2]];
    rewrite applyInput_lastSeq in *; [now left|right].
  split; [exact H1|]. exists inp. now split.
Qed.

Lemma raisedFrom_trans i id p q s :
  raisedFrom i id p q -> raisedFrom i id q s -> raisedFrom i id p s.
Proof.
  unfold raisedFrom.
  intros [H1|[H1 (a & Ha & Ea)]] [H2|[H2 (b & Hb & Eb)]].
  - left. congruence.
  - right. split; [lia|]. now exists b.
  - right. split; [lia|]. exists a. split; [exact Ha|congruence].
  - right. split; [lia|]. now exists b.
Qed.

Lemma tick_raised fuel r w s' :
  tick fuel r w = Some s' -> related (raisedFrom (inputs r)) r (fst s').
Proof.
  intros Ht.
  refine (@related_tick (inputs r) (raisedFrom (inputs r))
            _ _ _ _ _ _ _ _ fuel r w s' Ht eq_refl);
    try (intros; now left).
  - intros id p q s. apply raisedFrom_trans.
  - intros id p. apply raisedFrom_input.
Qed.

Lemma onInput_raised id msg r k p :
  getPlayer k r = Some p ->
  exists p', getPlayer k (onInput id msg r) = Some p' /\
             (lastSeq p' = lastSeq p \/
              (k = id /\ lastSeq p < lastSeq p' /\ lastSeq p' = seqOf msg)).
Proof.
  intros Hp. unfold onInput.
  destruct (m_dir msg) as [[[dx|] [dy|]]|]; try (exists p; now auto).
  set (r1 := withInputs _ r).
  assert (Hp1 : getPlayer k r1 = Some p) by exact Hp.
  destruct (getPlayer id r1) as [q|] eqn:Eq; [|exists p; now auto].
  destruct (orZero (lastSeq q) <? seqOf msg) eqn:E; [|exists p; now auto].
  destruct (Nat.eq_dec k id) as [->|Hne].
  - rewrite getPlayer_modPlayer_same, Hp1. simpl. eexists.
    split; [reflexivity|]. right. split; [reflexivity|]. simpl.
    assert (q = p) as -> by congruence.
    apply Z.ltb_lt in E. unfold orZero in E.
    destruct (lastSeq p =? 0) eqn:E0; [apply Z.eqb_eq in E0|]; split; lia.
  - rewrite getPlayer_modPlayer_other by exact Hne. exists p. now auto.
Qed.

Lemma acknowledged_refl r : acknowledged r r.
Proof. intros id p Hp. exists p. split; [exact Hp|lia]. Qed.

Lemma acknowledged_trans r1 r2 r3 :
  acknowledged r1 r2 -> acknowledged r2 r3 -> acknowledged r1 r3.
Proof.
  intros H12 H23 id p Hp.
  destruct (H12 id p Hp) as (q & Hq & Hle).
  destruct (H23 id q Hq) as (s & Hs & Hle').
  exists s. split; [exact Hs|lia].
Qed.

Lemma tick_acknowledged fuel r w s' :
  tick fuel r w = Some s' -> acknowledged r (fst s').
Proof.
  intros Ht id p Hp.
  destruct (@related_get _ _ _ _ _ (@tick_raised fuel r w s' Ht) Hp)
    as (p' & Hp' & Hr).
  exists p'. split; [exact Hp'|]. destruct Hr as [H|[H _]]; lia.
Qed.

Lemma onInput_acknowledged id msg r : acknowledged r (onInput id msg r).
Proof.
  intros k p Hp. destruct (@onInput_raised id msg r k p Hp) as (p' & Hp' & H).
  exists p'. split; [exact Hp'|]. destruct H as [H|(_ & H & _)]; lia.
Qed.

Lemma run_acknowledged evs :
  forall s s', Forall inputOrTick evs -> run evs s = Some s' ->
               acknowledged (fst s) (fst s').
Proof.
  induction evs as [|e evs IH]; intros s s' Hev; simpl.
  - intros [= <-]. apply acknowledged_refl.
  - inversion Hev as [|? ? He Hev']; subst.
    destruct (handle e s) as [s1|] eqn:E; [|discriminate].
    intros Hr. apply acknowledged_trans with (fst s1); [|now apply IH].
    destruct e as [id| |id msg|id|fuel]; simpl in *; try contradiction.
    + injection E as <-. apply onInput_acknowledged.
    + apply (@tick_acknowledged fuel _ _ _ E).
Qed.

(** C7. Across any sequence of input messages and ticks (a tick with an
    allowance of two rounds always returns), every player is still there
    and its acknowledged sequence number has not decreased.  An input
    message changes it only for the sender, to the sequence number
    received, and only when that number strictly exceeds the current value;
    a tick changes it only to the sequence number buffered for the player,
    and only when that number strictly exceeds the current value. *)
Theorem lastSeq_never_decreases evs s :
  Forall inputOrTick evs ->
  (0 < cps (fst s))%Q ->
  Forall enoughFuel evs ->
  (exists s', run evs s = Some s' /\ acknowledged (fst s) (fst s')) /\
  (forall id msg k p,
     getPlayer k (fst s) = Some p ->
     exists p', getPlayer k (onInput id msg (fst s)) = Some p' /\
                (lastSeq p' = lastSeq p \/
                 (k = id /\ lastSeq p < lastSeq p' /\
                  lastSeq p' = seqOf msg))) /\
  (forall fuel, (2 <= fuel)%nat ->
     exists s', tick fuel (fst s) (snd s) = Some s' /\
       forall k p, getPlayer k (fst s) = Some p ->
         exists p', getPlayer k (fst s') = Some p' /\
                    raisedFrom (inputs (fst s)) k p p').
Proof.
  intros Hev Hc Hf. split; [|split].
  - destruct (run_total s Hc Hf) as [s' Hr]. exists s'.
    split; [exact Hr|]. exact (@run_acknowledged evs s s' Hev Hr).
  - intros id msg k p Hp. now apply onInput_raised.
  - intros fuel Hfuel.
    destruct (@tick_total fuel (fst s) (snd s) Hc Hfuel) as [s' Ht].
    exists s'. split; [exact Ht|]. intros k p Hp.
    exact (@related_get _ _ _ _ _ (@tick_raised fuel _ _ s' Ht) Hp).
Qed.

Lemma lastSeq_never_decreases_witness :
  exists s',
    run [EInput 1 (mkInputMsg (Some (Some 0, Some 1)) (Some 7)); ETick 2;
         EInput 1 (mkInputMsg (Some (Some 0, Some 1)) (Some 3)); ETick 2]
        ticking = Some s' /\
    acknowledged (fst ticking) (fst s').
Proof.
  assert (Hev : Forall inputOrTick
    [EInput 1 (mkInputMsg (Some (Some 0, Some 1)) (Some 7)); ETick 2;
     EInput 1 (mkInputMsg (Some (Some 0, Some 1)) (Some 3)); ETick 2]).
  { repeat constructor. }
  assert (Hc : (0 < cps (fst ticking))%Q) by (vm_compute; reflexivity).
  assert (Hf : Forall enoughFuel
    [EInput 1 (mkInputMsg (Some (Some 0, Some 1)) (Some 7)); ETick 2;
     EInput 1 (mkInputMsg (Some (Some 0, Some 1)) (Some 3)); ETick 2]).
  { repeat constructor. }
  exact (proj1 (lastSeq_never_decreases ticking Hev Hc Hf)).
Defined.

(** * Further properties of the code *)

(** ** Input sanitization and buffering *)

(** X1. [clamp v a b] with [a <= b] lies in [[a, b]], is [v] itself when
    [v] already lies there, and clamping twice is clamping once. *)
Theorem clamp_within v a b :
  a <= b ->
  a <= clamp v a b <= b /\
  (a <= v <= b -> clamp v a b = v) /\
  clamp (clamp v a b) a b = clamp v a b.
Proof. unfold clamp. lia. Qed.

Lemma clamp_within_witness :
  -1 <= clamp 7 (-1) 1 <= 1 /\
  (-1 <= 7 <= 1 -> clamp 7 (-1) 1 = 7) /\
  clamp (clamp 7 (-1) 1) (-1) 1 = clamp 7 (-1) 1.
Proof. apply clamp_within. lia. Defined.

Lemma mget_mset_other (V : Type) k k' (v : V) m :
  k <> k' -> mget k (mset k' v m) = mget k m.
Proof.
  intros Hne. induction m as [|[j u] m IH]; simpl.
  - destruct (Nat.eqb k k') eqn:E; [|reflexivity].
    apply Nat.eqb_eq in E. contradiction.
  - destruct (Nat.eqb k' j) eqn:E; simpl.
    + apply Nat.eqb_eq in E. subst j.
      destruct (Nat.eqb k k') eqn:E'; [|reflexivity].
      apply Nat.eqb_eq in E'. contradiction.
    + destruct (Nat.eqb k j); [reflexivity|exact IH].
Qed.

Lemma onInput_buffer id msg r :
  hasDirection msg = true ->
  exists dx dy,
    m_dir msg = Some (Some dx, Some dy) /\
    inputs (onInput id msg r)
    = mset id (mkInput (cell (clamp dx (-1) 1) (clamp dy (-1) 1))
                       (seqOf msg)) (inputs r).
Proof.
  unfold hasDirection, onInput.
  destruct (m_dir msg) as [[[dx|] [dy|]]|]; try discriminate.
  intros _. exists dx, dy. split; [reflexivity|].
  destruct (getPlayer id _) as [p|]; [|reflexivity].
  now destruct (_ <? _).
Qed.

(** X2. The input handler ignores a frame whose direction is missing or has
    a component that is not a number: the room is returned as it is.
    Otherwise it stores, under the sender's id, the direction with each
    component clamped to [-1, 1] together with the sequence number (0 when
    the frame has none), overwriting what the sender had buffered and
    leaving the other players' buffered inputs alone. *)
Theorem input_buffer_latest_wins id msg r :
  (hasDirection msg = false -> onInput id msg r = r) /\
  (hasDirection msg = true ->
   (exists dx dy,
      m_dir msg = Some (Some dx, Some dy) /\
      mget id (inputs (onInput id msg r))
      = Some (mkInput (cell (clamp dx (-1) 1) (clamp dy (-1) 1))
                      (seqOf msg))) /\
   forall k, k <> id ->
             mget k (inputs (onInput id msg r)) = mget k (inputs r)).
Proof.
  split.
  - unfold hasDirection, onInput.
    destruct (m_dir msg) as [[[dx|] [dy|]]|]; try reflexivity. discriminate.
  - intros H. destruct (@onInput_buffer id msg r H) as (dx & dy & Hd & Hi).
    split.
    + exists dx, dy. split; [exact Hd|]. rewrite Hi. apply mget_mset_same.
    + intros k Hne. rewrite Hi. now apply mget_mset_other.
Qed.

Lemma input_buffer_latest_wins_witness :
  onInput 1 (mkInputMsg (Some (Some 1, None)) (Some 4)) (fst ticking)
  = fst ticking /\
  forall k, k <> 1%nat ->
    mget k (inputs (onInput 1 (mkInputMsg (Some (Some 5, Some 0)) None)
                            (fst ticking)))
    = mget k (inputs (fst ticking)).
Proof.
  split.
  - exact (proj1 (input_buffer_latest_wins 1
                    (mkInputMsg (Some (Some 1, None)) (Some 4))
                    (fst ticking)) eq_refl).
  - exact (proj2 (proj2 (input_buffer_latest_wins 1
                    (mkInputMsg (Some (Some 5, Some 0)) None)
                    (fst ticking)) eq_refl)).
Defined.

(** X3. An input frame by itself never moves or turns a snake: whatever
    the frame, every player of the room is still there with the same score,
    life, respawn deadline, body and direction, and the room keeps its
    state, its food and its accumulator.  The direction only changes when a
    tick applies the buffer. *)
Theorem input_changes_no_snake id msg r k p :
  getPlayer k r = Some p ->
  (exists p', getPlayer k (onInput id msg r) = Some p' /\
              sameBut_lastSeq p p') /\
  state (onInput id msg r) = state r /\
  food (onInput id msg r) = food r /\
  moveAcc (onInput id msg r) = moveAcc r.
Proof.
  intros Hp. unfold onInput.
  destruct (m_dir msg) as [[[dx|] [dy|]]|];
    try (split; [exists p; split; [exact Hp|now repeat split]
               |now repeat split]).
  set (r1 := withInputs _ r).
  assert (Hp1 : getPlayer k r1 = Some p) by exact Hp.
  destruct (getPlayer id r1) as [q|] eqn:Eq;
    [|split; [exists p; split; [exact Hp1|now repeat split]|now repeat split]].
  destruct (orZero (lastSeq q) <? seqOf msg);
    [|split; [exists p; split; [exact Hp1|now repeat split]|now repeat split]].
  split; [|now repeat split].
  destruct (Nat.eq_dec k id) as [->|Hne].
  - rewrite getPlayer_modPlayer_same, Hp1. simpl. eexists.
    split; [reflexivity|]. now repeat split.
  - rewrite getPlayer_modPlayer_other by exact Hne. exists p.
    split; [exact Hp1|now repeat split].
Qed.

Lemma input_changes_no_snake_witness :
  exists p',
    getPlayer 1 (onInput 1 (mkInputMsg (Some (Some 0, Some 1)) (Some 9))
                         (fst ticking)) = Some p' /\
    sameBut_lastSeq (mkPlayer 0 true None [cell 18 3; cell 17 3; cell 16 3]
                              (cell (-1) 0) 0) p'.
Proof.
  assert (Hp : getPlayer 1 (fst ticking)
               = Some (mkPlayer 0 true None
                                [cell 18 3; cell 17 3; cell 16 3]
                                (cell (-1) 0) 0))
    by (vm_compute; reflexivity).
  exact (proj1 (@input_changes_no_snake 1
                  (mkInputMsg (Some (Some 0, Some 1)) (Some 9))
                  (fst ticking) 1 _ Hp)).
Defined.

(** ** Turning *)

Lemma raiseSeq_idem s p : raiseSeq s (raiseSeq s p) = raiseSeq s p.
Proof.
  unfold raiseSeq. destruct (orZero (lastSeq p) <? s) eqn:E.
  - simpl. replace (orZero s <? s) with false; [reflexivity|].
    symmetry. apply Z.ltb_ge. unfold orZero. destruct (s =? 0) eqn:E0.
    + apply Z.eqb_eq in E0. lia.
    + lia.
  - now rewrite E.
Qed.

Lemma raiseSeq_applyInput s p d :
  applyInput (raiseSeq s p) d = raiseSeq s (applyInput p d).
Proof.
  unfold raiseSeq, applyInput. destruct d as [d|].
  - destruct (orZero (lastSeq p) <? s) eqn:E; simpl;
      destruct (_ && _); simpl; rewrite ?E; reflexivity.
  - reflexivity.
Qed.

Lemma applyInput_idem p d :
  applyInput (applyInput p d) d = applyInput p d.
Proof.
  unfold applyInput. destruct d as [d|]; [|reflexivity].
  destruct ((x d =? - x (dir p)) && (y d =? - y (dir p))) eqn:E.
  - now rewrite E.
  - simpl. destruct ((x d =? - x d) && (y d =? - y d)); reflexivity.
Qed.

Lemma applyLatest_idem i id p :
  applyLatest i id (applyLatest i id p) = applyLatest i id p.
Proof.
  unfold applyLatest. destruct (negb (alive p)) eqn:Ea;
    [rewrite ?Ea; reflexivity|].
  destruct (mget id i) as [inp|] eqn:Ei; [|rewrite ?Ea; reflexivity].
  assert (Hal : alive (raiseSeq (inp_seq inp)
                         (applyInput p (Some (inp_dir inp)))) = alive p).
  { unfold raiseSeq, applyInput.
    destruct (_ && _); destruct (_ <? _); reflexivity. }
  rewrite Hal, Ea, raiseSeq_applyInput, applyInput_idem.
  apply raiseSeq_idem.
Qed.

(** X4. Applying the buffered inputs is idempotent: applying them a second
    time with nothing in between changes nothing.  So the re-application
    that opens the first round of the movement loop of a tick, right after
    the application of step 3, has no effect. *)
Theorem applyInputs_idempotent r w :
  applyInputs (applyInputs r) = applyInputs r /\
  applyInputs (fst (tickPrepare r w)) = fst (tickPrepare r w).
Proof.
  assert (H : forall r0, applyInputs (applyInputs r0) = applyInputs r0).
  { intros r0. unfold applyInputs. simpl. rewrite map_map. simpl.
    assert (E : map (fun ip : nat * Player =>
                       (fst ip, applyLatest (inputs r0) (fst ip)
                                  (applyLatest (inputs r0) (fst ip) (snd ip))))
                    (players r0)
                = map (fun ip : nat * Player =>
                         (fst ip, applyLatest (inputs r0) (fst ip) (snd ip)))
                      (players r0)).
    { apply map_ext. intros [k v]. simpl. now rewrite applyLatest_idem. }
    rewrite E. reflexivity. }
  split; [apply H|].
  unfold tickPrepare. destruct (forEach maybeRespawn (ids r) r w) as [r2 w2].
  cbn [fst].
  change (applyInputs (withMoveAcc (accumulate (moveAcc (applyInputs r2))
                                               (1 / cps (applyInputs r2)))
                                   (applyInputs r2)))
    with (withMoveAcc (accumulate (moveAcc (applyInputs r2))
                                  (1 / cps (applyInputs r2)))
                      (applyInputs (applyInputs r2))).
  now rewrite H.
Qed.

(** X5. The reversal guard compares with the direction of the moment, not
    with the direction of the last move: a turn to a direction [d1] that is
    neither the current direction nor its reverse, followed by the reverse
    of the original direction, reverses the player without a move in
    between. *)
Theorem reversal_in_two_turns p d1 :
  d1 <> dir p ->
  d1 <> opposite (dir p) ->
  dir (applyInput p (Some d1)) = d1 /\
  dir (applyInput (applyInput p (Some d1)) (Some (opposite (dir p))))
  = opposite (dir p).
Proof.
  intros Hsame Hrev.
  assert (E1 : (x d1 =? - x (dir p)) && (y d1 =? - y (dir p)) = false).
  { apply andb_false_iff.
    destruct (Z.eqb_spec (x d1) (- x (dir p))) as [Ex|Ex]; [|now left].
    destruct (Z.eqb_spec (y d1) (- y (dir p))) as [Ey|Ey]; [|now right].
    exfalso. apply Hrev. unfold opposite. destruct d1; simpl in *.
    now subst. }
  assert (H1 : applyInput p (Some d1) = withDir d1 p).
  { unfold applyInput. now rewrite E1. }
  split; [now rewrite H1|]. rewrite H1. unfold applyInput. simpl.
  replace ((- x (dir p) =? - x d1) && (- y (dir p) =? - y d1)) with false;
    [reflexivity|].
  symmetry. apply andb_false_iff.
  destruct (Z.eqb_spec (- x (dir p)) (- x d1)) as [Ex|Ex]; [|now left].
  destruct (Z.eqb_spec (- y (dir p)) (- y d1)) as [Ey|Ey]; [|now right].
  exfalso. apply Hsame. destruct d1, (dir p); simpl in *. f_equal; lia.
Qed.

Lemma reversal_in_two_turns_witness :
  dir (applyInput
         (applyInput (mkPlayer 0 true None [cell 1 3; cell 2 3; cell 3 3]
                               (cell 1 0) 0) (Some (cell 0 1)))
         (Some (opposite (cell 1 0))))
  = opposite (cell 1 0).
Proof.
  refine (proj2 (@reversal_in_two_turns
                   (mkPlayer 0 true None [cell 1 3; cell 2 3; cell 3 3]
                             (cell 1 0) 0) (cell 0 1) _ _));
    simpl; discriminate.
Defined.

(** ** Rounds *)

Lemma startRound_running r w :
  state r = running -> startRound r w = (r, w).
Proof. intros Hs. unfold startRound. now rewrite Hs. Qed.

(** X6. Starting a round is idempotent: on a room that is running
    [startRound] returns the room and the world as they are (no reset, no
    frame, no second timer), so that a second start request right after a
    first changes nothing; and neither a tick nor [endRound] does anything
    to a room that is not running. *)
Theorem startRound_idempotent r w :
  (state r = running -> startRound r w = (r, w)) /\
  startRound (fst (startRound r w)) (snd (startRound r w)) = startRound r w /\
  (state r <> running ->
   (forall fuel, tick fuel r w = Some (r, w)) /\ endRound r w = (r, w)).
Proof.
  assert (Hrun : forall r0 w0, state r0 = running ->
                               startRound r0 w0 = (r0, w0))
    by exact startRound_running.
  split; [apply Hrun|]. split.
  - destruct (state_eqb (state r) running) eqn:E.
    + assert (Hs : state r = running)
        by (destruct (state r); now try discriminate).
      rewrite (Hrun r w Hs). simpl. now apply Hrun.
    + assert (Hs : state r <> running) by (intros H; now rewrite H in E).
      rewrite (Hrun _ _ (proj1 (@startRound_lifecycle r w Hs))).
      now destruct (startRound r w).
  - intros Hs.
    assert (E : state_eqb (state r) running = false)
      by (destruct (state r); try reflexivity; contradiction).
    split.
    + intros fuel. unfold tick. now rewrite E.
    + unfold endRound. now rewrite E.
Qed.

Lemma startRound_idempotent_witness :
  startRound (fst ticking) (snd ticking) = (fst ticking, snd ticking) /\
  endRound (fst emptyLobby) (snd emptyLobby)
  = (fst emptyLobby, snd emptyLobby).
Proof.
  assert (Hs : state (fst ticking) = running) by (vm_compute; reflexivity).
  assert (Hl : state (fst emptyLobby) <> running)
    by (vm_compute; discriminate).
  split.
  - exact (proj1 (startRound_idempotent (fst ticking) (snd ticking)) Hs).
  - exact (proj2 (proj2 (proj2 (startRound_idempotent (fst emptyLobby)
                                  (snd emptyLobby))) Hl)).
Defined.

(** ** Joining and leaving *)

Lemma length_mset (V : Type) k (v : V) m :
  (length m <= length (mset k v m) <= S (length m))%nat.
Proof.
  induction m as [|[j u] m IH]; simpl; [lia|].
  destruct (Nat.eqb k j); simpl; lia.
Qed.

Lemma length_mupdate (V : Type) k (f : V -> V) m :
  length (mupdate k f m) = length m.
Proof.
  induction m as [|[j u] m IH]; simpl; [reflexivity|].
  destruct (Nat.eqb k j); simpl; [reflexivity|now rewrite IH].
Qed.

Lemma length_mdelete (V : Type) k (m : list (nat * V)) :
  (length (mdelete k m) <= length m)%nat.
Proof. unfold mdelete. apply filter_length_le. Qed.

Lemma related_length R r r' :
  related R r r' -> length (players r') = length (players r).
Proof.
  unfold related. intros H. symmetry. exact (Forall2_length H).
Qed.

Lemma spawnInto_length id r w :
  length (players (fst (spawnInto id r w))) = length (players r).
Proof.
  unfold spawnInto. destruct (safeSpawn r w) as [sp w1]. simpl.
  apply length_mupdate.
Qed.

Lemma onJoin_length id r w :
  (length (players r) <= 4 ->
   length (players (fst (onJoin id r w))) <= 4)%nat.
Proof.
  intros Hle. unfold onJoin.
  destruct (4 <=? length (players r))%nat eqn:E; [exact Hle|].
  apply Nat.leb_gt in E.
  set (r1 := withPlayers _ r).
  assert (H1 : (length (players r1) <= 4)%nat).
  { pose proof (length_mset id newPlayer (players r)). simpl. lia. }
  pose proof (spawnInto_length id r1 w) as H2.
  destruct (spawnInto id r1 w) as [r2 w2]. rewrite announce_fst.
  cbn [fst] in H2. destruct (food r2); [cbn [fst]; lia|].
  rewrite placeFood_players. lia.
Qed.

Lemma tick_length fuel r w s' :
  tick fuel r w = Some s' -> length (players (fst s')) = length (players r).
Proof.
  intros Ht. apply (@related_length (fun _ _ _ => True)).
  refine (@related_tick (inputs r) (fun _ _ _ => True)
            _ _ _ _ _ _ _ _ fuel r w s' Ht eq_refl); auto.
Qed.

Lemma startRound_length r w :
  length (players (fst (startRound r w))) = length (players r).
Proof.
  apply (@related_length (fun _ _ _ => True)).
  apply related_startRound; auto.
Qed.

Lemma handle_length e s s' :
  handle e s = Some s' ->
  (length (players (fst s)) <= 4 -> length (players (fst s')) <= 4)%nat.
Proof.
  destruct e as [id| |id msg|id|fuel]; simpl.
  - intros [= <-]. apply onJoin_length.
  - intros [= <-]. simpl. now rewrite startRound_length.
  - intros [= <-]. simpl. unfold onInput.
    destruct (m_dir msg) as [[[dx|] [dy|]]|]; try tauto.
    destruct (getPlayer id _) as [p|]; [|tauto].
    destruct (_ <? _); [|tauto]. simpl. now rewrite length_mupdate.
  - intros [= <-]. unfold onClose.
    pose proof (length_mdelete id (players (fst s))).
    destruct (_ =? _)%nat; simpl; lia.
  - intros Ht. now rewrite (@tick_length fuel _ _ _ Ht).
Qed.

(** X7. A room never has more than four members.  A join request to a room
    that has four players is refused: the room is returned as it is and the
    only frame sent is the error, to the requester.  From the creation of
    the room (one member) on, every join, start, input, close and tick
    keeps the number of players at most 4 (a tick with an allowance of two
    rounds always returns). *)
Theorem membership_at_most_four evs :
  Forall enoughFuel evs ->
  (forall id r w,
     (4 <= length (players r))%nat ->
     onJoin id r w = (r, send id MsgError w)) /\
  (forall id c w,
     exists s', run evs (onCreate id c w) = Some s' /\
                (length (players (fst s')) <= 4)%nat) /\
  (forall s,
     (length (players (fst s)) <= 4)%nat -> (0 < cps (fst s))%Q ->
     exists s', run evs s = Some s' /\
                (length (players (fst s')) <= 4)%nat).
Proof.
  intros Hf.
  assert (Hgen : forall l s s', run l s = Some s' ->
            (length (players (fst s)) <= 4 ->
             length (players (fst s')) <= 4)%nat).
  { induction l as [|e l IH]; intros s s'; simpl.
    - now intros [= <-].
    - destruct (handle e s) as [s1|] eqn:E; [|discriminate].
      intros Hr Hs. apply (IH _ _ Hr). exact (handle_length _ _ E Hs). }
  assert (Hrun : forall s,
     (length (players (fst s)) <= 4)%nat -> (0 < cps (fst s))%Q ->
     exists s', run evs s = Some s' /\
                (length (players (fst s')) <= 4)%nat).
  { intros s Hs Hc. destruct (run_total s Hc Hf) as [s' Hr].
    exists s'. split; [exact Hr|]. exact (Hgen evs s s' Hr Hs). }
  split; [|split; [|exact Hrun]].
  - intros id r w Hfull. unfold onJoin.
    apply Nat.leb_le in Hfull. now rewrite Hfull.
  - intros id c w. apply Hrun.
    + unfold onCreate, createRoom, now. cbv beta iota.
      set (r1 := withPlayers _ _).
      match goal with |- context [spawnInto id r1 ?w0] =>
        pose proof (spawnInto_length id r1 w0) as Hl;
        destruct (spawnInto id r1 w0) as [r2 w2] end.
      rewrite announce_fst, placeFood_players. simpl in Hl. rewrite Hl.
      simpl. lia.
    + assert (E : cps (fst (onCreate id c w)) = BASE_CPS).
      { unfold onCreate, createRoom, now. cbv beta iota.
        set (r1 := withPlayers _ _).
        pose proof (spawnInto_shell id r1) as Hs.
        match goal with |- context [spawnInto id r1 ?w0] =>
          specialize (Hs w0); destruct (spawnInto id r1 w0) as [r2 w2] end.
        rewrite announce_fst.
        rewrite (shell_cps (placeFood_shell r2 w2)).
        simpl in Hs. now rewrite (shell_cps Hs). }
      rewrite E. reflexivity.
Qed.

Lemma membership_at_most_four_witness :
  onJoin 9 (withPlayers [(1%nat, newPlayer); (2%nat, newPlayer);
                         (3%nat, newPlayer); (4%nat, newPlayer)]
                        (fst emptyLobby)) (snd emptyLobby)
  = (withPlayers [(1%nat, newPlayer); (2%nat, newPlayer);
                  (3%nat, newPlayer); (4%nat, newPlayer)] (fst emptyLobby),
     send 9 MsgError (snd emptyLobby)) /\
  exists s', run [EJoin 2; EJoin 3; EJoin 4; EJoin 5; EStart; ETick 2]
                 ticking = Some s' /\
             (length (players (fst s')) <= 4)%nat.
Proof.
  assert (Hf : Forall enoughFuel
                 [EJoin 2; EJoin 3; EJoin 4; EJoin 5; EStart; ETick 2]).
  { repeat constructor. }
  assert (Hl : (length (players (fst ticking)) <= 4)%nat)
    by (vm_compute; repeat constructor).
  assert (Hc : (0 < cps (fst ticking))%Q) by (vm_compute; reflexivity).
  destruct (membership_at_most_four Hf) as (Hfull & _ & Hrun).
  split.
  - apply Hfull. simpl. lia.
  - exact (Hrun ticking Hl Hc).
Defined.

(** ** Spawn placement *)

Lemma spawnPreset_shape l r sp :
  spawnPreset l r = Some sp ->
  exists h d, In (h, d) l /\ sp = mkSpawn (trail h d) d /\
              forallb (clearOfSnakes r) (trail h d) = true.
Proof.
  induction l as [|[h d] l IH]; [discriminate|].
  unfold spawnPreset; fold spawnPreset.
  destruct (forallb inGrid (trail h d)
            && forallb (clearOfSnakes r) (trail h d)) eqn:E.
  - intros [= Hsp]. apply andb_true_iff in E as [_ E].
    exists h, d. split; [now left|]. now split.
  - intros H. destruct (IH H) as (h' & d' & Hin & Hsp & Hc).
    exists h', d'. split; [now right|]. now split.
Qed.

Lemma spawnRandom_shape n r w :
  match fst (spawnRandom n r w) with
  | Some sp => exists h d, In d headings /\ sp = mkSpawn (trail h d) d /\
                           In h (freeCells r)
  | None => True
  end.
Proof.
  revert w. induction n as [|n IH]; intros w; [exact I|].
  unfold spawnRandom; fold spawnRandom.
  pose proof (randomFreeCell_spec r w) as Hfree.
  destruct (randomFreeCell r w) as [[h|] w1]; [|exact I].
  cbn [fst] in Hfree. unfold draw. cbv beta iota.
  set (k := (_ mod 4)%nat). set (w2 := mkWorld _ _ _ _ _ _ _).
  destruct (forallb inGrid (trail h (nth k headings (cell 1 0)))) eqn:E;
    [|apply IH].
  cbn [fst]. exists h, (nth k headings (cell 1 0)).
  split; [|now split].
  assert (Hk : (k < 4)%nat) by (apply Nat.mod_upper_bound; discriminate).
  apply nth_In. exact Hk.
Qed.

Lemma clearOfSnakes_bodies r c :
  clearOfSnakes r c = true <-> ~ In c (bodies r).
Proof.
  unfold clearOfSnakes. rewrite forallb_forall, In_bodies. split.
  - intros H (ip & Hip & Hc). specialize (H ip Hip).
    apply negb_true_iff, has_false in H. contradiction.
  - intros H ip Hip. apply negb_true_iff, has_false. intros Hc.
    apply H. now exists ip.
Qed.

Lemma safeSpawn_shape r w :
  exists h d,
    axisUnit d /\
    fst (safeSpawn r w) = mkSpawn (trail h d) d /\
    Forall (fun c => inGrid c = true) (trail h d).
Proof.
  pose proof (safeSpawn_ok r w) as [Hg Hd]. unfold safeSpawn in *.
  destruct (spawnPreset presets r) as [sp|] eqn:E.
  - destruct (spawnPreset_shape _ _ E) as (h & d & _ & -> & _).
    exists h, d. cbn [fst sp_snake sp_dir] in *.
    split; [now apply axisUnit_headings|]. now split.
  - pose proof (spawnRandom_shape 300 r w) as H.
    destruct (spawnRandom 300 r w) as [[sp|] w1]; cbn [fst] in *.
    + destruct H as (h & d & Hin & -> & _). exists h, d.
      split; [now apply axisUnit_headings|]. now split.
    + exists (cell 3 1), (cell 1 0). split; [now left|].
      split; [reflexivity|]. repeat constructor.
Qed.

(** X8. [safeSpawn] always gives a straight body of three cells on the
    grid, tail first and head last, laid out against one of the four
    axis-aligned unit directions, which is the direction it gives.  When
    one of the corner presets is accepted, no cell of the body is covered
    by any existing body and no random number is drawn; when no preset is
    accepted and the random fallback gives the body, its head is a cell
    covered by no body and different from the food (the two other cells
    are not checked). *)
Theorem safeSpawn_gives_straight_body r w :
  (exists h d,
     axisUnit d /\
     fst (safeSpawn r w) = mkSpawn (trail h d) d /\
     Forall (fun c => inGrid c = true) (trail h d)) /\
  (forall sp, spawnPreset presets r = Some sp ->
     safeSpawn r w = (sp, w) /\
     forall c, In c (sp_snake sp) -> ~ In c (bodies r)) /\
  (forall sp, spawnPreset presets r = None ->
     fst (spawnRandom 300 r w) = Some sp ->
     exists h d, fst (safeSpawn r w) = mkSpawn (trail h d) d /\
                 ~ In h (bodies r) /\ food r <> Some h).
Proof.
  split; [|split].
  - exact (safeSpawn_shape r w).
  - intros sp E. unfold safeSpawn. rewrite E. split; [reflexivity|].
    destruct (spawnPreset_shape _ _ E) as (h & d & _ & -> & Hc).
    intros c Hin. cbn [sp_snake] in Hin.
    rewrite forallb_forall in Hc. now apply clearOfSnakes_bodies, Hc.
  - intros sp E Hr. unfold safeSpawn. rewrite E.
    pose proof (spawnRandom_shape 300 r w) as H.
    destruct (spawnRandom 300 r w) as [[sp'|] w1]; cbn [fst] in *;
      [|discriminate].
    destruct H as (h & d & _ & -> & Hfree). exists h, d.
    split; [reflexivity|].
    apply In_freeCells in Hfree as (_ & Hb & Hf). now split.
Qed.

Lemma safeSpawn_gives_straight_body_witness :
  safeSpawn (fst emptyLobby) (snd emptyLobby)
  = (mkSpawn [cell 1 3; cell 2 3; cell 3 3] (cell 1 0), snd emptyLobby) /\
  exists h d,
    fst (safeSpawn (fst fullLobby) (snd fullLobby)) = mkSpawn (trail h d) d /\
    ~ In h (bodies (fst fullLobby)) /\ food (fst fullLobby) <> Some h.
Proof.
  assert (E : spawnPreset presets (fst emptyLobby)
              = Some (mkSpawn [cell 1 3; cell 2 3; cell 3 3] (cell 1 0)))
    by (vm_compute; reflexivity).
  assert (En : spawnPreset presets (fst fullLobby) = None)
    by (vm_compute; reflexivity).
  assert (Er : fst (spawnRandom 300 (fst fullLobby) (snd fullLobby))
               = Some (mkSpawn [cell 2 0; cell 3 0; cell 4 0] (cell 1 0)))
    by (vm_compute; reflexivity).
  split.
  - exact (proj1 (proj1 (proj2 (safeSpawn_gives_straight_body
                                  (fst emptyLobby) (snd emptyLobby))) _ E)).
  - exact (proj2 (proj2 (safeSpawn_gives_straight_body
                           (fst fullLobby) (snd fullLobby))) _ En Er).
Defined.

(** ** Joining and leaving, continued *)

Lemma mget_mdelete_same (V : Type) k (m : list (nat * V)) :
  mget k (mdelete k m) = None.
Proof.
  induction m as [|[j u] m IH]; simpl; [reflexivity|].
  destruct (Nat.eqb j k) eqn:E; simpl; [exact IH|].
  rewrite Nat.eqb_sym, E. exact IH.
Qed.

Lemma mget_mdelete_other (V : Type) k k' (m : list (nat * V)) :
  k <> k' -> mget k (mdelete k' m) = mget k m.
Proof.
  intros Hne. induction m as [|[j u] m IH]; simpl; [reflexivity|].
  destruct (Nat.eqb j k') eqn:E; simpl.
  - apply Nat.eqb_eq in E. subst j.
    destruct (Nat.eqb k k') eqn:E'; [|exact IH].
    apply Nat.eqb_eq in E'. contradiction.
  - destruct (Nat.eqb k j); [reflexivity|exact IH].
Qed.

Lemma announce_outbox id s :
  outbox (snd (announce id s))
  = outbox (snd s)
    ++ [([id], MsgJoined (roomSnapshot (fst s)) id);
        (ids (fst s), MsgPlayers (roomSnapshot (fst s)))].
Proof.
  unfold announce, broadcast, send, emit. simpl.
  now rewrite <- app_assoc.
Qed.

(** X9. A join request to a room with fewer than four players admits the
    requester: afterwards the room has, under the requester's id, a player
    alive with score 0, no respawn deadline, acknowledged sequence number 0
    and the straight three-cell body and direction of [safeSpawn]; the
    other players are as they were and a food already present is kept.  The
    last two frames sent are the joined frame, to the requester alone, and
    the players frame, to every member, both showing the room as the join
    leaves it.  A connection that joins again is reset in the same way. *)
Theorem join_admits_fresh_player id r w :
  (length (players r) < 4)%nat ->
  (exists p' h d,
     getPlayer id (fst (onJoin id r w)) = Some p' /\
     p' = mkPlayer 0 true None (trail h d) d 0 /\
     axisUnit d /\ Forall (fun c => inGrid c = true) (trail h d)) /\
  (forall k, k <> id ->
     getPlayer k (fst (onJoin id r w)) = getPlayer k r) /\
  (forall f, food r = Some f -> food (fst (onJoin id r w)) = Some f) /\
  (exists o,
     outbox (snd (onJoin id r w))
     = o ++ [([id], MsgJoined (roomSnapshot (fst (onJoin id r w))) id);
             (ids (fst (onJoin id r w)),
              MsgPlayers (roomSnapshot (fst (onJoin id r w))))]).
Proof.
  intros Hlt. unfold onJoin.
  replace (4 <=? length (players r))%nat with false
    by (symmetry; apply Nat.leb_gt; exact Hlt).
  set (r1 := withPlayers (mset id newPlayer (players r)) r).
  assert (H1 : getPlayer id r1 = Some newPlayer) by apply mget_mset_same.
  assert (H1o : forall k, k <> id -> getPlayer k r1 = getPlayer k r).
  { intros k Hne. unfold getPlayer, r1. simpl. now apply mget_mset_other. }
  destruct (safeSpawn_shape r1 w)
    as (h & d & Hax & Hsp & Hg).
  pose proof (spawnInto_food id r1 w) as Hfood.
  assert (H2 : getPlayer id (fst (spawnInto id r1 w))
               = Some (mkPlayer 0 true None (trail h d) d 0)).
  { unfold spawnInto. destruct (safeSpawn r1 w) as [sp w1].
    cbn [fst] in *. subst sp.
    rewrite getPlayer_modPlayer_same, H1. reflexivity. }
  assert (H2o : forall k, k <> id ->
                  getPlayer k (fst (spawnInto id r1 w)) = getPlayer k r).
  { intros k Hne. unfold spawnInto. destruct (safeSpawn r1 w) as [sp w1].
    cbn [fst]. rewrite getPlayer_modPlayer_other by exact Hne.
    now apply H1o. }
  destruct (spawnInto id r1 w) as [r2 w2]. cbn [fst] in *.
  set (s3 := match food r2 with
             | Some _ => (r2, w2)
             | None => placeFood r2 w2
             end).
  assert (H3 : forall k, getPlayer k (fst s3) = getPlayer k r2).
  { intros k. unfold s3. destruct (food r2); [reflexivity|].
    apply getPlayer_placeFood. }
  rewrite announce_fst. split; [|split; [|split]].
  - exists (mkPlayer 0 true None (trail h d) d 0), h, d.
    rewrite H3. now repeat split.
  - intros k Hne. rewrite H3. now apply H2o.
  - intros f Hf. unfold s3. simpl in Hfood. rewrite Hfood, Hf. simpl.
    now rewrite Hfood.
  - exists (outbox (snd s3)). apply announce_outbox.
Qed.

Lemma join_admits_fresh_player_witness :
  getPlayer 1 (fst (onJoin 2 (fst ticking) (snd ticking)))
  = getPlayer 1 (fst ticking).
Proof.
  assert (Hl : (length (players (fst ticking)) < 4)%nat)
    by (vm_compute; repeat constructor).
  assert (Hne : 1%nat <> 2%nat) by discriminate.
  exact (proj1 (proj2 (@join_admits_fresh_player 2 (fst ticking)
                         (snd ticking) Hl)) 1%nat Hne).
Defined.

(** X10. When a connection closes, its player and its buffered input are
    removed from the room and nothing else changes: the other players and
    their buffered inputs, the state, the food and the times stay as they
    are.  When players remain, the players frame is sent to them and the
    timers are left alone; when the room becomes empty, no frame is sent
    and the room's tick timer, if it has one, is disarmed. *)
Theorem close_removes_only_the_leaver id r w :
  getPlayer id (fst (onClose id r w)) = None /\
  mget id (inputs (fst (onClose id r w))) = None /\
  (forall k, k <> id ->
     getPlayer k (fst (onClose id r w)) = getPlayer k r /\
     mget k (inputs (fst (onClose id r w))) = mget k (inputs r)) /\
  (state (fst (onClose id r w)) = state r /\
   food (fst (onClose id r w)) = food r /\
   startedAt (fst (onClose id r w)) = startedAt r /\
   endsAt (fst (onClose id r w)) = endsAt r) /\
  (players (fst (onClose id r w)) <> [] ->
   snd (onClose id r w)
   = broadcast (fst (onClose id r w))
               (MsgPlayers (roomSnapshot (fst (onClose id r w)))) w) /\
  (players (fst (onClose id r w)) = [] ->
   outbox (snd (onClose id r w)) = outbox w /\
   forall h, tickHandle r = Some h ->
             ~ In h (intervals (snd (onClose id r w)))).
Proof.
  unfold onClose.
  set (r1 := withPlayers (mdelete id (players r))
                         (withInputs (mdelete id (inputs r)) r)).
  assert (Hfst : fst (if (length (players r1) =? 0)%nat
                      then (r1, match tickHandle r1 with
                                | Some h => clearInterval h w
                                | None => w
                                end)
                      else (r1, broadcast r1
                                  (MsgPlayers (roomSnapshot r1)) w)) = r1)
    by (now destruct (_ =? _)%nat).
  rewrite Hfst. split; [apply mget_mdelete_same|].
  split; [apply mget_mdelete_same|].
  split; [intros k Hne; split; now apply mget_mdelete_other|].
  split; [now repeat split|]. split.
  - intros Hne. destruct (length (players r1) =? 0)%nat eqn:E;
      [|reflexivity].
    apply Nat.eqb_eq, length_zero_iff_nil in E. contradiction.
  - intros Hnil. rewrite Hnil. simpl.
    change (tickHandle r1) with (tickHandle r).
    destruct (tickHandle r) as [h|]; simpl.
    + split; [reflexivity|]. intros h' [= <-] Hin.
      apply filter_In in Hin as [_ Hneq]. now rewrite Nat.eqb_refl in Hneq.
    + split; [reflexivity|]. discriminate.
Qed.

Lemma close_removes_only_the_leaver_witness :
  outbox (snd (onClose 1 (fst ticking) (snd ticking)))
  = outbox (snd ticking) /\
  snd (onClose 4 (fst fullLobby) (snd fullLobby))
  = broadcast (fst (onClose 4 (fst fullLobby) (snd fullLobby)))
      (MsgPlayers (roomSnapshot (fst (onClose 4 (fst fullLobby)
                                               (snd fullLobby)))))
      (snd fullLobby).
Proof.
  assert (He : players (fst (onClose 1 (fst ticking) (snd ticking))) = [])
    by (vm_compute; reflexivity).
  assert (Hn : players (fst (onClose 4 (fst fullLobby) (snd fullLobby)))
               <> [])
    by (vm_compute; discriminate).
  destruct (close_removes_only_the_leaver 1 (fst ticking) (snd ticking))
    as (_ & _ & _ & _ & _ & Hempty).
  destruct (close_removes_only_the_leaver 4 (fst fullLobby) (snd fullLobby))
    as (_ & _ & _ & _ & Hrest & _).
  split; [exact (proj1 (Hempty He))|exact (Hrest Hn)].
Defined.

(** ** Death and respawn *)

Lemma killPlayer_alive id reason r w p :
  getPlayer id r = Some p ->
  alive p = true ->
  getPlayer id (fst (killPlayer id reason r w))
  = Some (mkPlayer (score p) false (Some (clock w (clockReads w) + 2000)) []
                   (dir p) (lastSeq p)).
Proof.
  intros Hp Ha. unfold killPlayer. rewrite Hp, Ha. simpl.
  rewrite getPlayer_modPlayer_same, Hp. reflexivity.
Qed.

Lemma killPlayer_outbox id reason r w p :
  getPlayer id r = Some p ->
  alive p = true ->
  outbox (snd (killPlayer id reason r w))
  = outbox w ++ [(ids r, MsgDeath id reason (clock w (clockReads w) + 2000))].
Proof.
  intros Hp Ha. unfold killPlayer. rewrite Hp, Ha. simpl.
  unfold broadcast, emit. simpl. now rewrite ids_modPlayer.
Qed.

(** X11. Killing a player that is alive marks it not alive, empties its
    body at once and sets its respawn deadline to the clock reading plus
    2000, keeping its score, direction and acknowledged sequence number;
    the other players, the food and the rest of the room are as they were,
    and exactly one frame is sent, the death frame with the player's id,
    the reason and the deadline, to every member. *)
Theorem kill_empties_body_and_sets_deadline id reason r w p :
  getPlayer id r = Some p ->
  alive p = true ->
  getPlayer id (fst (killPlayer id reason r w))
  = Some (mkPlayer (score p) false (Some (clock w (clockReads w) + 2000)) []
                   (dir p) (lastSeq p)) /\
  (forall k, k <> id ->
     getPlayer k (fst (killPlayer id reason r w)) = getPlayer k r) /\
  shell (fst (killPlayer id reason r w)) = shell r /\
  food (fst (killPlayer id reason r w)) = food r /\
  outbox (snd (killPlayer id reason r w))
  = outbox w ++ [(ids r, MsgDeath id reason (clock w (clockReads w) + 2000))].
Proof.
  intros Hp Ha. split; [|split; [|split; [|split]]].
  - now apply killPlayer_alive.
  - intros k Hne. now apply killPlayer_other.
  - apply killPlayer_shell.
  - unfold killPlayer. now rewrite Hp, Ha.
  - now apply (@killPlayer_outbox id reason r w p).
Qed.

Lemma kill_empties_body_and_sets_deadline_witness :
  outbox (snd (killPlayer 1 wall (fst ticking) (snd ticking)))
  = outbox (snd ticking)
    ++ [(ids (fst ticking),
         MsgDeath 1 wall (clock (snd ticking) (clockReads (snd ticking))
                          + 2000))].
Proof.
  assert (Hp : getPlayer 1 (fst ticking)
               = Some (mkPlayer 0 true None
                                [cell 18 3; cell 17 3; cell 16 3]
                                (cell (-1) 0) 0))
    by (vm_compute; reflexivity).
  exact (proj2 (proj2 (proj2 (proj2
           (@kill_empties_body_and_sets_deadline 1 wall (fst ticking)
              (snd ticking) _ Hp eq_refl))))).
Defined.

(** X12. A player is respawned only when it is not alive, has a respawn
    deadline, and the clock has reached it.  [maybeRespawn] does nothing at
    all to a player that is alive or has no deadline (or the deadline 0);
    before the deadline it leaves the room as it is and sends nothing; at
    or after the deadline it makes the player alive, clears the deadline,
    gives it the body and direction of [safeSpawn], keeps its score and
    acknowledged sequence number, leaves the other players as they are,
    and sends the respawn frame as last frame. *)
Theorem respawn_only_after_deadline id r w p :
  getPlayer id r = Some p ->
  (alive p = true \/ respawnAt p = None \/ respawnAt p = Some 0 ->
   maybeRespawn id r w = (r, w)) /\
  (forall d,
     alive p = false -> respawnAt p = Some d -> d <> 0 ->
     (clock w (clockReads w) < d ->
      fst (maybeRespawn id r w) = r /\
      outbox (snd (maybeRespawn id r w)) = outbox w) /\
     (d <= clock w (clockReads w) ->
      exists h dv o,
        axisUnit dv /\ Forall (fun c => inGrid c = true) (trail h dv) /\
        getPlayer id (fst (maybeRespawn id r w))
        = Some (mkPlayer (score p) true None (trail h dv) dv (lastSeq p)) /\
        (forall k, k <> id ->
           getPlayer k (fst (maybeRespawn id r w)) = getPlayer k r) /\
        outbox (snd (maybeRespawn id r w))
        = o ++ [(ids r, MsgRespawn id (trail h dv) dv)])).
Proof.
  intros Hp. split.
  - intros H. unfold maybeRespawn. rewrite Hp.
    destruct (alive p); [reflexivity|].
    destruct H as [H|[H|H]]; [discriminate|now rewrite H|now rewrite H].
  - intros d Ha Hd Hnz. unfold maybeRespawn. rewrite Hp, Ha, Hd.
    replace (d =? 0) with false by (symmetry; now apply Z.eqb_neq).
    unfold now. cbv beta iota.
    set (w1 := mkWorld _ _ _ _ _ _ _). split.
    + intros Hlt. apply Z.ltb_lt in Hlt. rewrite Hlt. now split.
    + intros Hge. apply Z.ltb_ge in Hge. rewrite Hge.
      destruct (safeSpawn_shape r w1)
        as (h & dv & Hax & Hsp & Hg).
      destruct (safeSpawn r w1) as [sp w2]. cbn [fst snd] in *. subst sp.
      exists h, dv, (outbox w2). cbn [sp_snake sp_dir].
      split; [exact Hax|]. split; [exact Hg|]. split; [|split].
      * rewrite getPlayer_modPlayer_same, Hp. reflexivity.
      * intros k Hne. now apply getPlayer_modPlayer_other.
      * unfold broadcast, emit. simpl. now rewrite ids_modPlayer.
Qed.

Lemma respawn_only_after_deadline_witness :
  maybeRespawn 1 (fst ticking) (snd ticking) = (fst ticking, snd ticking) /\
  fst (maybeRespawn 1 (fst killedOnce) (snd killedOnce)) = fst killedOnce /\
  exists h dv o,
    axisUnit dv /\ Forall (fun c => inGrid c = true) (trail h dv) /\
    getPlayer 1 (fst (maybeRespawn 1 (fst killedLong) (snd killedLong)))
    = Some (mkPlayer 0 true None (trail h dv) dv 0) /\
    (forall k, k <> 1%nat ->
       getPlayer k (fst (maybeRespawn 1 (fst killedLong) (snd killedLong)))
       = getPlayer k (fst killedLong)) /\
    outbox (snd (maybeRespawn 1 (fst killedLong) (snd killedLong)))
    = o ++ [(ids (fst killedLong), MsgRespawn 1 (trail h dv) dv)].
Proof.
  assert (Hp : getPlayer 1 (fst ticking)
               = Some (mkPlayer 0 true None
                                [cell 18 3; cell 17 3; cell 16 3]
                                (cell (-1) 0) 0))
    by (vm_compute; reflexivity).
  assert (Hk : getPlayer 1 (fst killedOnce)
               = Some (mkPlayer 0 false (Some 3000) [] (cell (-1) 0) 0))
    by (vm_compute; reflexivity).
  assert (Hl : getPlayer 1 (fst killedLong)
               = Some (mkPlayer 0 false (Some 3000) [] (cell (-1) 0) 0))
    by (vm_compute; reflexivity).
  assert (Hlt : clock (snd killedOnce) (clockReads (snd killedOnce)) < 3000)
    by (vm_compute; reflexivity).
  assert (Hge : 3000 <= clock (snd killedLong) (clockReads (snd killedLong)))
    by (vm_compute; discriminate).
  split; [|split].
  - exact (proj1 (@respawn_only_after_deadline 1 (fst ticking) (snd ticking)
                    _ Hp) (or_introl eq_refl)).
  - refine (proj1 (proj1 (proj2 (@respawn_only_after_deadline 1
                     (fst killedOnce) (snd killedOnce) _ Hk) 3000
                     eq_refl eq_refl _) Hlt)). discriminate.
  - refine (proj2 (proj2 (@respawn_only_after_deadline 1
                     (fst killedLong) (snd killedLong) _ Hl) 3000
                     eq_refl eq_refl _) Hge). discriminate.
Defined.

(** ** What the operations leave of the world's timers and of the room *)

Lemma randomFreeCell_timers r w :
  timers (snd (randomFreeCell r w)) = timers w.
Proof. unfold randomFreeCell. now destruct (freeCells r). Qed.

Lemma placeFood_timers r w : timers (snd (placeFood r w)) = timers w.
Proof.
  unfold placeFood. pose proof (randomFreeCell_timers r w) as H.
  now destruct (randomFreeCell r w).
Qed.

Lemma spawnRandom_timers n r :
  forall w, timers (snd (spawnRandom n r w)) = timers w.
Proof.
  induction n as [|n IH]; intros w; [reflexivity|].
  unfold spawnRandom; fold spawnRandom.
  pose proof (randomFreeCell_timers r w) as H.
  destruct (randomFreeCell r w) as [[h|] w1]; cbn [snd] in *; [|exact H].
  unfold draw. cbv beta iota. set (w2 := mkWorld _ _ _ _ _ _ _).
  destruct (forallb inGrid _); [exact H|].
  rewrite IH. exact H.
Qed.

Lemma safeSpawn_timers r w : timers (snd (safeSpawn r w)) = timers w.
Proof.
  unfold safeSpawn. destruct (spawnPreset presets r); [reflexivity|].
  pose proof (spawnRandom_timers 300 r w) as H.
  now destruct (spawnRandom 300 r w) as [[sp|] w1].
Qed.

Lemma killPlayer_timers id reason r w :
  timers (snd (killPlayer id reason r w)) = timers w.
Proof.
  unfold killPlayer. destruct (getPlayer id r) as [p|]; [|reflexivity].
  now destruct (alive p).
Qed.

Lemma maybeRespawn_timers id r w :
  timers (snd (maybeRespawn id r w)) = timers w.
Proof.
  unfold maybeRespawn. destruct (getPlayer id r) as [p|]; [|reflexivity].
  destruct (alive p); [reflexivity|].
  destruct (respawnAt p) as [d|]; [|reflexivity].
  destruct (d =? 0); [reflexivity|]. unfold now. cbv beta iota.
  set (w1 := mkWorld _ _ _ _ _ _ _).
  destruct (_ <? d); [reflexivity|].
  pose proof (safeSpawn_timers r w1) as H.
  now destruct (safeSpawn r w1).
Qed.

Lemma resetPlayer_timers id r w :
  timers (snd (resetPlayer id r w)) = timers w.
Proof.
  unfold resetPlayer. pose proof (safeSpawn_timers r w) as H.
  now destruct (safeSpawn r w).
Qed.

Lemma spawnInto_timers id r w :
  timers (snd (spawnInto id r w)) = timers w.
Proof.
  unfold spawnInto. pose proof (safeSpawn_timers r w) as H.
  now destruct (safeSpawn r w).
Qed.

Lemma forEach_timers f l :
  (forall id r w, timers (snd (f id r w)) = timers w) ->
  forall r w, timers (snd (forEach f l r w)) = timers w.
Proof.
  intros Hf. induction l as [|k l IH]; intros r w; simpl; [reflexivity|].
  specialize (Hf k r w). destruct (f k r w) as [r1 w1].
  rewrite IH. exact Hf.
Qed.

Lemma resolveMove_timers occ m r w :
  timers (snd (resolveMove occ m r w)) = timers w.
Proof.
  unfold resolveMove.
  destruct (_ || _); [apply killPlayer_timers|].
  destruct (has occ _); [apply killPlayer_timers|].
  destruct (isFood _ m); [|reflexivity]. apply placeFood_timers.
Qed.

Lemma moveStep_timers r w : timers (snd (moveStep r w)) = timers w.
Proof.
  unfold moveStep. generalize (bodies r) (nextHeads r). intros occ l.
  revert r w. induction l as [|m l IH]; intros r w; simpl; [reflexivity|].
  pose proof (resolveMove_timers occ m r w) as H.
  destruct (resolveMove occ m r w) as [r1 w1]. rewrite IH. exact H.
Qed.

Lemma moveRound_frame step s :
  frame (fst (moveRound step s)) = frame (fst s) /\
  timers (snd (moveRound step s)) = timers (snd s).
Proof.
  unfold moveRound.
  pose proof (moveStep_shell (applyInputs (fst s)) (snd s)) as H.
  pose proof (moveStep_timers (applyInputs (fst s)) (snd s)) as Ht.
  destruct (moveStep (applyInputs (fst s)) (snd s)) as [r1 w1].
  cbn [fst snd] in *. split; [|exact Ht].
  unfold frame. change (shell (withMoveAcc (moveAcc r1 - step) r1))
    with (withMoveAcc (moveAcc r1 - step) (shell r1)).
  rewrite H. reflexivity.
Qed.

Lemma moveLoop_keeps fuel step :
  forall s s', moveLoop fuel step s = Some s' ->
               frame (fst s') = frame (fst s) /\
               timers (snd s') = timers (snd s).
Proof.
  induction fuel as [|fuel IH]; intros s s'; simpl;
    destruct (Qle_bool step (moveAcc (fst s)));
    try discriminate; try (intros [= <-]; now split).
  intros Hl. destruct (IH _ _ Hl) as [Hf Ht].
  destruct (moveRound_frame step s) as [Hf' Ht']. split; congruence.
Qed.

Lemma tickPrepare_frame r w :
  frame (fst (tickPrepare r w)) = frame r /\
  timers (snd (tickPrepare r w)) = timers w.
Proof.
  unfold tickPrepare.
  pose proof (forEach_shell maybeRespawn (ids r) maybeRespawn_shell r w) as H.
  pose proof (forEach_timers maybeRespawn (ids r) maybeRespawn_timers r w)
    as Ht.
  destruct (forEach maybeRespawn (ids r) r w) as [r2 w2].
  cbn [fst snd] in *. split; [|exact Ht].
  unfold frame.
  change (shell (withMoveAcc (accumulate (moveAcc (applyInputs r2))
                                         (1 / cps (applyInputs r2)))
                             (applyInputs r2)))
    with (withMoveAcc (accumulate (moveAcc (applyInputs r2))
                                  (1 / cps (applyInputs r2))) (shell r2)).
  rewrite H. reflexivity.
Qed.

Lemma related_ids R r r' : related R r r' -> ids r' = ids r.
Proof.
  unfold related, ids. generalize (players r) (players r').
  intros l l' H. induction H as [|a b l l' [Hk _] _ IH]; simpl;
    [reflexivity|]. now rewrite IH, Hk.
Qed.

Lemma tick_ids fuel r w s' : tick fuel r w = Some s' -> ids (fst s') = ids r.
Proof.
  intros Ht. apply (@related_ids (fun _ _ _ => True)).
  refine (@related_tick (inputs r) (fun _ _ _ => True)
            _ _ _ _ _ _ _ _ fuel r w s' Ht eq_refl); auto.
Qed.

(** The tick of a running room whose round is not over. *)
Lemma tick_going fuel r w s' :
  state r = running ->
  roundOver r (clock w (clockReads w)) = false ->
  tick fuel r w = Some s' ->
  frame (fst s') = frame (withTickNo (tickNo r + 1) r) /\
  timers (snd s') = timers w /\
  exists o,
    outbox (snd s')
    = o ++ [(ids r,
             MsgState (stateSnapshot (clock w (clockReads w)) (fst s')))].
Proof.
  intros Hs Ho Ht. pose proof (tick_ids _ _ _ Ht) as Hids.
  rewrite (tick_running fuel r w Hs Ho) in Ht.
  set (r1 := withTickNo (tickNo r + 1) r) in *.
  destruct (moveLoop fuel (1 / cps r)
              (tickPrepare r1 (snd (now w)))) as [s|] eqn:El;
    [|discriminate].
  injection Ht as <-.
  destruct (moveLoop_keeps _ _ _ El) as [Hf Hw].
  destruct (tickPrepare_frame r1 (snd (now w))) as [Hf' Hw'].
  cbn [fst snd tickFinish] in *. split; [congruence|]. split.
  - unfold broadcast, emit, timers in *. simpl in *. congruence.
  - exists (outbox (snd s)). unfold broadcast, emit. simpl.
    now rewrite Hids.
Qed.

(** ** The end of a round *)

Lemma tick_round_over fuel r w e :
  state r = running ->
  endsAt r = Some e ->
  e <> 0 ->
  e <= clock w (clockReads w) ->
  exists r' w',
    tick fuel r w = Some (r', w') /\
    state r' = ended /\ tickHandle r' = None /\
    tickNo r' = tickNo r + 1 /\
    players r' = players r /\ food r' = food r /\
    moveAcc r' = moveAcc r /\
    outbox w' = outbox w ++ [(ids r, MsgEnded (roomSnapshot r'))] /\
    forall h, tickHandle r = Some h -> ~ In h (intervals w').
Proof.
  intros Hs He Hnz Hge. unfold tick. rewrite Hs. simpl negb. cbv iota.
  unfold now. cbv beta iota.
  replace (roundOver (withTickNo (tickNo r + 1) r)
                     (clock w (clockReads w))) with true.
  2:{ unfold roundOver. cbn [endsAt withTickNo]. rewrite He.
      symmetry. apply andb_true_iff. split.
      - apply negb_true_iff. now apply Z.eqb_neq.
      - now apply Z.leb_le. }
  unfold endRound. cbn [state withTickNo]. rewrite Hs. simpl negb.
  cbv iota. eexists. eexists. split; [reflexivity|].
  cbn. repeat split.
  + unfold emit, broadcast. simpl. destruct (tickHandle r); reflexivity.
  + intros h Hh. rewrite Hh. simpl. intros Hin.
    apply filter_In in Hin as [_ Hneq]. now rewrite Nat.eqb_refl in Hneq.
Qed.

(** X13. A tick of a running room ends the round exactly when the clock
    has reached [endsAt].  When it has, the tick only counts itself,
    marks the room ended, clears [tickHandle], disarms the room's timer
    and sends one frame, the ended frame, to every member: no body moves
    and no state frame is sent.  When it has not (and the speed is
    positive, the allowance two rounds), the tick returns with the room
    still running, its times and timer as they were, the tick counter one
    higher, and the state frame, stamped with the clock reading and showing
    the room as the tick leaves it, as last frame. *)
Theorem round_ends_when_clock_reaches_endsAt fuel r w e :
  state r = running ->
  endsAt r = Some e ->
  e <> 0 ->
  (e <= clock w (clockReads w) ->
   exists r' w',
     tick fuel r w = Some (r', w') /\
     state r' = ended /\ tickHandle r' = None /\
     tickNo r' = tickNo r + 1 /\
     players r' = players r /\ food r' = food r /\
     moveAcc r' = moveAcc r /\
     outbox w' = outbox w ++ [(ids r, MsgEnded (roomSnapshot r'))] /\
     forall h, tickHandle r = Some h -> ~ In h (intervals w')) /\
  (clock w (clockReads w) < e ->
   (0 < cps r)%Q -> (2 <= fuel)%nat ->
   exists s',
     tick fuel r w = Some s' /\
     state (fst s') = running /\
     startedAt (fst s') = startedAt r /\ endsAt (fst s') = Some e /\
     tickHandle (fst s') = tickHandle r /\
     tickNo (fst s') = tickNo r + 1 /\
     intervals (snd s') = intervals w /\
     exists o,
       outbox (snd s')
       = o ++ [(ids r,
                MsgState (stateSnapshot (clock w (clockReads w))
                                        (fst s')))]).
Proof.
  intros Hs He Hnz. split.
  - intros Hge. exact (@tick_round_over fuel r w e Hs He Hnz Hge).
  - intros Hlt Hc Hf.
    assert (Ho : roundOver r (clock w (clockReads w)) = false).
    { unfold roundOver. rewrite He. apply andb_false_iff. right.
      now apply Z.leb_gt. }
    destruct (@tick_total fuel r w Hc Hf) as [s' Ht].
    destruct (tick_going _ _ _ Hs Ho Ht) as (Hfr & Htm & o & Hout).
    exists s'. split; [exact Ht|].
    pose proof (f_equal state Hfr) as E1.
    pose proof (f_equal startedAt Hfr) as E2.
    pose proof (f_equal endsAt Hfr) as E3.
    pose proof (f_equal tickHandle Hfr) as E4.
    pose proof (f_equal tickNo Hfr) as E5.
    simpl in E1, E2, E3, E4, E5.
    repeat split; try congruence.
    + now injection Htm.
    + now exists o.
Qed.

Lemma round_ends_when_clock_reaches_endsAt_witness :
  (exists r' w',
     tick 0 (fst lateTick) (snd lateTick) = Some (r', w') /\
     state r' = ended /\ tickHandle r' = None) /\
  (exists s',
     tick 2 (fst ticking) (snd ticking) = Some s' /\
     state (fst s') = running).
Proof.
  assert (Hs : state (fst lateTick) = running) by (vm_compute; reflexivity).
  assert (He : endsAt (fst lateTick) = Some 121000)
    by (vm_compute; reflexivity).
  assert (Hge : 121000 <= clock (snd lateTick) (clockReads (snd lateTick)))
    by (vm_compute; discriminate).
  assert (Hs2 : state (fst ticking) = running) by (vm_compute; reflexivity).
  assert (He2 : endsAt (fst ticking) = Some 121000)
    by (vm_compute; reflexivity).
  assert (Hlt : clock (snd ticking) (clockReads (snd ticking)) < 121000)
    by (vm_compute; reflexivity).
  assert (Hc : (0 < cps (fst ticking))%Q) by (vm_compute; reflexivity).
  assert (Hnz : 121000 <> 0) by discriminate.
  split.
  - destruct (proj1 (@round_ends_when_clock_reaches_endsAt 0 (fst lateTick)
                       (snd lateTick) 121000 Hs He Hnz) Hge)
      as (r' & w' & Ht & Hst & Hh & _).
    exists r', w'. now repeat split.
  - destruct (proj2 (@round_ends_when_clock_reaches_endsAt 2 (fst ticking)
                       (snd ticking) 121000 Hs2 He2 Hnz) Hlt Hc (le_n 2))
      as (s' & Ht & Hst & _).
    exists s'. now split.
Defined.

(** ** Timers *)

Lemma shell_handle r r' :
  shell r' = shell r -> tickHandle r' = tickHandle r.
Proof. intros H. exact (f_equal tickHandle H). Qed.

Lemma frame_fields r r' :
  frame r' = frame r ->
  state r' = state r /\ tickHandle r' = tickHandle r /\
  startedAt r' = startedAt r /\ endsAt r' = endsAt r /\
  tickNo r' = tickNo r.
Proof.
  intros H. repeat split.
  - exact (f_equal state H).
  - exact (f_equal tickHandle H).
  - exact (f_equal startedAt H).
  - exact (f_equal endsAt H).
  - exact (f_equal tickNo H).
Qed.

Lemma timers_intervals w w' :
  timers w' = timers w -> intervals w' = intervals w.
Proof. intros H. exact (f_equal snd H). Qed.

Lemma announce_timers id s : timers (snd (announce id s)) = timers (snd s).
Proof. reflexivity. Qed.

Lemma onJoin_keeps id r w :
  state (fst (onJoin id r w)) = state r /\
  tickHandle (fst (onJoin id r w)) = tickHandle r /\
  timers (snd (onJoin id r w)) = timers w.
Proof.
  unfold onJoin. destruct (_ <=? _)%nat; [now repeat split|].
  set (r1 := withPlayers _ r).
  pose proof (spawnInto_shell id r1 w) as H2.
  pose proof (spawnInto_timers id r1 w) as T2.
  destruct (spawnInto id r1 w) as [r2 w2]. cbn [fst snd] in *.
  rewrite announce_fst, announce_timers.
  destruct (food r2).
  - cbn [fst snd]. rewrite (shell_state H2), T2.
    split; [reflexivity|]. split; [exact (f_equal tickHandle H2)|reflexivity].
  - pose proof (placeFood_shell r2 w2) as H3.
    pose proof (placeFood_timers r2 w2) as T3.
    rewrite (shell_state H3), (shell_state H2), T3, T2.
    split; [reflexivity|]. split; [|reflexivity].
    rewrite (shell_handle H3). exact (shell_handle H2).
Qed.

Lemma onInput_keeps id msg r :
  state (onInput id msg r) = state r /\
  tickHandle (onInput id msg r) = tickHandle r.
Proof.
  unfold onInput. destruct (m_dir msg) as [[[dx|] [dy|]]|]; try (now split).
  destruct (getPlayer id _) as [p|]; [|now split].
  now destruct (_ <? _).
Qed.

Lemma startRound_timers r w :
  state r <> running ->
  exists h, tickHandle (fst (startRound r w)) = Some h /\
            intervals (snd (startRound r w)) = h :: intervals w.
Proof.
  intros Hs. unfold startRound.
  replace (state_eqb (state r) running) with false
    by (destruct (state r); try reflexivity; contradiction).
  unfold now. cbv beta iota.
  set (r2 := withTimes _ _ _). set (w1 := mkWorld _ _ _ _ _ _ _).
  pose proof (forEach_timers resetPlayer (ids r2) resetPlayer_timers r2 w1)
    as T3.
  destruct (forEach resetPlayer (ids r2) r2 w1) as [r3 w3].
  pose proof (placeFood_timers r3 w3) as T4.
  destruct (placeFood r3 w3) as [r4 w4]. cbn [fst snd] in *.
  eexists. split; [reflexivity|]. simpl.
  unfold timers in *. simpl in *. injection T3 as Hn3 Hi3.
  injection T4 as Hn4 Hi4. congruence.
Qed.

Lemma timerInv_handle e s s' :
  handle e s = Some s' -> timerInv s -> timerInv s'.
Proof.
  destruct s as [r w]. destruct e as [id| |id msg|id|fuel]; simpl.
  - intros [= <-]. unfold timerInv.
    destruct (onJoin_keeps id r w) as (Hs & Hh & Ht).
    cbn [fst snd]. rewrite Hs, Hh.
    rewrite (timers_intervals Ht).
    tauto.
  - intros [= <-]. unfold timerInv. cbn [fst snd].
    destruct (state_eqb (state r) running) eqn:E.
    + assert (Hs : state r = running)
        by (destruct (state r); now try discriminate).
      rewrite (startRound_running r w Hs). tauto.
    + assert (Hs : state r <> running) by (intros H; now rewrite H in E).
      rewrite (proj1 (@startRound_lifecycle r w Hs)).
      destruct (@startRound_timers r w Hs) as (h & Hh & Hi).
      intros Hinv. exists h. split; [exact Hh|]. left. rewrite Hi.
      destruct (state r); try contradiction; now rewrite (proj2 Hinv).
  - intros [= <-]. unfold timerInv. cbn [fst snd].
    destruct (onInput_keeps id msg r) as [Hs Hh]. rewrite Hs, Hh. tauto.
  - intros [= <-]. unfold timerInv, onClose.
    set (r1 := withPlayers _ _).
    assert (Hs : state r1 = state r) by reflexivity.
    assert (Hh : tickHandle r1 = tickHandle r) by reflexivity.
    cbn [fst snd]. destruct (_ =? _)%nat; cbn [fst snd]; rewrite Hs;
      [|rewrite Hh; tauto].
    rewrite Hh. destruct (state r).
    + intros [Hn Hi]. rewrite Hn. now split.
    + intros (h & Hn & Hi). exists h. split; [exact Hn|]. right.
      rewrite Hn. simpl. destruct Hi as [-> | ->]; simpl;
        [now rewrite Nat.eqb_refl|reflexivity].
    + intros [Hn Hi]. rewrite Hn. now split.
  - intros Ht Hinv. unfold timerInv in *. cbn [fst snd] in *.
    destruct (state_eqb (state r) running) eqn:E.
    + assert (Hs : state r = running)
        by (destruct (state r); now try discriminate).
      rewrite Hs in Hinv. destruct Hinv as (h & Hh & Hi).
      destruct (roundOver r (clock w (clockReads w))) eqn:Ho.
      * unfold roundOver in Ho. destruct (endsAt r) as [e|] eqn:He;
          [|discriminate].
        apply andb_true_iff in Ho as [Hnz Hge].
        apply negb_true_iff, Z.eqb_neq in Hnz. apply Z.leb_le in Hge.
        destruct (@tick_round_over fuel r w e Hs He Hnz Hge)
          as (r' & w' & Ht' & Hst & Hnone & _ & _ & _ & _ & Hout & _).
        rewrite Ht' in Ht. injection Ht as <-. cbn [fst snd].
        rewrite Hst. split; [exact Hnone|].
        unfold tick in Ht'. rewrite Hs in Ht'. simpl negb in Ht'.
        cbv iota in Ht'. unfold now in Ht'. cbv beta iota in Ht'.
        replace (roundOver (withTickNo (tickNo r + 1) r)
                           (clock w (clockReads w))) with true in Ht'.
        2:{ unfold roundOver. cbn [endsAt withTickNo]. rewrite He.
            symmetry. apply andb_true_iff. split.
            - apply negb_true_iff. now apply Z.eqb_neq.
            - now apply Z.leb_le. }
        unfold endRound in Ht'. cbn [state withTickNo] in Ht'.
        rewrite Hs in Ht'. simpl negb in Ht'. cbv iota in Ht'.
        injection Ht' as _ <-. cbn [tickHandle withState withTickNo].
        rewrite Hh. unfold broadcast, emit, clearInterval. simpl.
        destruct Hi as [-> | ->]; simpl;
          [now rewrite Nat.eqb_refl|reflexivity].
      * destruct (@tick_going fuel r w s' Hs Ho Ht) as (Hfr & Htm & _).
        destruct (frame_fields Hfr) as (Hst & Hth & _).
        rewrite Hst. simpl. rewrite Hs.
        exists h. split; [rewrite Hth; exact Hh|].
        rewrite (timers_intervals Htm). exact Hi.
    + unfold tick in Ht. rewrite E in Ht. injection Ht as <-. exact Hinv.
Qed.

(** X14. The room never leaks a timer.  In a world with no timer armed, from
    the creation of the room on, after every join, start, input, close and
    tick (a tick with an allowance of two rounds always returns): at most
    one timer is armed; an armed timer is the one recorded in the room's
    [tickHandle]; and no timer is armed and [tickHandle] is null whenever
    the room is not running.  So ending the round or emptying the room
    disarms the timer that the start armed, and a start never arms a
    second one. *)
Theorem at_most_one_timer evs id c w :
  Forall enoughFuel evs ->
  intervals w = [] ->
  exists s',
    run evs (onCreate id c w) = Some s' /\
    (length (intervals (snd s')) <= 1)%nat /\
    (forall h, In h (intervals (snd s')) -> tickHandle (fst s') = Some h) /\
    (state (fst s') <> running ->
     intervals (snd s') = [] /\ tickHandle (fst s') = None).
Proof.
  intros Hf Hw.
  assert (Hgen : forall l s s', run l s = Some s' ->
                                timerInv s -> timerInv s').
  { induction l as [|e l IH]; intros s s'; simpl.
    - now intros [= <-].
    - destruct (handle e s) as [s1|] eqn:E; [|discriminate].
      intros Hr Hs. apply (IH _ _ Hr). exact (@timerInv_handle e s s1 E Hs). }
  assert (Hc : (0 < cps (fst (onCreate id c w)))%Q).
  { assert (E : cps (fst (onCreate id c w)) = BASE_CPS).
    { unfold onCreate, createRoom, now. cbv beta iota.
      set (r1 := withPlayers _ _).
      pose proof (spawnInto_shell id r1) as Hs.
      match goal with |- context [spawnInto id r1 ?w0] =>
        specialize (Hs w0); destruct (spawnInto id r1 w0) as [r2 w2] end.
      rewrite announce_fst.
      rewrite (shell_cps (placeFood_shell r2 w2)).
      simpl in Hs. now rewrite (shell_cps Hs). }
    rewrite E. reflexivity. }
  assert (H0 : timerInv (onCreate id c w)).
  { unfold timerInv, onCreate, createRoom, now. cbv beta iota.
    set (r1 := withPlayers _ _).
    match goal with |- context [spawnInto id r1 ?w0] =>
      pose proof (spawnInto_shell id r1 w0) as Hs;
      pose proof (spawnInto_timers id r1 w0) as Ht;
      destruct (spawnInto id r1 w0) as [r2 w2] end.
    rewrite announce_fst.
    replace (intervals (snd (announce id (placeFood r2 w2))))
      with (intervals (snd (placeFood r2 w2))) by reflexivity.
    pose proof (placeFood_shell r2 w2) as Hs'.
    pose proof (placeFood_timers r2 w2) as Ht'.
    cbn [fst snd] in *.
    rewrite (shell_state Hs'), (shell_state Hs).
    rewrite (shell_handle Hs'), (shell_handle Hs).
    simpl. split; [reflexivity|].
    rewrite (timers_intervals Ht'), (timers_intervals Ht). exact Hw. }
  destruct (run_total (onCreate id c w) Hc Hf) as [s' Hr].
  exists s'. split; [exact Hr|].
  pose proof (Hgen _ _ _ Hr H0) as Hinv. unfold timerInv in Hinv.
  destruct (state (fst s')) eqn:Est.
  - destruct Hinv as [Hn Hi]. rewrite Hi. simpl.
    split; [lia|]. split; [contradiction|]. now split.
  - destruct Hinv as (h & Hh & [Hi|Hi]); rewrite Hi; simpl.
    + split; [lia|]. split; [|congruence]. intros h' [<-|[]]. exact Hh.
    + split; [lia|]. split; [contradiction|congruence].
  - destruct Hinv as [Hn Hi]. rewrite Hi. simpl.
    split; [lia|]. split; [contradiction|]. now split.
Qed.

Lemma at_most_one_timer_witness :
  exists s',
    run [EStart; EStart; ETick 2; EJoin 2; EClose 1; EClose 2]
        (onCreate 1 String.EmptyString (sampleWorld [0; 1000; 2000]))
    = Some s' /\
    (length (intervals (snd s')) <= 1)%nat /\
    (forall h, In h (intervals (snd s')) -> tickHandle (fst s') = Some h) /\
    (state (fst s') <> running ->
     intervals (snd s') = [] /\ tickHandle (fst s') = None).
Proof.
  refine (@at_most_one_timer
            [EStart; EStart; ETick 2; EJoin 2; EClose 1; EClose 2]
            1 String.EmptyString (sampleWorld [0; 1000; 2000]) _ eq_refl).
  repeat constructor.
Defined.

(** ** What a movement step touches *)

Lemma getPlayer_In id p r : getPlayer id r = Some p -> In (id, p) (players r).
Proof. apply mget_In. Qed.

Lemma mover_is_alive r m p :
  NoDup (ids r) -> In m (nextHeads r) -> getPlayer (m_id m) r = Some p ->
  alive p = true /\ snake p <> [].
Proof.
  intros Hnd Hin Hp.
  destruct (In_nextHeads _ _ Hin) as (q & Hq & Ha & s & h & Hs & _).
  apply (In_mget _ _ _ Hnd) in Hq. unfold getPlayer in Hp.
  assert (q = p) as -> by congruence.
  split; [exact Ha|]. rewrite Hs. now destruct s.
Qed.

Lemma moveStep_bystander r w id p :
  NoDup (ids r) ->
  getPlayer id r = Some p ->
  alive p = false \/ snake p = [] ->
  getPlayer id (fst (moveStep r w)) = Some p.
Proof.
  intros Hnd Hp Hidle. unfold moveStep.
  rewrite resolveAll_other; [exact Hp|].
  intros m Hin Eid. subst id.
  destruct (@mover_is_alive r m p Hnd Hin Hp) as [Ha Hs].
  destruct Hidle; [congruence|contradiction].
Qed.

Lemma resolveMove_kill occ m r w p :
  getPlayer (m_id m) r = Some p ->
  alive p = true ->
  inGrid (target m) = false \/ has occ (target m) = true ->
  exists t,
    getPlayer (m_id m) (fst (resolveMove occ m r w))
    = Some (mkPlayer (score p) false (Some t) [] (dir p) (lastSeq p)).
Proof.
  intros Hp Ha Hbad.
  assert (Hk : forall reason, exists t,
             getPlayer (m_id m) (fst (killPlayer (m_id m) reason r w))
             = Some (mkPlayer (score p) false (Some t) [] (dir p)
                              (lastSeq p))).
  { intros reason. eexists.
    exact (@killPlayer_alive (m_id m) reason r w p Hp Ha). }
  unfold resolveMove. fold (target m).
  destruct (_ || _) eqn:Ew; [apply Hk|].
  destruct (has occ (target m)) eqn:Eo; [apply Hk|].
  exfalso. destruct Hbad as [Hg|Ho]; [|discriminate].
  destruct (inGrid (target m)) eqn:Eg; [discriminate|].
  unfold inGrid in Eg. simpl in Eg, Ew.
  rewrite !orb_false_iff, !Z.ltb_ge, !Z.leb_gt in Ew.
  rewrite !andb_false_iff, !Z.leb_gt, !Z.ltb_ge in Eg. lia.
Qed.

Lemma moveStep_player r w id p :
  NoDup (ids r) ->
  getPlayer id r = Some p ->
  exists p',
    getPlayer id (fst (moveStep r w)) = Some p' /\
    dir p' = dir p /\ lastSeq p' = lastSeq p /\
    (score p' = score p \/ (score p' = score p + 10 /\ alive p' = true)) /\
    (alive p' = true -> alive p = true) /\
    (alive p' = false -> snake p' = [] \/ p' = p).
Proof.
  intros Hnd Hp.
  destruct (in_dec Nat.eq_dec id (map m_id (nextHeads r))) as [Hin|Hout].
  - apply in_map_iff in Hin as (m & <- & Hm).
    destruct (@moveStep_mover r w m Hnd Hm)
      as (pre & post & q & _ & Hq & Ha & _ & Hmid & Hend).
    assert (q = p) as -> by congruence.
    destruct (inGrid (target m)) eqn:Hg;
      [destruct (has (bodies r) (target m)) eqn:Ho|].
    + destruct (@resolveMove_kill (bodies r) m
                  (fst (resolveAll (bodies r) pre r w))
                  (snd (resolveAll (bodies r) pre r w)) p Hmid Ha)
        as (t & Hk); [now right|].
      rewrite Hk in Hend. eexists. split; [exact Hend|]. simpl.
      repeat split; auto; try discriminate.
    + destruct (@resolveMove_success (bodies r) m
                  (fst (resolveAll (bodies r) pre r w))
                  (snd (resolveAll (bodies r) pre r w)) p Hmid Hg Ho)
        as [_ Hget].
      rewrite Hget in Hend. eexists. split; [exact Hend|].
      destruct (isFood _ m); simpl; repeat split; auto; congruence.
    + destruct (@resolveMove_kill (bodies r) m
                  (fst (resolveAll (bodies r) pre r w))
                  (snd (resolveAll (bodies r) pre r w)) p Hmid Ha)
        as (t & Hk); [now left|].
      rewrite Hk in Hend. eexists. split; [exact Hend|]. simpl.
      repeat split; auto; try discriminate.
  - exists p. split.
    + unfold moveStep. rewrite resolveAll_other; [exact Hp|].
      intros m Hm Eid. apply Hout. rewrite <- Eid. now apply in_map.
    + repeat split; auto.
Qed.

Lemma moveStep_ids r w : ids (fst (moveStep r w)) = ids r.
Proof.
  apply (@related_ids (fun _ _ _ => True)).
  apply related_moveStep; auto.
Qed.

(** X15. A movement step touches only the players that move.  The players
    stay the same, in the same order; a player that is not alive or has an
    empty body is left exactly as it is; for every player the direction and
    the acknowledged sequence number are unchanged, the score is unchanged
    or 10 higher (and then the player is alive), and no player comes back
    to life.  Nothing of the room but the players and the food changes, and
    a step in which nobody moves changes nothing and sends nothing. *)
Theorem moveStep_touches_only_movers r w :
  NoDup (ids r) ->
  ids (fst (moveStep r w)) = ids r /\
  shell (fst (moveStep r w)) = shell r /\
  (forall id p,
     getPlayer id r = Some p ->
     (alive p = false \/ snake p = [] ->
      getPlayer id (fst (moveStep r w)) = Some p) /\
     exists p',
       getPlayer id (fst (moveStep r w)) = Some p' /\
       dir p' = dir p /\ lastSeq p' = lastSeq p /\
       (score p' = score p \/ (score p' = score p + 10 /\ alive p' = true)) /\
       (alive p' = true -> alive p = true)) /\
  (nextHeads r = [] -> moveStep r w = (r, w)).
Proof.
  intros Hnd. split; [|split; [|split]].
  - apply moveStep_ids.
  - apply moveStep_shell.
  - intros id p Hp. split; [now apply moveStep_bystander|].
    destruct (@moveStep_player r w id p Hnd Hp)
      as (p' & Hp' & Hd & Hl & Hsc & Ha & _).
    exists p'. now repeat split.
  - intros Hnil. unfold moveStep. now rewrite Hnil.
Qed.

Lemma moveStep_touches_only_movers_witness :
  getPlayer 1 (fst (moveStep (fst killedOnce) (snd killedOnce)))
  = Some (mkPlayer 0 false (Some 3000) [] (cell (-1) 0) 0) /\
  moveStep (fst killedOnce) (snd killedOnce)
  = (fst killedOnce, snd killedOnce).
Proof.
  assert (Hnd : NoDup (ids (fst killedOnce))).
  { vm_compute. constructor; [intros []|constructor]. }
  assert (Hp : getPlayer 1 (fst killedOnce)
               = Some (mkPlayer 0 false (Some 3000) [] (cell (-1) 0) 0))
    by (vm_compute; reflexivity).
  assert (Hn : nextHeads (fst killedOnce) = []) by (vm_compute; reflexivity).
  destruct (@moveStep_touches_only_movers (fst killedOnce) (snd killedOnce)
              Hnd) as (_ & _ & Hpl & Hnil).
  split.
  - exact (proj1 (Hpl 1%nat _ Hp) (or_introl eq_refl)).
  - exact (Hnil Hn).
Defined.

(** ** The start of a round *)

Lemma resetPlayer_self id r w p :
  getPlayer id r = Some p ->
  exists h d,
    getPlayer id (fst (resetPlayer id r w))
    = Some (mkPlayer 0 true None (trail h d) d (lastSeq p)) /\
    axisUnit d /\ Forall (fun c => inGrid c = true) (trail h d).
Proof.
  intros Hp. unfold resetPlayer.
  destruct (safeSpawn_shape r w)
    as (h & d & Hax & Hsp & Hg).
  destruct (safeSpawn r w) as [sp w1]. cbn [fst] in *. subst sp.
  exists h, d. rewrite getPlayer_modPlayer_same, Hp. now repeat split.
Qed.

Lemma resetPlayer_other id k r w :
  k <> id -> getPlayer k (fst (resetPlayer id r w)) = getPlayer k r.
Proof.
  intros Hne. unfold resetPlayer. destruct (safeSpawn r w) as [sp w1].
  now apply getPlayer_modPlayer_other.
Qed.

Lemma forEach_reset_other l k :
  ~ In k l ->
  forall r w, getPlayer k (fst (forEach resetPlayer l r w)) = getPlayer k r.
Proof.
  induction l as [|i l IH]; intros Hout r w; simpl; [reflexivity|].
  pose proof (@resetPlayer_other i k r w) as H.
  destruct (resetPlayer i r w) as [r1 w1]. cbn [fst] in H.
  rewrite IH by (intros Hin; apply Hout; now right).
  apply H. intros ->. apply Hout. now left.
Qed.

Lemma forEach_reset l :
  NoDup l ->
  forall id r w p,
    In id l -> getPlayer id r = Some p ->
    exists h d,
      getPlayer id (fst (forEach resetPlayer l r w))
      = Some (mkPlayer 0 true None (trail h d) d (lastSeq p)) /\
      axisUnit d /\ Forall (fun c => inGrid c = true) (trail h d).
Proof.
  induction 1 as [|i l Hnotin Hnd IH]; intros id r w p Hin Hp;
    [contradiction|]. simpl.
  destruct (Nat.eq_dec id i) as [->|Hne].
  - destruct (@resetPlayer_self i r w p Hp) as (h & d & Hg & Hax & Hgr).
    destruct (resetPlayer i r w) as [r1 w1]. cbn [fst] in Hg.
    exists h, d. rewrite forEach_reset_other by exact Hnotin. now split.
  - pose proof (@resetPlayer_other i id r w Hne) as Ho.
    destruct (resetPlayer i r w) as [r1 w1]. cbn [fst] in Ho.
    destruct Hin as [->|Hin]; [contradiction|].
    apply IH; [exact Hin|]. now rewrite Ho.
Qed.

(** X16. The start of a round resets every player.  When a room that is not
    running (and whose players have distinct ids) is started, every player
    is afterwards alive with score 0, no respawn deadline, and the straight
    three-cell body on the grid and the direction of [safeSpawn]; only its
    acknowledged sequence number is kept.  The players are the same, in
    the same order, and the last frame sent is the room frame, to every
    member, showing the room as the start leaves it. *)
Theorem start_resets_every_player r w :
  state r <> running ->
  NoDup (ids r) ->
  ids (fst (startRound r w)) = ids r /\
  (forall id p,
     getPlayer id r = Some p ->
     exists h d,
       getPlayer id (fst (startRound r w))
       = Some (mkPlayer 0 true None (trail h d) d (lastSeq p)) /\
       axisUnit d /\ Forall (fun c => inGrid c = true) (trail h d)) /\
  exists o,
    outbox (snd (startRound r w))
    = o ++ [(ids r, MsgRoom (roomSnapshot (fst (startRound r w))))].
Proof.
  intros Hs Hnd.
  assert (Hids : ids (fst (startRound r w)) = ids r).
  { apply (@related_ids (fun _ _ _ => True)).
    apply related_startRound; auto. }
  split; [exact Hids|]. revert Hids. unfold startRound.
  replace (state_eqb (state r) running) with false
    by (destruct (state r); try reflexivity; contradiction).
  unfold now. cbv beta iota.
  set (r2 := withTimes _ _ _). set (w1 := mkWorld _ _ _ _ _ _ _).
  pose proof (fun id p => @forEach_reset (ids r2) Hnd id r2 w1 p) as Hreset.
  destruct (forEach resetPlayer (ids r2) r2 w1) as [r3 w3].
  pose proof (placeFood_players r3 w3) as Hpl.
  destruct (placeFood r3 w3) as [r4 w4]. cbn [fst snd] in *.
  intros Hids. split.
  - intros id p Hp.
    destruct (Hreset id p) as (h & d & Hg & Hax & Hgr).
    + apply getPlayer_In in Hp. apply (in_map fst) in Hp. exact Hp.
    + exact Hp.
    + exists h, d. split; [|now split].
      unfold setInterval, getPlayer in *.
      cbn [fst snd players withHandle]. rewrite Hpl. exact Hg.
  - exists (outbox w4). unfold setInterval, broadcast, emit in *.
    cbn [fst snd outbox nextHandle] in *.
    change (ids (withHandle (Some (nextHandle w4)) r4)) with (ids r4)
      in Hids.
    rewrite Hids. reflexivity.
Qed.

Lemma start_resets_every_player_witness :
  exists h d,
    getPlayer 3 (fst (startRound (fst fullLobby) (snd fullLobby)))
    = Some (mkPlayer 0 true None (trail h d) d 0) /\
    axisUnit d /\ Forall (fun c => inGrid c = true) (trail h d).
Proof.
  assert (Hs : state (fst fullLobby) <> running)
    by (vm_compute; discriminate).
  assert (Hnd : NoDup (ids (fst fullLobby))).
  { vm_compute. repeat constructor; simpl; intuition discriminate. }
  assert (Hp : getPlayer 3 (fst fullLobby)
               = Some (mkPlayer 0 true None [cell 1 16; cell 2 16; cell 3 16]
                                (cell 1 0) 0))
    by (vm_compute; reflexivity).
  exact (proj1 (proj2 (@start_resets_every_player (fst fullLobby)
                         (snd fullLobby) Hs Hnd)) 3%nat _ Hp).
Defined.

(** ** Invariants of the players *)

Lemma In_keys_mset (V : Type) k (v : V) m j :
  In j (map fst (mset k v m)) -> j = k \/ In j (map fst m).
Proof.
  induction m as [|[i t] m IH]; simpl.
  - intros [<-|[]]. now left.
  - destruct (Nat.eqb k i) eqn:E; simpl.
    + apply Nat.eqb_eq in E. subst i. tauto.
    + intros [<-|H]; [tauto|]. destruct (IH H); tauto.
Qed.

Lemma keys_mset (V : Type) k (v : V) m :
  NoDup (map fst m) -> NoDup (map fst (mset k v m)).
Proof.
  induction m as [|[j u] m IH]; simpl; intros Hnd.
  - constructor; [intros []|constructor].
  - inversion Hnd as [|? ? Hnotin Hnd']; subst.
    destruct (Nat.eqb k j) eqn:E; simpl.
    + apply Nat.eqb_eq in E. subst j. now constructor.
    + constructor; [|now apply IH].
      intros Hin. apply In_keys_mset in Hin as [->|Hin];
        [now rewrite Nat.eqb_refl in E|contradiction].
Qed.

Lemma keys_mdelete (V : Type) k (m : list (nat * V)) :
  NoDup (map fst m) -> NoDup (map fst (mdelete k m)).
Proof.
  induction m as [|[j u] m IH]; simpl; intros Hnd; [constructor|].
  inversion Hnd as [|? ? Hnotin Hnd']; subst.
  destruct (negb (Nat.eqb j k)); simpl; [|now apply IH].
  constructor; [|now apply IH].
  intros Hin. apply Hnotin. apply in_map_iff in Hin as (x0 & Hx & Hin).
  apply filter_In in Hin as [Hin _]. rewrite <- Hx. now apply in_map.
Qed.

Lemma mupdate_mset (V : Type) k (f : V -> V) v (m : list (nat * V)) :
  mupdate k f (mset k v m) = mset k (f v) m.
Proof.
  induction m as [|[j u] m IH]; simpl; [now rewrite Nat.eqb_refl|].
  destruct (Nat.eqb k j) eqn:E; simpl.
  - now rewrite Nat.eqb_refl.
  - now rewrite E, IH.
Qed.

(** What a movement step makes of each player. *)
Lemma moveStep_stepped r w id p :
  NoDup (ids r) ->
  getPlayer id r = Some p ->
  exists p', getPlayer id (fst (moveStep r w)) = Some p' /\ stepped p p'.
Proof.
  intros Hnd Hp.
  destruct (in_dec Nat.eq_dec id (map m_id (nextHeads r))) as [Hin|Hout].
  - apply in_map_iff in Hin as (m & <- & Hm).
    destruct (@mover_is_alive r m p Hnd Hm Hp) as [Hal Hbody].
    destruct (@moveStep_mover r w m Hnd Hm)
      as (pre & post & q & _ & Hq & Ha & _ & Hmid & Hend).
    assert (q = p) as -> by congruence.
    destruct (inGrid (target m)) eqn:Hg;
      [destruct (has (bodies r) (target m)) eqn:Ho|].
    + destruct (@resolveMove_kill (bodies r) m
                  (fst (resolveAll (bodies r) pre r w))
                  (snd (resolveAll (bodies r) pre r w)) p Hmid Ha)
        as (t & Hk); [now right|].
      rewrite Hk in Hend. eexists. split; [exact Hend|].
      right. left. split; [exact Ha|]. now exists t.
    + destruct (@resolveMove_success (bodies r) m
                  (fst (resolveAll (bodies r) pre r w))
                  (snd (resolveAll (bodies r) pre r w)) p Hmid Hg Ho)
        as [_ Hget].
      rewrite Hget in Hend. eexists. split; [exact Hend|].
      right. right. split; [exact Ha|]. split; [exact Hbody|].
      exists (target m). split; [exact Hg|].
      destruct (isFood _ m); [now left|now right].
    + destruct (@resolveMove_kill (bodies r) m
                  (fst (resolveAll (bodies r) pre r w))
                  (snd (resolveAll (bodies r) pre r w)) p Hmid Ha)
        as (t & Hk); [now left|].
      rewrite Hk in Hend. eexists. split; [exact Hend|].
      right. left. split; [exact Ha|]. now exists t.
  - exists p. split; [|now left].
    unfold moveStep. rewrite resolveAll_other; [exact Hp|].
    intros m Hm Eid. apply Hout. rewrite <- Eid. now apply in_map.
Qed.

Section PlayerInvariant.
Variable P : Player -> Prop.
Hypothesis P_respawn :
  forall p sp, spawnOK sp -> length (sp_snake sp) = 3%nat ->
    P p -> P (respawned sp p).
Hypothesis P_reset : forall p sp, spawnOK sp -> length (sp_snake sp) = 3%nat ->
    P p -> P (mkPlayer 0 true None (sp_snake sp) (sp_dir sp) (lastSeq p)).
Hypothesis P_admit : forall sp, spawnOK sp -> length (sp_snake sp) = 3%nat ->
    P (mkPlayer 0 true None (sp_snake sp) (sp_dir sp) 0).
Hypothesis P_input : forall i k p, P p -> P (applyLatest i k p).
Hypothesis P_seq : forall p n, P p -> P (withLastSeq n p).
Hypothesis P_step : forall p p', stepped p p' -> P p -> P p'.

Lemma safeSpawn_three r w :
  spawnOK (fst (safeSpawn r w)) /\
  length (sp_snake (fst (safeSpawn r w))) = 3%nat.
Proof.
  split; [apply safeSpawn_ok|].
  destruct (safeSpawn_shape r w)
    as (h & d & _ & -> & _).
  reflexivity.
Qed.

Lemma sound_same r r' : players r' = players r -> sound P r -> sound P r'.
Proof. unfold sound, ids. now intros ->. Qed.

Lemma sound_modPlayer id f r :
  (forall p, P p -> P (f p)) -> sound P r -> sound P (modPlayer id f r).
Proof.
  intros Hf [Hnd Hp]. split.
  - now rewrite ids_modPlayer.
  - simpl. now apply Forall_mupdate.
Qed.

Lemma sound_maybeRespawn id r w :
  sound P r -> sound P (fst (maybeRespawn id r w)).
Proof.
  intros H. unfold maybeRespawn.
  destruct (getPlayer id r) as [p|]; [|exact H].
  destruct (alive p); [exact H|].
  destruct (respawnAt p) as [d|]; [|exact H].
  destruct (d =? 0); [exact H|]. unfold now. cbv beta iota.
  destruct (_ <? d); [exact H|].
  match goal with |- context [safeSpawn r ?w0] =>
    destruct (safeSpawn_three r w0) as [Hok Hlen];
    destruct (safeSpawn r w0) as [sp w2] end.
  cbn [fst] in *. apply sound_modPlayer; [|exact H].
  intros q. now apply P_respawn.
Qed.

Lemma sound_resetPlayer id r w :
  sound P r -> sound P (fst (resetPlayer id r w)).
Proof.
  intros H. unfold resetPlayer.
  destruct (safeSpawn_three r w) as [Hok Hlen].
  destruct (safeSpawn r w) as [sp w1].
  cbn [fst] in *. apply sound_modPlayer; [|exact H].
  intros q. now apply P_reset.
Qed.

Lemma sound_forEach f l :
  (forall id r w, sound P r -> sound P (fst (f id r w))) ->
  forall r w, sound P r -> sound P (fst (forEach f l r w)).
Proof.
  intros Hf. induction l as [|k l IH]; intros r w H; simpl; [exact H|].
  specialize (Hf k r w H). destruct (f k r w) as [r1 w1]. now apply IH.
Qed.

Lemma sound_applyInputs r : sound P r -> sound P (applyInputs r).
Proof.
  intros [Hnd Hp]. split.
  - unfold ids, applyInputs. simpl. rewrite map_map. simpl. exact Hnd.
  - unfold applyInputs. simpl. rewrite Forall_map. simpl.
    revert Hp. apply Forall_impl. intros [k p] Hp. now apply P_input.
Qed.

Lemma sound_moveStep r w : sound P r -> sound P (fst (moveStep r w)).
Proof.
  intros [Hnd Hp].
  pose proof (moveStep_ids r w) as Hids.
  assert (Hnd' : NoDup (ids (fst (moveStep r w)))) by now rewrite Hids.
  split; [exact Hnd'|]. apply Forall_forall. intros [k p'] Hin.
  assert (Hk : In k (ids r)).
  { rewrite <- Hids. now apply (in_map fst) in Hin. }
  apply in_map_iff in Hk as ([k0 p] & Ek & Hin0). simpl in Ek. subst k0.
  rewrite Forall_forall in Hp. pose proof (Hp _ Hin0) as Hp0.
  apply (In_mget _ _ _ Hnd) in Hin0. apply (In_mget _ _ _ Hnd') in Hin.
  destruct (@moveStep_stepped r w k p Hnd Hin0) as (q & Hq & Hst).
  unfold getPlayer in Hq. assert (q = p') as -> by congruence.
  simpl in *. exact (P_step Hst Hp0).
Qed.

Lemma sound_moveLoop fuel step :
  forall s s', moveLoop fuel step s = Some s' ->
               sound P (fst s) -> sound P (fst s').
Proof.
  induction fuel as [|fuel IH]; intros s s'; simpl;
    destruct (Qle_bool step (moveAcc (fst s)));
    try discriminate; try (now intros [= <-]).
  intros Hl H. apply (IH _ _ Hl). unfold moveRound.
  pose proof (@sound_moveStep (applyInputs (fst s)) (snd s)
                (sound_applyInputs H)) as H1.
  destruct (moveStep (applyInputs (fst s)) (snd s)) as [r1 w1].
  cbn [fst] in *. revert H1. now apply sound_same.
Qed.

Lemma sound_tick fuel r w s' :
  tick fuel r w = Some s' -> sound P r -> sound P (fst s').
Proof.
  unfold tick. destruct (negb _); [now intros [= <-]|].
  unfold now. cbv beta iota. destruct (roundOver _ _).
  - intros [= <-] H. unfold endRound. destruct (negb _); cbn [fst];
      revert H; now apply sound_same.
  - set (r1 := withTickNo _ r). set (w1 := mkWorld _ _ _ _ _ _ _).
    destruct (moveLoop fuel _ (tickPrepare r1 w1)) as [s|] eqn:El;
      [|discriminate].
    intros [= <-] H. cbn [fst tickFinish].
    apply (@sound_moveLoop fuel _ _ _ El). unfold tickPrepare.
    assert (H1 : sound P r1) by (revert H; now apply sound_same).
    pose proof (@sound_forEach maybeRespawn (ids r1) sound_maybeRespawn
                  r1 w1 H1) as H2.
    destruct (forEach maybeRespawn (ids r1) r1 w1) as [r2 w2].
    cbn [fst] in *. apply sound_applyInputs in H2. revert H2.
    now apply sound_same.
Qed.

Lemma sound_startRound r w : sound P r -> sound P (fst (startRound r w)).
Proof.
  intros H. unfold startRound. destruct (state_eqb _ _); [exact H|].
  unfold now. cbv beta iota.
  set (r2 := withTimes _ _ _). set (w1 := mkWorld _ _ _ _ _ _ _).
  assert (H2 : sound P r2) by (revert H; now apply sound_same).
  pose proof (@sound_forEach resetPlayer (ids r2) sound_resetPlayer
                r2 w1 H2) as H3.
  destruct (forEach resetPlayer (ids r2) r2 w1) as [r3 w3].
  pose proof (placeFood_players r3 w3) as Hpl.
  destruct (placeFood r3 w3) as [r4 w4]. cbn [fst snd] in *.
  unfold setInterval. cbn [fst]. revert H3. apply sound_same.
  exact Hpl.
Qed.

Lemma sound_admit id r w :
  sound P r ->
  sound P (fst (spawnInto id (withPlayers (mset id newPlayer (players r)) r)
                          w)).
Proof.
  intros [Hnd Hp]. unfold spawnInto.
  match goal with |- context [safeSpawn ?r0 w] =>
    destruct (safeSpawn_three r0 w) as [Hok Hlen];
    destruct (safeSpawn r0 w) as [sp w1] end.
  cbn [fst] in *.
  unfold modPlayer, sound, ids. cbn [players withPlayers].
  rewrite mupdate_mset. split; [now apply keys_mset|].
  apply Forall_mset; [|exact Hp]. now apply P_admit.
Qed.

Lemma sound_onJoin id r w : sound P r -> sound P (fst (onJoin id r w)).
Proof.
  intros H. unfold onJoin. destruct (_ <=? _)%nat; [exact H|].
  pose proof (@sound_admit id r w H) as H2.
  destruct (spawnInto id _ w) as [r2 w2]. rewrite announce_fst.
  cbn [fst] in H2. destruct (food r2); [exact H2|].
  revert H2. apply sound_same. apply placeFood_players.
Qed.

Lemma sound_onInput id msg r : sound P r -> sound P (onInput id msg r).
Proof.
  intros H. unfold onInput.
  destruct (m_dir msg) as [[[dx|] [dy|]]|]; try exact H.
  set (r1 := withInputs _ r).
  assert (H1 : sound P r1) by (revert H; now apply sound_same).
  destruct (getPlayer id r1) as [p|]; [|exact H1].
  destruct (_ <? _); [|exact H1].
  apply sound_modPlayer; [|exact H1]. intros q. apply P_seq.
Qed.

Lemma sound_onClose id r w : sound P r -> sound P (fst (onClose id r w)).
Proof.
  intros [Hnd Hp]. unfold onClose.
  destruct (_ =? _)%nat; cbn [fst]; (split;
    [unfold ids; simpl; now apply keys_mdelete
    |simpl; now apply Forall_mdelete]).
Qed.

Lemma sound_handle e s s' :
  handle e s = Some s' -> sound P (fst s) -> sound P (fst s').
Proof.
  destruct e as [id| |id msg|id|fuel]; simpl.
  - intros [= <-]. apply sound_onJoin.
  - intros [= <-]. apply sound_startRound.
  - intros [= <-]. apply sound_onInput.
  - intros [= <-]. apply sound_onClose.
  - apply sound_tick.
Qed.

Lemma sound_onCreate id c w : sound P (fst (onCreate id c w)).
Proof.
  unfold onCreate, createRoom, now. cbv beta iota.
  set (r0 := mkRoom _ _ _ _ _ _ _ _ _ _ _ _).
  set (w0 := mkWorld _ _ _ _ _ _ _).
  assert (H0 : sound P r0) by (split; constructor).
  pose proof (@sound_admit id r0 w0 H0) as H2.
  destruct (spawnInto id _ w0) as [r2 w2]. rewrite announce_fst.
  cbn [fst] in H2. revert H2. apply sound_same. apply placeFood_players.
Qed.

Lemma onCreate_cps id c w : (0 < cps (fst (onCreate id c w)))%Q.
Proof.
  assert (E : cps (fst (onCreate id c w)) = BASE_CPS).
  { unfold onCreate, createRoom, now. cbv beta iota.
    set (r1 := withPlayers _ _).
    pose proof (spawnInto_shell id r1) as Hs.
    match goal with |- context [spawnInto id r1 ?w0] =>
      specialize (Hs w0); destruct (spawnInto id r1 w0) as [r2 w2] end.
    rewrite announce_fst.
    rewrite (shell_cps (placeFood_shell r2 w2)).
    simpl in Hs. now rewrite (shell_cps Hs). }
  rewrite E. reflexivity.
Qed.

Lemma sound_from_creation evs id c w :
  Forall enoughFuel evs ->
  exists s', run evs (onCreate id c w) = Some s' /\ sound P (fst s').
Proof.
  intros Hf.
  assert (Hgen : forall l s s', run l s = Some s' ->
                                sound P (fst s) -> sound P (fst s')).
  { induction l as [|e l IH]; intros s s'; simpl.
    - now intros [= <-].
    - destruct (handle e s) as [s1|] eqn:E; [|discriminate].
      intros Hr Hs. apply (IH _ _ Hr). exact (@sound_handle e s s1 E Hs). }
  destruct (run_total (onCreate id c w) (onCreate_cps id c w) Hf)
    as [s' Hr].
  exists s'. split; [exact Hr|].
  exact (Hgen _ _ _ Hr (sound_onCreate id c w)).
Qed.
End PlayerInvariant.

Lemma length_tl_snoc (A : Type) (l : list A) (a : A) :
  length (tl (l ++ [a])) = length l.
Proof. destruct l; simpl; [reflexivity|]. rewrite length_app. simpl. lia. Qed.

(** X17. A player has a body exactly when it is alive: from the creation of
    the room on, after every join, start, input, close and tick (a tick
    with an allowance of two rounds always returns), the ids of the players
    are distinct, a player that is not alive has an empty body, and a
    player that is alive has a body of at least three cells.  So a killed
    player's body stays empty until it is respawned, every cell of the
    occupancy set belongs to a player that is alive, and the movement step
    never meets an alive player without a body. *)
Theorem body_exactly_when_alive evs id c w :
  Forall enoughFuel evs ->
  exists s',
    run evs (onCreate id c w) = Some s' /\
    NoDup (ids (fst s')) /\
    (forall k p, getPlayer k (fst s') = Some p ->
                 (alive p = false -> snake p = []) /\
                 (alive p = true -> (3 <= length (snake p))%nat)) /\
    (forall cl, In cl (bodies (fst s')) ->
       exists k p, getPlayer k (fst s') = Some p /\ alive p = true /\
                   In cl (snake p)).
Proof.
  intros Hf.
  assert (H : exists s', run evs (onCreate id c w) = Some s' /\
                         sound bodyMatchesLife (fst s')).
  { apply sound_from_creation; [| | | | | |exact Hf];
      unfold bodyMatchesLife, respawned.
    - intros p sp _ Hlen _. cbn [alive snake].
      split; [discriminate|]. intros _. rewrite Hlen. constructor.
    - intros p sp _ Hlen _. cbn [alive snake].
      split; [discriminate|]. intros _. rewrite Hlen. constructor.
    - intros sp _ Hlen. cbn [alive snake].
      split; [discriminate|]. intros _. rewrite Hlen. constructor.
    - intros i k p Hp. unfold applyLatest, raiseSeq, applyInput.
      destruct (negb (alive p)); [exact Hp|].
      destruct (mget k i) as [inp|]; [|exact Hp].
      destruct (_ && _); destruct (_ <? _); exact Hp.
    - intros p n Hp. exact Hp.
    - intros p p' [->|[(Ha & t & ->)|(Ha & Hb & cl & _ & [->| ->])]]
        [Hd Hl]; simpl.
      + now split.
      + split; [reflexivity|discriminate].
      + split; [congruence|]. intros _. rewrite length_app. simpl.
        specialize (Hl Ha). lia.
      + split; [congruence|]. intros _. rewrite length_tl_snoc.
        now apply Hl. }
  destruct H as (s' & Hr & Hnd & Hall).
  exists s'. split; [exact Hr|]. split; [exact Hnd|].
  rewrite Forall_forall in Hall. split.
  - intros k p Hp. apply getPlayer_In in Hp. exact (Hall _ Hp).
  - intros cl Hin. apply In_bodies in Hin as ([k p] & Hip & Hcl).
    simpl in Hcl. exists k, p. split; [now apply In_mget|].
    split; [|exact Hcl]. destruct (alive p) eqn:Ea; [reflexivity|].
    pose proof (proj1 (Hall _ Hip) Ea) as He. simpl in He.
    rewrite He in Hcl. contradiction.
Qed.

Lemma body_exactly_when_alive_witness :
  exists s',
    run [EJoin 2; EStart; ETick 2; ETick 2; ETick 2; EClose 2]
        (onCreate 1 String.EmptyString (sampleWorld [0; 1000; 2000]))
    = Some s' /\
    NoDup (ids (fst s')) /\
    (forall k p, getPlayer k (fst s') = Some p ->
                 (alive p = false -> snake p = []) /\
                 (alive p = true -> (3 <= length (snake p))%nat)) /\
    (forall cl, In cl (bodies (fst s')) ->
       exists k p, getPlayer k (fst s') = Some p /\ alive p = true /\
                   In cl (snake p)).
Proof.
  refine (@body_exactly_when_alive
            [EJoin 2; EStart; ETick 2; ETick 2; ETick 2; EClose 2]
            1 String.EmptyString (sampleWorld [0; 1000; 2000]) _).
  repeat constructor.
Defined.

(** X18. Scores only move in tens: from the creation of the room on, after
    every join, start, input, close and tick (a tick with an allowance of
    two rounds always returns), every player's score is a non-negative
    multiple of 10. *)
Theorem scores_are_multiples_of_ten evs id c w :
  Forall enoughFuel evs ->
  exists s',
    run evs (onCreate id c w) = Some s' /\
    forall k p, getPlayer k (fst s') = Some p ->
                0 <= score p /\ exists n, score p = 10 * n.
Proof.
  intros Hf.
  assert (H : exists s', run evs (onCreate id c w) = Some s' /\
                         sound scoreInTens (fst s')).
  { apply sound_from_creation; [| | | | | |exact Hf];
      unfold scoreInTens, respawned.
    - intros p sp _ _ Hp. exact Hp.
    - intros p sp _ _ _. simpl. split; [lia|]. now exists 0.
    - intros sp _ _. simpl. split; [lia|]. now exists 0.
    - intros i k p Hp. unfold applyLatest, raiseSeq, applyInput.
      destruct (negb (alive p)); [exact Hp|].
      destruct (mget k i) as [inp|]; [|exact Hp].
      destruct (_ && _); destruct (_ <? _); exact Hp.
    - intros p n Hp. exact Hp.
    - intros p p' [->|[(Ha & t & ->)|(Ha & Hb & cl & _ & [->| ->])]]
        [H0 (n & Hn)]; cbn [score addScore pushHead shiftTail].
      + split; [exact H0|now exists n].
      + split; [exact H0|now exists n].
      + split; [lia|]. exists (n + 1). lia.
      + split; [exact H0|now exists n]. }
  destruct H as (s' & Hr & Hnd & Hall).
  exists s'. split; [exact Hr|]. rewrite Forall_forall in Hall.
  intros k p Hp. apply getPlayer_In in Hp. exact (Hall _ Hp).
Qed.

Lemma scores_are_multiples_of_ten_witness :
  exists s',
    run [EJoin 2; EStart; ETick 2; ETick 2; ETick 2; EClose 2]
        (onCreate 1 String.EmptyString (sampleWorld [0; 1000; 2000]))
    = Some s' /\
    forall k p, getPlayer k (fst s') = Some p ->
                0 <= score p /\ exists n, score p = 10 * n.
Proof.
  refine (@scores_are_multiples_of_ten
            [EJoin 2; EStart; ETick 2; ETick 2; ETick 2; EClose 2]
            1 String.EmptyString (sampleWorld [0; 1000; 2000]) _).
  repeat constructor.
Defined.

(** ** Room codes *)

Lemma string_length_list s :
  String.length s = length (String.list_ascii_of_string s).
Proof. induction s as [|a s IH]; simpl; [reflexivity|now rewrite IH]. Qed.

Lemma list_ascii_append s t :
  String.list_ascii_of_string (String.append s t)
  = String.list_ascii_of_string s ++ String.list_ascii_of_string t.
Proof. induction s as [|a s IH]; simpl; [reflexivity|now rewrite IH]. Qed.

Lemma alphabet_get k :
  (k < String.length Codes.alphabet)%nat ->
  exists a, String.get k Codes.alphabet = Some a /\
            In a (String.list_ascii_of_string Codes.alphabet).
Proof.
  intros Hk.
  do 32 (destruct k as [|k];
         [eexists; split; [reflexivity|];
          cbn; repeat (first [left; reflexivity | right])|]).
  simpl in Hk. lia.
Qed.

Lemma addLetter_spec s w :
  exists a,
    In a (String.list_ascii_of_string Codes.alphabet) /\
    fst (Codes.addLetter s w)
    = String.append s (String.String a String.EmptyString).
Proof.
  unfold Codes.addLetter, draw. cbv beta iota.
  set (k := (_ mod _)%nat).
  assert (Hk : (k < String.length Codes.alphabet)%nat)
    by (apply Nat.mod_upper_bound; discriminate).
  destruct (alphabet_get Hk) as (a & Hget & Hin).
  rewrite Hget. now exists a.
Qed.

Lemma addLetters_spec n :
  forall s w,
    Forall (fun a => In a (String.list_ascii_of_string Codes.alphabet))
           (String.list_ascii_of_string s) ->
    String.length (fst (Codes.addLetters n s w)) = (n + String.length s)%nat /\
    Forall (fun a => In a (String.list_ascii_of_string Codes.alphabet))
           (String.list_ascii_of_string (fst (Codes.addLetters n s w))).
Proof.
  induction n as [|n IH]; intros s w Hs; [now split|].
  change (Codes.addLetters (S n) s w)
    with (let (s1, w1) := Codes.addLetter s w in Codes.addLetters n s1 w1).
  destruct (addLetter_spec s w) as (a & Ha & E).
  destruct (Codes.addLetter s w) as [s1 w1]. cbn [fst] in E. subst s1.
  assert (Hs1 : Forall (fun b => In b (String.list_ascii_of_string
                                         Codes.alphabet))
                  (String.list_ascii_of_string
                     (String.append s (String.String a String.EmptyString)))).
  { rewrite list_ascii_append. apply Forall_app. split; [exact Hs|].
    constructor; [exact Ha|constructor]. }
  destruct (IH _ w1 Hs1) as [Hl Hf].
  split; [|exact Hf]. rewrite Hl, !string_length_list, list_ascii_append.
  rewrite length_app. cbn [length String.list_ascii_of_string]. lia.
Qed.

Lemma makeCode_length w : String.length (fst (Codes.makeCode w)) = 5%nat.
Proof.
  destruct (@addLetters_spec 5 String.EmptyString w) as [Hl _];
    [constructor|exact Hl].
Qed.

(** X19. A room code always has exactly five characters, each one taken
    from the 32-character alphabet, which has none of the ambiguous
    characters 0, 1, O and I. *)
Theorem makeCode_five_unambiguous_letters w :
  String.length (fst (Codes.makeCode w)) = 5%nat /\
  forall a, In a (String.list_ascii_of_string (fst (Codes.makeCode w))) ->
    In a (String.list_ascii_of_string Codes.alphabet) /\
    ~ In a (String.list_ascii_of_string Codes.ambiguous).
Proof.
  destruct (@addLetters_spec 5 String.EmptyString w) as [Hl Hf];
    [constructor|].
  split; [exact Hl|]. intros a Ha. rewrite Forall_forall in Hf.
  specialize (Hf a Ha). split; [exact Hf|].
  cbn. intros [<-|[<-|[<-|[<-|[]]]]]; cbn in Hf;
    repeat (destruct Hf as [Hf|Hf]; [discriminate|]); exact Hf.
Qed.

Lemma makeCode_five_unambiguous_letters_witness :
  String.length (fst (Codes.makeCode (sampleWorld [0]))) = 5%nat.
Proof.
  exact (proj1 (makeCode_five_unambiguous_letters (sampleWorld [0]))).
Defined.

Lemma roomsHas_In c rooms :
  Codes.roomsHas c rooms = true <-> In c (map fst rooms).
Proof.
  unfold Codes.roomsHas. rewrite existsb_exists, in_map_iff. split.
  - intros (kr & Hin & E). apply String.eqb_eq in E. now exists kr.
  - intros (kr & E & Hin). exists kr. split; [exact Hin|].
    now apply String.eqb_eq.
Qed.

Lemma roomsGet_roomsSet_same c r rooms :
  Codes.roomsGet c (Codes.roomsSet c r rooms) = Some r.
Proof.
  induction rooms as [|[k r'] rooms IH]; simpl;
    [now rewrite String.eqb_refl|].
  destruct (String.eqb c k) eqn:E; simpl; [now rewrite String.eqb_refl|].
  now rewrite E.
Qed.

Lemma roomsGet_roomsSet_other c c' r rooms :
  c <> c' ->
  Codes.roomsGet c (Codes.roomsSet c' r rooms) = Codes.roomsGet c rooms.
Proof.
  intros Hne. apply String.eqb_neq in Hne.
  induction rooms as [|[k r'] rooms IH]; simpl; [now rewrite Hne|].
  destruct (String.eqb c' k) eqn:E; simpl.
  - apply String.eqb_eq in E. subst k. now rewrite Hne.
  - destruct (String.eqb c k); [reflexivity|exact IH].
Qed.

Lemma keys_roomsSet_fresh c r rooms :
  Codes.roomsHas c rooms = false ->
  map fst (Codes.roomsSet c r rooms) = map fst rooms ++ [c].
Proof.
  unfold Codes.roomsHas.
  induction rooms as [|[k r'] rooms IH]; simpl; [reflexivity|].
  intros H. apply orb_false_iff in H as [E H]. rewrite E. simpl.
  now rewrite IH.
Qed.

Lemma pickCode_fresh fuel rooms :
  forall w c w', Codes.pickCode fuel rooms w = Some (c, w') ->
                 Codes.roomsHas c rooms = false /\
                 String.length c = 5%nat.
Proof.
  induction fuel as [|fuel IH]; intros w c w'; [discriminate|].
  change (Codes.pickCode (S fuel) rooms w)
    with (let (c1, w1) := Codes.makeCode w in
          if Codes.roomsHas c1 rooms then Codes.pickCode fuel rooms w1
          else Some (c1, w1)).
  pose proof (makeCode_length w) as Hl.
  destruct (Codes.makeCode w) as [c1 w1]. cbn [fst] in Hl.
  destruct (Codes.roomsHas c1 rooms) eqn:E; [apply IH|].
  intros [= <- <-]. now split.
Qed.

(** X20. Room codes are unique among the registered rooms.  When
    [createRoom] returns, the new room is in the lobby, without players,
    buffered inputs or food, under a five-character code that no registered
    room had; it is then found under that code, the other codes lead to
    the rooms they led to, and the codes of the registry are still
    distinct.  It returns at the first attempt whenever the first code
    drawn is not in use, in particular on an empty registry. *)
Theorem createRoom_registers_fresh_code fuel rooms w :
  NoDup (map fst rooms) ->
  (forall r rooms' w',
     Codes.registerRoom fuel rooms w = Some (r, rooms', w') ->
     Codes.roomsHas (code r) rooms = false /\
     String.length (code r) = 5%nat /\
     Codes.roomsGet (code r) rooms' = Some r /\
     (forall c, c <> code r ->
                Codes.roomsGet c rooms' = Codes.roomsGet c rooms) /\
     NoDup (map fst rooms') /\
     state r = lobby /\ players r = [] /\ inputs r = [] /\ food r = None /\
     tickHandle r = None) /\
  (Codes.roomsHas (fst (Codes.makeCode w)) rooms = false ->
   (1 <= fuel)%nat ->
   exists r rooms' w',
     Codes.registerRoom fuel rooms w = Some (r, rooms', w') /\
     code r = fst (Codes.makeCode w)).
Proof.
  intros Hnd. split.
  - intros r rooms' w' H. unfold Codes.registerRoom in H.
    destruct (Codes.pickCode fuel rooms w) as [[c w1]|] eqn:Ep;
      [|discriminate].
    destruct (pickCode_fresh _ _ _ Ep) as [Hfresh Hlen].
    unfold createRoom, now in H. injection H as <- <- _. cbn [code].
    split; [exact Hfresh|]. split; [exact Hlen|].
    split; [apply roomsGet_roomsSet_same|].
    split; [intros c' Hne; now apply roomsGet_roomsSet_other|].
    split; [|now repeat split].
    rewrite keys_roomsSet_fresh by exact Hfresh.
    apply NoDup_app; [exact Hnd|constructor; [intros []|constructor]|].
    intros a Hin [<-|[]]. apply roomsHas_In in Hin. congruence.
  - intros Hfree Hfuel. destruct fuel as [|fuel]; [lia|].
    unfold Codes.registerRoom.
    change (Codes.pickCode (S fuel) rooms w)
      with (let (c1, w1) := Codes.makeCode w in
            if Codes.roomsHas c1 rooms then Codes.pickCode fuel rooms w1
            else Some (c1, w1)).
    destruct (Codes.makeCode w) as [c1 w1]. cbn [fst] in Hfree.
    rewrite Hfree. unfold createRoom, now. eexists. eexists. eexists.
    split; reflexivity.
Qed.

Lemma createRoom_registers_fresh_code_witness :
  exists r rooms' w',
    Codes.registerRoom 1 [] (sampleWorld [0]) = Some (r, rooms', w') /\
    Codes.roomsGet (code r) rooms' = Some r.
Proof.
  destruct (@createRoom_registers_fresh_code 1 [] (sampleWorld [0])
              (NoDup_nil _)) as [Hfresh Hgo].
  destruct (Hgo eq_refl (le_n 1)) as (r & rooms' & w' & Hreg & _).
  exists r, rooms', w'. split; [exact Hreg|].
  exact (proj1 (proj2 (proj2 (Hfresh r rooms' w' Hreg)))).
Defined.

(** ** What a tick takes from the buffer *)

Lemma orZero_id n : orZero n = n.
Proof. unfold orZero. destruct (n =? 0) eqn:E; [|reflexivity].
  apply Z.eqb_eq in E. now subst. Qed.

(** X21. What the input loops of a tick take from the buffer, player by
    player.  A player that is not alive, or for which nothing is buffered,
    is left exactly as it is (a dead player's buffered input is neither
    applied nor acknowledged by the tick).  For a player that is alive the
    buffered direction becomes its direction, unless it is the exact
    reverse of the current one, and its acknowledged sequence number
    becomes the greater of the current one and the buffered one; score,
    life, respawn deadline and body are unchanged. *)
Theorem tick_adopts_buffered_direction r id p :
  getPlayer id r = Some p ->
  exists p',
    getPlayer id (applyInputs r) = Some p' /\
    (score p' = score p /\ alive p' = alive p /\
     respawnAt p' = respawnAt p /\ snake p' = snake p) /\
    (alive p = false \/ mget id (inputs r) = None -> p' = p) /\
    (forall inp,
       alive p = true -> mget id (inputs r) = Some inp ->
       (inp_dir inp = opposite (dir p) -> dir p' = dir p) /\
       (inp_dir inp <> opposite (dir p) -> dir p' = inp_dir inp) /\
       lastSeq p' = Z.max (lastSeq p) (inp_seq inp)).
Proof.
  intros Hp. rewrite getPlayer_applyInputs, Hp. simpl. eexists.
  split; [reflexivity|]. unfold applyLatest. split; [|split].
  - destruct (negb (alive p)); [now repeat split|].
    destruct (mget id (inputs r)) as [inp|]; [|now repeat split].
    unfold raiseSeq, applyInput.
    destruct (_ && _); destruct (_ <? _); now repeat split.
  - intros [Ha|Hn]; [now rewrite Ha|].
    rewrite Hn. now destruct (negb (alive p)).
  - intros inp Ha Hi. rewrite Ha, Hi. simpl negb. cbv iota.
    assert (Hseq : forall q, lastSeq (raiseSeq (inp_seq inp) q)
                             = Z.max (lastSeq q) (inp_seq inp)).
    { intros q. unfold raiseSeq. rewrite orZero_id.
      destruct (lastSeq q <? inp_seq inp) eqn:E; simpl.
      - apply Z.ltb_lt in E. lia.
      - apply Z.ltb_ge in E. lia. }
    rewrite Hseq, raiseSeq_dir, applyInput_lastSeq.
    split; [|split; [|reflexivity]].
    + intros Hrev. rewrite applyInput_reverse; [reflexivity| |];
        rewrite Hrev; reflexivity.
    + intros Hn. unfold applyInput.
      destruct ((x (inp_dir inp) =? - x (dir p))
                && (y (inp_dir inp) =? - y (dir p))) eqn:E; [|reflexivity].
      exfalso. apply Hn. apply andb_true_iff in E as [Ex Ey].
      apply Z.eqb_eq in Ex, Ey. unfold opposite.
      destruct (inp_dir inp). simpl in *. now subst.
Qed.

Lemma tick_adopts_buffered_direction_witness :
  exists p',
    getPlayer 1 (applyInputs reversing) = Some p' /\
    (score p' = 0 /\ alive p' = true /\ respawnAt p' = None /\
     snake p' = [cell 18 3; cell 17 3; cell 16 3]).
Proof.
  assert (Hp : getPlayer 1 reversing
               = Some (mkPlayer 0 true None
                                [cell 18 3; cell 17 3; cell 16 3]
                                (cell (-1) 0) 1))
    by (vm_compute; reflexivity).
  destruct (@tick_adopts_buffered_direction reversing 1 _ Hp)
    as (p' & Hp' & Hsame & _).
  exists p'. split; [exact Hp'|exact Hsame].
Defined.

(** ** Food and spawns *)

(** X22. Food is always replaced elsewhere: the cell chosen by [placeFood]
    is a grid cell covered by no body and different from the cell the food
    was on.  The choice is otherwise free: every such cell is chosen for
    some value of the random draw. *)
Theorem placeFood_moves_the_food r w :
  (forall c, food (fst (placeFood r w)) = Some c ->
     inGrid c = true /\ ~ In c (bodies r) /\ food r <> Some c) /\
  (forall c, inGrid c = true -> ~ In c (bodies r) -> food r <> Some c ->
     exists k, food (fst (placeFood r (drawing k w))) = Some c).
Proof.
  split.
  - intros c Hc. destruct (placeFood_spec r w) as [_ Hf].
    rewrite Hc in Hf. now apply In_freeCells.
  - intros c Hg Hb Hf.
    assert (Hin : In c (freeCells r)) by now apply In_freeCells.
    destruct (In_nth_error _ _ Hin) as [k Hk].
    assert (Hlt : (k < length (freeCells r))%nat).
    { apply nth_error_Some. congruence. }
    exists k. unfold placeFood, randomFreeCell.
    destruct (freeCells r) as [|c0 l] eqn:E; [simpl in Hlt; lia|].
    unfold draw, drawing. cbn [random randomReads fst].
    rewrite Nat.mod_small by exact Hlt. cbn [fst food withFood].
    exact Hk.
Qed.

Lemma placeFood_moves_the_food_witness :
  exists k, food (fst (placeFood feeding (drawing k (snd emptyLobby))))
            = Some (cell 0 0).
Proof.
  refine (proj2 (placeFood_moves_the_food feeding (snd emptyLobby))
                (cell 0 0) eq_refl _ _).
  - vm_compute. intuition discriminate.
  - vm_compute. discriminate.
Defined.

Lemma spawnPreset_ignores_food l f r :
  spawnPreset l (withFood f r) = spawnPreset l r.
Proof.
  induction l as [|[h d] l IH]; [reflexivity|].
  unfold spawnPreset; fold spawnPreset. rewrite IH. reflexivity.
Qed.

(** X23. The corner presets of [safeSpawn] are checked against the bodies
    only, never against the food: when a preset is accepted, the same body
    is given wherever the food is.  So a respawn can put a body over the
    food: when the food lies on a cell of the accepted preset and the
    deadline of a dead player has been reached, [maybeRespawn] leaves the
    food where it is, under the body it gives the player. *)
Theorem preset_spawn_ignores_food r w sp :
  spawnPreset presets r = Some sp ->
  (forall f, safeSpawn (withFood f r) w = (sp, w)) /\
  (forall id p d c,
     getPlayer id r = Some p ->
     alive p = false ->
     respawnAt p = Some d -> d <> 0 -> d <= clock w (clockReads w) ->
     food r = Some c ->
     In c (sp_snake sp) ->
     food (fst (maybeRespawn id r w)) = Some c /\
     (exists p', getPlayer id (fst (maybeRespawn id r w)) = Some p' /\
                 alive p' = true /\ In c (snake p')) /\
     ~ foodClear (fst (maybeRespawn id r w))).
Proof.
  intros E. split.
  - intros f. unfold safeSpawn. now rewrite spawnPreset_ignores_food, E.
  - intros id p d c Hp Ha Hd Hnz Hge Hf Hin.
    assert (Hr : fst (maybeRespawn id r w) = modPlayer id (respawned sp) r).
    { unfold maybeRespawn. rewrite Hp, Ha, Hd.
      apply Z.eqb_neq in Hnz. rewrite Hnz. unfold now.
      apply Z.ltb_ge in Hge. rewrite Hge.
      unfold safeSpawn. rewrite E. reflexivity. }
    rewrite Hr.
    assert (Hfood : food (modPlayer id (respawned sp) r) = Some c)
      by exact Hf.
    assert (Hget : getPlayer id (modPlayer id (respawned sp) r)
                   = Some (respawned sp p))
      by now rewrite getPlayer_modPlayer_same, Hp.
    split; [exact Hfood|]. split.
    + exists (respawned sp p). now repeat split.
    + unfold foodClear. rewrite Hfood. intros [_ Hno].
      apply mget_In in Hget. exact (Hno _ Hget Hin).
Qed.

Lemma preset_spawn_ignores_food_witness :
  food (fst (maybeRespawn 1 foodOnPreset (snd killedLong)))
  = Some (cell 2 3) /\
  ~ foodClear (fst (maybeRespawn 1 foodOnPreset (snd killedLong))).
Proof.
  assert (E : spawnPreset presets foodOnPreset
              = Some (mkSpawn [cell 1 3; cell 2 3; cell 3 3] (cell 1 0)))
    by (vm_compute; reflexivity).
  assert (Hp : getPlayer 1 foodOnPreset
               = Some (mkPlayer 0 false (Some 3000) [] (cell (-1) 0) 0))
    by (vm_compute; reflexivity).
  assert (Hge : 3000 <= clock (snd killedLong) (clockReads (snd killedLong)))
    by (vm_compute; discriminate).
  assert (Hnz : 3000 <> 0) by discriminate.
  assert (Hin : In (cell 2 3) [cell 1 3; cell 2 3; cell 3 3])
    by (right; left; reflexivity).
  destruct (proj2 (@preset_spawn_ignores_food foodOnPreset (snd killedLong)
                     _ E)
                  1%nat _ 3000 (cell 2 3) Hp eq_refl eq_refl Hnz Hge
                  eq_refl Hin) as (Hf & _ & Hc).
  split; [exact Hf|exact Hc].
Defined.

(** ** The frames of a move *)

Lemma placeFood_outbox r w : outbox (snd (placeFood r w)) = outbox w.
Proof.
  unfold placeFood, randomFreeCell. now destruct (freeCells r).
Qed.

(** X24. A move sends a frame exactly when it fails.  For a player that is
    alive, a new head off the grid sends one death frame with the reason
    wall, a new head on the grid but in the occupancy set one death frame
    with the reason body, each with the deadline of the clock reading plus
    2000; a move that succeeds, eating or not, sends nothing. *)
Theorem move_sends_death_frame_iff_it_fails occ m r w p :
  getPlayer (m_id m) r = Some p ->
  alive p = true ->
  (inGrid (target m) = false ->
   outbox (snd (resolveMove occ m r w))
   = outbox w ++ [(ids r, MsgDeath (m_id m) wall
                                   (clock w (clockReads w) + 2000))]) /\
  (inGrid (target m) = true -> has occ (target m) = true ->
   outbox (snd (resolveMove occ m r w))
   = outbox w ++ [(ids r, MsgDeath (m_id m) body
                                   (clock w (clockReads w) + 2000))]) /\
  (inGrid (target m) = true -> has occ (target m) = false ->
   outbox (snd (resolveMove occ m r w)) = outbox w).
Proof.
  intros Hp Ha.
  assert (Hk : forall reason,
             outbox (snd (killPlayer (m_id m) reason r w))
             = outbox w ++ [(ids r, MsgDeath (m_id m) reason
                                      (clock w (clockReads w) + 2000))]).
  { intros reason.
    exact (@killPlayer_outbox (m_id m) reason r w p Hp Ha). }
  split; [|split].
  - intros Hout. unfold resolveMove.
    destruct (_ || _) eqn:Ew; [apply Hk|].
    exfalso. unfold inGrid in Hout. simpl in Hout.
    rewrite !orb_false_iff, !Z.ltb_ge, !Z.leb_gt in Ew.
    rewrite !andb_false_iff, !Z.leb_gt, !Z.ltb_ge in Hout. lia.
  - intros Hg Ho. pose proof (inGrid_not_wall (target m) Hg) as Hw.
    simpl in Hw. unfold resolveMove. fold (target m). rewrite Hw, Ho.
    apply Hk.
  - intros Hg Ho.
    rewrite (proj1 (@resolveMove_success occ m r w p Hp Hg Ho)).
    destruct (isFood r m); [apply placeFood_outbox|reflexivity].
Qed.

Lemma move_sends_death_frame_iff_it_fails_witness :
  outbox (snd (resolveMove [] (mkMove 1 (-1) 5) meeting (snd ticking)))
  = outbox (snd ticking)
    ++ [(ids meeting,
         MsgDeath 1 wall (clock (snd ticking) (clockReads (snd ticking))
                          + 2000))] /\
  outbox (snd (resolveMove [cell 6 5] (mkMove 1 6 5) meeting (snd ticking)))
  = outbox (snd ticking)
    ++ [(ids meeting,
         MsgDeath 1 body (clock (snd ticking) (clockReads (snd ticking))
                          + 2000))] /\
  outbox (snd (resolveMove [] (mkMove 1 6 5) meeting (snd ticking)))
  = outbox (snd ticking).
Proof.
  assert (Hp : getPlayer 1 meeting
               = Some (mkPlayer 0 true None [cell 3 5; cell 4 5; cell 5 5]
                                (cell 1 0) 0))
    by (vm_compute; reflexivity).
  split; [|split].
  - exact (proj1 (@move_sends_death_frame_iff_it_fails []
                    (mkMove 1 (-1) 5) meeting (snd ticking) _ Hp eq_refl)
                 eq_refl).
  - exact (proj1 (proj2 (@move_sends_death_frame_iff_it_fails [cell 6 5]
                    (mkMove 1 6 5) meeting (snd ticking) _ Hp eq_refl))
                 eq_refl eq_refl).
  - exact (proj2 (proj2 (@move_sends_death_frame_iff_it_fails []
                    (mkMove 1 6 5) meeting (snd ticking) _ Hp eq_refl))
                 eq_refl eq_refl).
Defined.
